(** * Network Utility App: a shallow embedding of [server.js] and [app.js]

    The development follows the source files top to bottom: JavaScript
    strings and numbers, the regular expressions the server uses, then
    [validateHost], [runCommand], [parsePingResult] and the HTTP handlers
    (ping, traceroute, speed test download and upload), and the speed test
    functions of the page that call them. *)

From Stdlib Require Import Ascii String.
From Stdlib Require Import List Bool Arith NArith ZArith Lia.
From Stdlib Require Import SpecFloat.
Import ListNotations.
Local Open Scope string_scope.
Local Open Scope list_scope.

(** ** JavaScript strings

    A JavaScript string is a sequence of UTF-16 code units. *)

Module JsString.

Definition char := N.
Definition jsstring := list char.

(** The code units of an ASCII literal of the source. *)
Definition lit (s : string) : jsstring :=
  map N_of_ascii (list_ascii_of_string s).

(** WhiteSpace and LineTerminator code points of ECMA-262: the characters
    removed by [String.prototype.trim] and matched by the class [\s]. *)
Definition is_space (c : char) : bool :=
  ((9 <=? c) && (c <=? 13)          (* TAB LF VT FF CR *)
   || (c =? 32)                     (* SP *)
   || (c =? 160)                    (* NBSP *)
   || (c =? 5760)                   (* U+1680 *)
   || ((8192 <=? c) && (c <=? 8202))  (* U+2000 .. U+200A *)
   || (c =? 8232) || (c =? 8233)    (* LS PS *)
   || (c =? 8239) || (c =? 8287)    (* U+202F U+205F *)
   || (c =? 12288)                  (* U+3000 *)
   || (c =? 65279))%N.              (* U+FEFF *)

(** LineTerminator: the characters [.] does not match. *)
Definition is_line_terminator (c : char) : bool :=
  ((c =? 10) || (c =? 13) || (c =? 8232) || (c =? 8233))%N.

Definition is_digit (c : char) : bool := ((48 <=? c) && (c <=? 57))%N.

Fixpoint trimStart (s : jsstring) : jsstring :=
  match s with
  | c :: s' => if is_space c then trimStart s' else s
  | [] => []
  end.

Definition trimEnd (s : jsstring) : jsstring := rev (trimStart (rev s)).

(** [String.prototype.trim] *)
Definition trim (s : jsstring) : jsstring := trimEnd (trimStart s).

(** [Array.prototype.join] on strings. *)
Fixpoint join (sep : jsstring) (xs : list jsstring) : jsstring :=
  match xs with
  | [] => []
  | [x] => x
  | x :: rest => x ++ sep ++ join sep rest
  end.

End JsString.
Import JsString.

(** ** Regular expressions

    The regular expression literals of [server.js] only quantify single
    characters and character classes, so the syntax below keeps quantifiers
    on character sets.  Matching follows the backtracking semantics of
    ECMA-262 (22.2.2) in continuation-passing style: alternatives are tried
    left to right, greedy quantifiers take the longest repetition first and
    lazy ones the shortest, and [exec] tries every start index from 0. *)

Module Regex.

Inductive cset :=
| CChar (c : char)            (* a pattern character *)
| CRange (lo hi : char)       (* [lo-hi] *)
| CDigit                      (* \d *)
| CSpace                      (* \s *)
| CDot                        (* . *)
| CUnion (a b : cset).        (* members of one [...] *)

Inductive regex :=
| REmpty
| RSet (a : cset)
| RSeq (r1 r2 : regex)
| RAlt (r1 r2 : regex)
| RQuant (a : cset) (min : nat) (max : option nat) (greedy : bool)
| RGroup (n : nat) (r : regex)    (* n-th capturing parenthesis *)
| RBol                            (* ^ *)
| REol.                           (* $ without the m flag *)

(** A RegExp object: its pattern and its [i] flag. *)
Record RegExp := { source : regex; ignoreCase : bool }.

(** Canonicalize of ECMA-262 for a pattern without the [u] flag maps a
    character to its upper case, except that a non-ASCII character is never
    mapped to an ASCII one.  All patterns of the program are ASCII, and a
    non-ASCII input character therefore never equals a canonicalized pattern
    character; on ASCII the mapping is the one below. *)
Definition canonicalize (c : char) : char :=
  if ((97 <=? c) && (c <=? 122))%N then (c - 32)%N else c.

Definition swap_case (c : char) : char :=
  if ((97 <=? c) && (c <=? 122))%N then (c - 32)%N
  else if ((65 <=? c) && (c <=? 90))%N then (c + 32)%N
  else c.

Fixpoint cset_mem (ic : bool) (a : cset) (x : char) : bool :=
  match a with
  | CChar c => if ic then (canonicalize c =? canonicalize x)%N else (c =? x)%N
  | CRange lo hi =>
      ((lo <=? x) && (x <=? hi)
       || ic && (lo <=? swap_case x) && (swap_case x <=? hi))%N
  | CDigit => is_digit x
  | CSpace => is_space x
  | CDot => negb (is_line_terminator x)
  | CUnion a b => cset_mem ic a x || cset_mem ic b x
  end.

Definition captures := list (nat * jsstring).

(** State handed to a continuation: end index, rest of the input, captures. *)
Definition mstate := (nat * jsstring * captures)%type.
Definition cont := nat -> jsstring -> captures -> option mstate.

Section Quantifier.
Variable ic : bool.
Variable a : cset.
Variable k : cont.
Variable c : captures.

(** Repetitions of one character set between [mn] and [mx] times. *)
Fixpoint quant (greedy : bool) (mn : nat) (mx : option nat)
         (i : nat) (s : jsstring) {struct s} : option mstate :=
  let stop := match mn with O => k i s c | S _ => None end in
  let more :=
    match mx with
    | Some O => None
    | _ =>
        match s with
        | x :: s' =>
            if cset_mem ic a x
            then quant greedy (pred mn) (option_map pred mx) (S i) s'
            else None
        | [] => None
        end
    end in
  if greedy
  then match more with Some r => Some r | None => stop end
  else match stop with Some r => Some r | None => more end.
End Quantifier.

Fixpoint rmatch (ic : bool) (r : regex) (i : nat) (s : jsstring)
         (c : captures) (k : cont) {struct r} : option mstate :=
  match r with
  | REmpty => k i s c
  | RSet a =>
      match s with
      | x :: s' => if cset_mem ic a x then k (S i) s' c else None
      | [] => None
      end
  | RSeq r1 r2 =>
      rmatch ic r1 i s c (fun i' s' c' => rmatch ic r2 i' s' c' k)
  | RAlt r1 r2 =>
      match rmatch ic r1 i s c k with
      | Some m => Some m
      | None => rmatch ic r2 i s c k
      end
  | RQuant a mn mx g => quant ic a k c g mn mx i s
  | RGroup n r1 =>
      rmatch ic r1 i s c
        (fun i' s' c' => k i' s' ((n, firstn (i' - i) s) :: c'))
  | RBol => if (i =? 0)%nat then k i s c else None
  | REol => match s with [] => k i s c | _ :: _ => None end
  end.

Definition accept : cont := fun i s c => Some (i, s, c).

(** The match attempted at one index (the sticky match used by [split]). *)
Definition match_at (re : RegExp) (i : nat) (s : jsstring) : option mstate :=
  rmatch (ignoreCase re) (source re) i s [] accept.

(** The result array of a successful [exec]. *)
Record MatchResult := { index : nat; whole : jsstring; groups : captures }.

Fixpoint exec_from (re : RegExp) (i : nat) (s : jsstring) : option MatchResult :=
  match match_at re i s with
  | Some (i', _, c) =>
      Some {| index := i; whole := firstn (i' - i) s; groups := c |}
  | None =>
      match s with
      | [] => None
      | _ :: s' => exec_from re (S i) s'
      end
  end.

(** [re.exec(s)] and [s.match(re)] for a RegExp without the [g] flag. *)
Definition exec (re : RegExp) (s : jsstring) : option MatchResult :=
  exec_from re 0 s.

(** [re.test(s)] *)
Definition test (re : RegExp) (s : jsstring) : bool :=
  match exec re s with Some _ => true | None => false end.

(** [m[n]] for [n >= 1]: [None] is [undefined]. *)
Fixpoint lookup (n : nat) (c : captures) : option jsstring :=
  match c with
  | [] => None
  | (n', v) :: c' => if (n =? n')%nat then Some v else lookup n c'
  end.

Definition group (n : nat) (m : MatchResult) : option jsstring :=
  lookup n (groups m).

(** [s.split(re)] for a separator without capturing groups (22.2.6.14):
    the separator is tried at every index from the left; a match ends the
    current piece, unless it is empty and the piece is empty too.  [skip]
    counts the characters of a separator still to be passed over and [cur]
    holds the current piece in reverse. *)
Fixpoint split_loop (re : RegExp) (skip : nat) (cur : jsstring)
         (i : nat) (s : jsstring) : list jsstring :=
  match s with
  | [] => [rev cur]
  | x :: s' =>
      match skip with
      | S n => split_loop re n cur (S i) s'
      | O =>
          match match_at re i s with
          | Some (e, _, _) =>
              match (e - i)%nat, cur with
              | O, [] => split_loop re 0 [x] (S i) s'
              | O, _ :: _ => rev cur :: split_loop re 0 [x] (S i) s'
              | S n, _ => rev cur :: split_loop re n [] (S i) s'
              end
          | None => split_loop re 0 (x :: cur) (S i) s'
          end
      end
  end.

Definition split (re : RegExp) (s : jsstring) : list jsstring :=
  match s with
  | [] => match match_at re 0 [] with Some _ => [] | None => [[]] end
  | _ :: _ => split_loop re 0 [] 0 s
  end.

(** Pattern builders. *)
Fixpoint chars (s : jsstring) : regex :=
  match s with
  | [] => REmpty
  | [x] => RSet (CChar x)
  | x :: s' => RSeq (RSet (CChar x)) (chars s')
  end.

Definition str (s : string) : regex := chars (lit s).
Definition code (s : string) : char :=
  match lit s with x :: _ => x | [] => 0%N end.
Definition chr (s : string) : cset := CChar (code s).
Definition range (lo hi : string) : cset := CRange (code lo) (code hi).

Definition star a := RQuant a 0 None true.
Definition plus a := RQuant a 1 None true.
Definition opt a := RQuant a 0 (Some 1) true.
Definition lazy_star a := RQuant a 0 None false.

Fixpoint rseq (rs : list regex) : regex :=
  match rs with
  | [] => REmpty
  | [r] => r
  | r :: rs' => RSeq r (rseq rs')
  end.

End Regex.
Import Regex.

(** ** Query values

    [req.query] as Express builds it with its default parser: a parameter is
    absent ([undefined]) or a string, an array or a nested object. *)

#[warnings="-register-all"]
Inductive qvalue :=
| QStr (s : jsstring)
| QArr (xs : list qvalue)
| QObj (props : list (jsstring * qvalue)).

(** ** validateHost *)

(** [/^[A-Za-z0-9.\-:]+$/] *)
Definition host_class : cset :=
  CUnion (range "A" "Z")
   (CUnion (range "a" "z")
     (CUnion (range "0" "9")
       (CUnion (chr ".") (CUnion (chr "-") (chr ":"))))).

Definition host_re : RegExp :=
  {| source := rseq [RBol; plus host_class; REol]; ignoreCase := false |}.

(** [validateHost]: [None] is the [null] it returns for a rejected input. *)
Definition validateHost (input : option qvalue) : option jsstring :=
  match input with
  | Some (QStr s) =>
      let host := trim s in
      match host with
      | [] => None
      | _ :: _ =>
          if (255 <? length host)%nat then None
          else if negb (test host_re host) then None
          else Some host
      end
  | _ => None
  end.

(** ** JavaScript numbers

    A Number is an IEEE 754 binary64 value; the operations are those of the
    specification of floating-point arithmetic of the standard library,
    instantiated at precision 53 and maximal exponent 1024. *)

Module JsNumber.

Definition prec : Z := 53.
Definition emax : Z := 1024.

Definition number := spec_float.
Definition NaN : number := S754_nan.

(** The Number nearest to an integer (ties to even). *)
Definition of_Z (z : Z) : number := binary_normalize prec emax z 0 false.

Definition div (x y : number) : number := SFdiv prec emax x y.
Definition mul (x y : number) : number := SFmul prec emax x y.
Definition sub (x y : number) : number := SFsub prec emax x y.
Definition ltb (x y : number) : bool := SFltb x y.
Definition leb (x y : number) : bool := SFleb x y.

Definition is_nan (x : number) : bool :=
  match x with S754_nan => true | _ => false end.

(** [Math.min] and [Math.max] of two arguments: NaN if either is NaN, and
    -0 counts as smaller than +0. *)
Definition Math_min (x y : number) : number :=
  match SFcompare x y with
  | None => NaN
  | Some Lt => x
  | Some Gt => y
  | Some Eq => match y with S754_zero true => y | _ => x end
  end.

Definition Math_max (x y : number) : number :=
  match SFcompare x y with
  | None => NaN
  | Some Lt => y
  | Some Gt => x
  | Some Eq => match y with S754_zero false => y | _ => x end
  end.

(** [Math.round]: the nearest integral Number, ties towards +Infinity;
    for a finite non-integral [x] this is floor(x + 1/2), computed exactly. *)
Definition Math_round (x : number) : number :=
  match x with
  | S754_finite s m e =>
      if (0 <=? e)%Z then x
      else
        let n := ((2 * cond_Zopp s (Zpos m) + 2 ^ (- e)) / 2 ^ (1 - e))%Z in
        match n with
        | Z0 => S754_zero s
        | _ => of_Z n
        end
  | _ => x
  end.

(** ToIntegerOrInfinity. *)
Inductive integer_or_inf := Int (z : Z) | PosInf | NegInf.

Definition ToIntegerOrInfinity (x : number) : integer_or_inf :=
  match x with
  | S754_nan => Int 0
  | S754_zero _ => Int 0
  | S754_infinity s => if s then NegInf else PosInf
  | S754_finite s m e =>
      Int (cond_Zopp s
             (if (0 <=? e)%Z then Zpos m * 2 ^ e else Zpos m / 2 ^ (- e)))%Z
  end.

(** *** StringToNumber (ECMA-262 7.1.4.1.1) *)

Fixpoint span_digits (s : jsstring) : jsstring * jsstring :=
  match s with
  | c :: s' =>
      if is_digit c
      then let (ds, r) := span_digits s' in (c :: ds, r)
      else ([], s)
  | [] => ([], [])
  end.

Definition digits_value (base : Z) (value_of : char -> Z) (ds : jsstring) : Z :=
  fold_left (fun acc d => base * acc + value_of d)%Z ds 0%Z.

Definition decimal_digit (c : char) : Z := Z.of_N (c - 48).

Definition hex_digit (c : char) : option Z :=
  if is_digit c then Some (Z.of_N (c - 48))
  else if ((97 <=? c) && (c <=? 102))%N then Some (Z.of_N (c - 87))
  else if ((65 <=? c) && (c <=? 70))%N then Some (Z.of_N (c - 55))
  else None.

(** Digits of a non-decimal literal, all below the base. *)
Fixpoint radix_value (base : Z) (acc : Z) (ds : jsstring) : option Z :=
  match ds with
  | [] => Some acc
  | d :: ds' =>
      match hex_digit d with
      | Some v => if (v <? base)%Z then radix_value base (base * acc + v)%Z ds'
                  else None
      | None => None
      end
  end.

(** [0x..], [0o..], [0b..]: no sign, at least one digit. *)
Definition parse_nondecimal (s : jsstring) : option Z :=
  match s with
  | z :: p :: ((_ :: _) as ds) =>
      if (z =? 48)%N then
        if ((p =? 120) || (p =? 88))%N then radix_value 16 0 ds
        else if ((p =? 111) || (p =? 79))%N then radix_value 8 0 ds
        else if ((p =? 98) || (p =? 66))%N then radix_value 2 0 ds
        else None
      else None
  | _ => None
  end.

Definition split_sign (s : jsstring) : bool * jsstring :=
  match s with
  | c :: s' =>
      if (c =? 45)%N then (true, s')
      else if (c =? 43)%N then (false, s')
      else (false, s)
  | [] => (false, [])
  end.

(** ExponentPart, or nothing, up to the end of the string. *)
Definition parse_exponent (s : jsstring) : option Z :=
  match s with
  | [] => Some 0%Z
  | e :: r =>
      if ((e =? 101) || (e =? 69))%N then
        let (neg, r') := split_sign r in
        match span_digits r' with
        | ((_ :: _) as ds, []) =>
            Some (cond_Zopp neg (digits_value 10 decimal_digit ds))
        | _ => None
        end
      else None
  end.

(** StrUnsignedDecimalLiteral other than Infinity: the decimal mantissa as
    an integer and the power of ten that scales it. *)
Definition parse_unsigned_decimal (s : jsstring) : option (Z * Z) :=
  let (ip, r1) := span_digits s in
  let '(fp, r2) :=
    match r1 with
    | d :: r => if (d =? 46)%N then span_digits r else ([], r1)
    | [] => ([], [])
    end in
  match ip ++ fp with
  | [] => None
  | (_ :: _) as ds =>
      match parse_exponent r2 with
      | Some e =>
          Some (digits_value 10 decimal_digit ds, (e - Z.of_nat (length fp))%Z)
      | None => None
      end
  end.

(** The Number nearest to [m * 10^e10] for [m >= 0], with the given sign. *)
Definition decimal_value (neg : bool) (m e10 : Z) : number :=
  match m with
  | Zpos p =>
      if (0 <=? e10)%Z
      then binary_normalize prec emax (cond_Zopp neg (Zpos p * 10 ^ e10)) 0 false
      else SFdiv prec emax (S754_finite neg p 0)
                           (S754_finite false (Z.to_pos (10 ^ (- e10))) 0)
  | _ => S754_zero neg
  end.

Fixpoint jsstring_eqb (a b : jsstring) : bool :=
  match a, b with
  | [], [] => true
  | x :: a', y :: b' => (x =? y)%N && jsstring_eqb a' b'
  | _, _ => false
  end.

Definition StringToNumber (s : jsstring) : number :=
  match trim s with
  | [] => S754_zero false
  | (_ :: _) as t =>
      match parse_nondecimal t with
      | Some z => of_Z z
      | None =>
          let (neg, u) := split_sign t in
          if jsstring_eqb u (lit "Infinity") then S754_infinity neg
          else
            match parse_unsigned_decimal u with
            | Some (m, e) => decimal_value neg m e
            | None => NaN
            end
      end
  end.

(** [Number(x)] for a string or [undefined]. *)
Definition Number (x : option jsstring) : number :=
  match x with
  | Some s => StringToNumber s
  | None => NaN
  end.

End JsNumber.
Import JsNumber.

(** ** runCommand

    [runCommand] spawns the child and registers five callbacks; what happens
    next is decided by the events the runtime delivers.  A run is the list
    of those events, in order of delivery, and the closure variables
    [stdout], [stderr] and [finished] are the state the callbacks share. *)

Module CommandResult.
Record t := {
  code : option Z;        (* exit code, [None] for [null] *)
  stdout : jsstring;
  stderr : jsstring;
  timedOut : bool
}.
End CommandResult.

Module Runner.

Inductive event :=
| StdoutData (d : jsstring)      (* child.stdout 'data', with d.toString() *)
| StderrData (d : jsstring)      (* child.stderr 'data', with d.toString() *)
| ChildError (err : jsstring)    (* child 'error', with String(err) *)
| ChildClose (code : option Z)   (* child 'close' *)
| TimerFired.                    (* timeoutMs elapsed *)

Record state := {
  stdout : jsstring;
  stderr : jsstring;
  finished : bool;
  timer : bool;                        (* the timeout is still scheduled *)
  kills : nat;                         (* calls of child.kill('SIGKILL') *)
  resolved : list CommandResult.t      (* calls of resolve, oldest first *)
}.

(** State after the body of the Promise executor has run. *)
Definition init : state :=
  {| stdout := []; stderr := []; finished := false; timer := true;
     kills := 0; resolved := [] |}.

(** ['\n[Timed out]'] *)
Definition timed_out_marker : jsstring := 10%N :: lit "[Timed out]".

Definition on_timeout (st : state) : state :=
  if negb (finished st) then
    {| stdout := stdout st; stderr := stderr st; finished := true;
       timer := false; kills := S (kills st);
       resolved := resolved st ++
         [ {| CommandResult.code := None;
              CommandResult.stdout := stdout st;
              CommandResult.stderr := stderr st ++ timed_out_marker;
              CommandResult.timedOut := true |} ] |}
  else
    {| stdout := stdout st; stderr := stderr st; finished := finished st;
       timer := false; kills := kills st; resolved := resolved st |}.

Definition on_error (err : jsstring) (st : state) : state :=
  if negb (finished st) then
    {| stdout := stdout st; stderr := stderr st; finished := true;
       timer := false (* clearTimeout(timer) *); kills := kills st;
       resolved := resolved st ++
         [ {| CommandResult.code := None;
              CommandResult.stdout := stdout st;
              CommandResult.stderr := err;
              CommandResult.timedOut := false |} ] |}
  else st.

Definition on_close (code : option Z) (st : state) : state :=
  if negb (finished st) then
    {| stdout := stdout st; stderr := stderr st; finished := true;
       timer := false (* clearTimeout(timer) *); kills := kills st;
       resolved := resolved st ++
         [ {| CommandResult.code := code;
              CommandResult.stdout := stdout st;
              CommandResult.stderr := stderr st;
              CommandResult.timedOut := false |} ] |}
  else st.

(** Delivery of one event.  A timeout that was cleared, or has fired
    already, never runs its callback. *)
Definition step (st : state) (e : event) : state :=
  match e with
  | StdoutData d =>
      {| stdout := stdout st ++ d; stderr := stderr st;
         finished := finished st; timer := timer st; kills := kills st;
         resolved := resolved st |}
  | StderrData d =>
      {| stdout := stdout st; stderr := stderr st ++ d;
         finished := finished st; timer := timer st; kills := kills st;
         resolved := resolved st |}
  | ChildError err => on_error err st
  | ChildClose code => on_close code st
  | TimerFired => if timer st then on_timeout st else st
  end.

Definition run (trace : list event) : state := fold_left step trace init.

(** The value the promise of [runCommand] settles with: the argument of the
    first call of [resolve]; [None] while it is pending. *)
Definition runCommand (trace : list event) : option CommandResult.t :=
  hd_error (resolved (run trace)).

Definition is_data (e : event) : bool :=
  match e with
  | StdoutData _ | StderrData _ => true
  | _ => false
  end.

(** What the data events of a trace add to the two buffers. *)
Definition stdout_of (trace : list event) : jsstring :=
  concat (map (fun e => match e with StdoutData d => d | _ => [] end) trace).

Definition stderr_of (trace : list event) : jsstring :=
  concat (map (fun e => match e with StderrData d => d | _ => [] end) trace).

End Runner.

(** ** parsePingResult *)

(** The values stored in the fields of the result object. *)
Inductive value :=
| VNull
| VNum (x : number)
| VStr (s : jsstring).

Module PingResult.
Record t := {
  transmitted : value;
  received : value;
  loss : value;
  min : value;
  avg : value;
  max : value;
  raw : value
}.
End PingResult.

Module Parser.

Definition re (r : list regex) (i : bool) : RegExp :=
  {| source := rseq r; ignoreCase := i |}.

(** [/\r?\n/] *)
Definition re_newline : RegExp :=
  re [opt (CChar 13%N); RSet (CChar 10%N)] false.

(** [/packets transmitted/i] and [/received/i] *)
Definition re_packets_transmitted := re [str "packets transmitted"] true.
Definition re_received := re [str "received"] true.

(** [/(\d+)\s+packets transmitted,\s+(\d+)\s+received.*?(\d+)%\s+packet loss/i] *)
Definition re_unix_stats : RegExp :=
  re [RGroup 1 (plus CDigit); plus CSpace; str "packets transmitted,";
      plus CSpace; RGroup 2 (plus CDigit); plus CSpace; str "received";
      lazy_star CDot; RGroup 3 (plus CDigit); RSet (chr "%"); plus CSpace;
      str "packet loss"] true.

(** [/(rtt|round-trip).*?min\/avg\/max/i] *)
Definition re_rtt_line : RegExp :=
  re [RGroup 1 (RAlt (str "rtt") (str "round-trip")); lazy_star CDot;
      str "min/avg/max"] true.

(** [/=\s*([\d.]+)\/([\d.]+)\/([\d.]+)/] *)
Definition digits_dot : cset := CUnion CDigit (chr ".").
Definition re_rtt : RegExp :=
  re [RSet (chr "="); star CSpace; RGroup 1 (plus digits_dot);
      RSet (chr "/"); RGroup 2 (plus digits_dot);
      RSet (chr "/"); RGroup 3 (plus digits_dot)] false.

(** [/Packets: Sent =/i] *)
Definition re_win_stats := re [str "Packets: Sent ="] true.

(** [/Sent\s*=\s*(\d+)/i], [/Received\s*=\s*(\d+)/i], [/Lost\s*=\s*(\d+)/i] *)
Definition re_field (name : string) : RegExp :=
  re [str name; star CSpace; RSet (chr "="); star CSpace;
      RGroup 1 (plus CDigit)] true.

(** [/Minimum =|Average =|Maximum =/i] *)
Definition re_win_time : RegExp :=
  {| source := RAlt (str "Minimum =") (RAlt (str "Average =") (str "Maximum ="));
     ignoreCase := true |}.

(** [/Minimum\s*=\s*(\d+)\s*ms/i] and the like *)
Definition re_ms (name : string) : RegExp :=
  re [str name; star CSpace; RSet (chr "="); star CSpace;
      RGroup 1 (plus CDigit); star CSpace; str "ms"] true.

(** [lines.find(p)] followed by [if (line)]: the first line satisfying [p],
    unless it is the empty string, which is falsy. *)
Definition find_line (p : jsstring -> bool) (lines : list jsstring)
  : option jsstring :=
  match find p lines with
  | Some [] => None
  | o => o
  end.

Import PingResult.

Definition set_transmitted v (r : t) : t :=
  {| transmitted := v; received := received r; loss := loss r;
     min := min r; avg := avg r; max := max r; raw := raw r |}.
Definition set_received v (r : t) : t :=
  {| transmitted := transmitted r; received := v; loss := loss r;
     min := min r; avg := avg r; max := max r; raw := raw r |}.
Definition set_loss v (r : t) : t :=
  {| transmitted := transmitted r; received := received r; loss := v;
     min := min r; avg := avg r; max := max r; raw := raw r |}.
Definition set_min v (r : t) : t :=
  {| transmitted := transmitted r; received := received r; loss := loss r;
     min := v; avg := avg r; max := max r; raw := raw r |}.
Definition set_avg v (r : t) : t :=
  {| transmitted := transmitted r; received := received r; loss := loss r;
     min := min r; avg := v; max := max r; raw := raw r |}.
Definition set_max v (r : t) : t :=
  {| transmitted := transmitted r; received := received r; loss := loss r;
     min := min r; avg := avg r; max := v; raw := raw r |}.

(** [Number(m[n])] *)
Definition number_of (n : nat) (m : MatchResult) : value :=
  VNum (Number (group n m)).

(** ToNumber of a value read back from the result object. *)
Definition ToNumber (v : value) : number :=
  match v with
  | VNull => S754_zero false
  | VNum x => x
  | VStr s => StringToNumber s
  end.

(** Unix summary: "packets transmitted, received, % packet loss". *)
Definition unix_stats (lines : list jsstring) (result : t) : t :=
  match find_line (fun l => test re_packets_transmitted l && test re_received l)
                  lines with
  | Some unixStats =>
      match exec re_unix_stats unixStats with
      | Some m =>
          set_loss (number_of 3 m)
            (set_received (number_of 2 m)
               (set_transmitted (number_of 1 m) result))
      | None => result
      end
  | None => result
  end.

(** Unix rtt line: "min/avg/max/...". *)
Definition unix_rtt (lines : list jsstring) (result : t) : t :=
  match find_line (test re_rtt_line) lines with
  | Some rttLine =>
      match exec re_rtt rttLine with
      | Some m =>
          set_max (number_of 3 m)
            (set_avg (number_of 2 m) (set_min (number_of 1 m) result))
      | None => result
      end
  | None => result
  end.

(** [if (m) result.f = Number(m[1])] *)
Definition assign_if (set : value -> t -> t) (m : option MatchResult)
           (result : t) : t :=
  match m with
  | Some m => set (number_of 1 m) result
  | None => result
  end.

(** Windows statistics line. *)
Definition win_stats (lines : list jsstring) (result : t) : t :=
  match find_line (test re_win_stats) lines with
  | Some winStatLine =>
      let sentMatch := exec (re_field "Sent") winStatLine in
      let recMatch := exec (re_field "Received") winStatLine in
      let lostMatch := exec (re_field "Lost") winStatLine in
      let result := assign_if set_transmitted sentMatch result in
      let result := assign_if set_received recMatch result in
      match lostMatch, transmitted result with
      | Some m, (VNum _ | VStr _) as tr =>
          let lost := Number (group 1 m) in
          set_loss (VNum (Math_round (mul (div lost (ToNumber tr)) (of_Z 100))))
                   result
      | _, _ => result
      end
  | None => result
  end.

(** Windows times line, e.g. Minimum = 1ms, Maximum = 3ms, Average = 2ms. *)
Definition win_time (lines : list jsstring) (result : t) : t :=
  match find_line (test re_win_time) lines with
  | Some winTimeLine =>
      let minMatch := exec (re_ms "Minimum") winTimeLine in
      let avgMatch := exec (re_ms "Average") winTimeLine in
      let maxMatch := exec (re_ms "Maximum") winTimeLine in
      let result := assign_if set_min minMatch result in
      let result := assign_if set_avg avgMatch result in
      assign_if set_max maxMatch result
  | None => result
  end.

Definition parsePingResult (output : jsstring) : t :=
  let result :=
    {| transmitted := VNull; received := VNull; loss := VNull;
       min := VNull; avg := VNull; max := VNull; raw := VStr output |} in
  let lines := split re_newline output in
  let result := unix_stats lines result in
  let result := unix_rtt lines result in
  let result := win_stats lines result in
  win_time lines result.

End Parser.

(** ** HTTP handlers *)

Module Http.

(** One call of [spawn] made through [runCommand]. *)
Record SpawnCall := { cmd : jsstring; args : list jsstring; timeoutMs : Z }.

(** Bodies passed to [res.json]. *)
Inductive Json :=
| ErrorJson (error : jsstring)
| PingJson (ok : bool) (exitCode : option Z) (timedOut : bool)
           (stats : PingResult.t)
| TracerouteJson (ok : bool) (exitCode : option Z) (timedOut : bool)
                 (output : jsstring)
| UploadJson (receivedBytes : Z).

Record Response := { status : Z; json : Json }.

(** What a handler did: the processes it spawned and the response it sent,
    [None] while it still awaits [runCommand]. *)
Record Handled := { spawned : list SpawnCall; response : option Response }.

End Http.

Module Diagnostics.
Import Http.

(** [!timedOut && code === 0] *)
Definition ok_of (r : CommandResult.t) : bool :=
  negb (CommandResult.timedOut r) &&
  match CommandResult.code r with
  | Some 0%Z => true
  | _ => false
  end.

(** [a + (b ? '\n' + b : '')] *)
Definition with_stderr (a b : jsstring) : jsstring :=
  a ++ match b with [] => [] | _ :: _ => 10%N :: b end.

Definition invalid_host : Handled :=
  {| spawned := [];
     response := Some {| status := 400; json := ErrorJson (lit "Invalid host") |} |}.

Section Platform.
(** [process.platform === 'win32'] *)
Variable isWindows : bool.

(** [app.get('/api/ping', ...)]: [host] is [req.query.host] and [trace]
    the events delivered to the command it runs. *)
Definition ping (host : option qvalue) (trace : list Runner.event) : Handled :=
  match validateHost host with
  | None => invalid_host
  | Some host =>
      let args :=
        if isWindows
        then [lit "-n"; lit "4"; lit "-w"; lit "2000"; host]
        else [lit "-c"; lit "4"; host] in
      {| spawned := [ {| cmd := lit "ping"; args := args; timeoutMs := 30000 |} ];
         response :=
           match Runner.runCommand trace with
           | None => None
           | Some r =>
               let parsed :=
                 Parser.parsePingResult
                   (with_stderr (CommandResult.stdout r) (CommandResult.stderr r)) in
               Some {| status := 200;
                       json := PingJson (ok_of r) (CommandResult.code r)
                                        (CommandResult.timedOut r) parsed |}
           end |}
  end.

(** [app.get('/api/traceroute', ...)] *)
Definition traceroute (host : option qvalue) (trace : list Runner.event)
  : Handled :=
  match validateHost host with
  | None => invalid_host
  | Some host =>
      let '(cmd, args) :=
        if isWindows
        then (lit "tracert", [lit "-d"; lit "-h"; lit "30"; host])
        else (lit "traceroute", [lit "-n"; lit "-m"; lit "30"; host]) in
      {| spawned := [ {| cmd := cmd; args := args; timeoutMs := 60000 |} ];
         response :=
           match Runner.runCommand trace with
           | None => None
           | Some r =>
               let output :=
                 with_stderr (CommandResult.stdout r) (CommandResult.stderr r) in
               Some {| status := 200;
                       json := TracerouteJson (ok_of r) (CommandResult.code r)
                                              (CommandResult.timedOut r) output |}
           end |}
  end.
End Platform.

End Diagnostics.

(** ** Speed test: download *)

Module Download.

Definition MAX_SIZE : number := of_Z (50 * 1024 * 1024).
Definition MIN_SIZE : number := of_Z 1024.
Definition DEFAULT_SIZE : number := of_Z (25 * 1024 * 1024).
Definition CHUNK : Z := 64 * 1024.

(** ToString of a query value (arrays join their elements with a comma). *)
Fixpoint ToString (v : qvalue) : jsstring :=
  match v with
  | QStr s => s
  | QArr xs => join (lit ",") (map ToString xs)
  | QObj _ => lit "[object Object]"
  end.

(** Only the empty string is falsy among query values. *)
Definition truthy (v : qvalue) : bool :=
  match v with
  | QStr [] => false
  | _ => true
  end.

(** [Number(req.query.size || 25 * 1024 * 1024)] *)
Definition sizeParam (q : option qvalue) : number :=
  match q with
  | Some v => if truthy v then StringToNumber (ToString v) else DEFAULT_SIZE
  | None => DEFAULT_SIZE
  end.

(** [Math.max(1024, Math.min(sizeParam, MAX_SIZE))] *)
Definition clamp (sizeParam : number) : number :=
  Math_max MIN_SIZE (Math_min sizeParam MAX_SIZE).

Definition size (q : option qvalue) : number := clamp (sizeParam q).

(** The headers set on the response; the Content-Length header carries
    [String(size)], kept here as the number itself. *)
Record Headers := {
  ContentType : jsstring;
  ContentLength : number;
  CacheControl : jsstring
}.

Definition headers (q : option qvalue) : Headers :=
  {| ContentType := lit "application/octet-stream";
     ContentLength := size q;
     CacheControl := lit "no-store" |}.

(** [chunk[i] = (i * 97 + 31) & 0xff] for [0 <= i < CHUNK] *)
Fixpoint fill_from (i : N) (n : nat) : list N :=
  match n with
  | O => []
  | S n' => N.land (i * 97 + 31) 255 :: fill_from (N.succ i) n'
  end.

Definition fill : list N := fill_from 0 (Z.to_nat CHUNK).

(** [chunk[0] = (chunk[0] + 1) & 0xff] *)
Definition bump (chunk : list N) : list N :=
  match chunk with
  | b :: rest => N.land (b + 1) 255 :: rest
  | [] => []
  end.

(** [chunk.subarray(0, end)]: the bytes the view holds when it is taken. *)
Definition subarray0 (chunk : list N) (end_ : number) : list N :=
  match ToIntegerOrInfinity end_ with
  | Int z =>
      if (z <? 0)%Z
      then firstn (Z.to_nat (Z.max (Z.of_nat (length chunk) + z) 0)) chunk
      else firstn (Z.to_nat z) chunk
  | PosInf => chunk
  | NegInf => []
  end.

(** Where the handler stands: inside the loop of [writeMore], returned from
    it with a 'drain' listener registered, or past [res.end()]. *)
Inductive phase := Writing | AwaitingDrain | Ended.

(** [chunk] is the one Buffer all views share.  [writes] records, oldest
    first, the bytes each view passed to [res.write] holds at the time of
    the call; the response body is taken to be their concatenation (what
    the runtime does with a view it still queues when [chunk] changes is
    outside the model). *)
Record state := {
  remaining : number;
  chunk : list N;
  writes : list (list N);
  where_ : phase
}.

Definition init (q : option qvalue) : state :=
  {| remaining := size q; chunk := fill; writes := []; where_ := Writing |}.

Definition set_where (p : phase) (st : state) : state :=
  {| remaining := remaining st; chunk := chunk st; writes := writes st;
     where_ := p |}.

(** One turn of the loop of [writeMore]; [canContinue] is what [res.write]
    returns. *)
Definition write_chunk (canContinue : bool) (st : state) : state :=
  let toWrite := Math_min (of_Z CHUNK) (remaining st) in
  let chunk := bump (chunk st) in
  {| remaining := sub (remaining st) toWrite;
     chunk := chunk;
     writes := writes st ++ [subarray0 chunk toWrite];
     where_ := if canContinue then Writing else AwaitingDrain |}.

(** One step of the handler.  [backpressure k] is the answer of [res.write]
    to its k-th call; while the handler awaits, the next step is the 'drain'
    event, which calls [writeMore] again. *)
Definition step (backpressure : nat -> bool) (st : state) : state :=
  match where_ st with
  | Writing =>
      if ltb (S754_zero false) (remaining st)      (* remaining > 0 *)
      then write_chunk (backpressure (length (writes st))) st
      else set_where Ended st                       (* res.end() *)
  | AwaitingDrain => set_where Writing st
  | Ended => st
  end.

Fixpoint steps (n : nat) (backpressure : nat -> bool) (st : state) : state :=
  match n with
  | O => st
  | S n' => steps n' backpressure (step backpressure st)
  end.

(** [writeMore()] as called by the handler, followed for [n] steps. *)
Definition writeMore (n : nat) (backpressure : nat -> bool)
           (q : option qvalue) : state :=
  steps n backpressure (init q).

(** The bytes of the response body. *)
Definition body (st : state) : list N := concat (writes st).

End Download.

(** ** Speed test: upload *)

Module Upload.
Import Http.

(** [req.body] behind [express.raw]: a Buffer when the body was parsed,
    else [undefined] or the empty object the parser leaves. *)
Inductive reqbody :=
| BodyUndefined
| BodyEmptyObject
| BodyBuffer (data : list N).

Definition MAX_BYTES : Z := 200 * 1024 * 1024.

(** [req.body?.length || 0] *)
Definition bytes (b : reqbody) : Z :=
  match b with
  | BodyBuffer data =>
      let n := Z.of_nat (length data) in
      if (n =? 0)%Z then 0%Z else n
  | BodyUndefined | BodyEmptyObject => 0%Z
  end.

(** [app.post('/api/speedtest/upload', ...)] *)
Definition upload (b : reqbody) : Response :=
  if (MAX_BYTES <? bytes b)%Z
  then {| status := 413; json := ErrorJson (lit "Payload too large") |}
  else {| status := 200; json := UploadJson (bytes b) |}.

End Upload.

(** ** The speed test of the page ([app.js])

    The page calls the two speed test routes.  [runDownloadTest],
    [makeRandomBlob] and [runUploadTest] take the size chosen in the page,
    an integer number of bytes; on integers of this magnitude the Number
    arithmetic of these functions is exact (the largest intermediate value,
    [seed * 1664525 + 1013904223] with [seed < 2^32], is below 2^53), so
    sizes, counts and the seed are integers here, with the wrap of [>>> 0]
    written out.  The clock readings and [toMbps] are left out: what is
    kept of each test is the number of bytes it counts. *)

Module Client.

Definition chunkSize : Z := 64 * 1024.

(** [Math.ceil(a / b)] for integers [a] and [b > 0]. *)
Definition ceil_div (a b : Z) : Z := (- ((- a) / b))%Z.

(** [seed = (seed * 1664525 + 1013904223) >>> 0] *)
Definition next_seed (seed : N) : N :=
  ((seed * 1664525 + 1013904223) mod 2 ^ 32)%N.

(** The inner loop: [len] bytes drawn from the generator, and the seed it
    leaves. *)
Fixpoint fill_buf (len : nat) (seed : N) : list N * N :=
  match len with
  | O => ([], seed)
  | S len' =>
      let seed := next_seed seed in
      let '(buf, seed') := fill_buf len' seed in
      (N.land seed 255 :: buf, seed')
  end.

(** The outer loop, [chunks - i] iterations from the end. *)
Fixpoint fill_parts (chunks : nat) (remaining : Z) (seed : N)
  : list (list N) :=
  match chunks with
  | O => []
  | S chunks' =>
      let len := Z.min chunkSize remaining in
      let '(buf, seed) := fill_buf (Z.to_nat len) seed in
      buf :: fill_parts chunks' (remaining - len) seed
  end.

(** The parts handed to [new Blob]. *)
Definition parts (sizeBytes : Z) : list (list N) :=
  fill_parts (Z.to_nat (ceil_div sizeBytes chunkSize)) sizeBytes 0.

(** [makeRandomBlob]: the bytes of the Blob, its parts one after another. *)
Definition makeRandomBlob (sizeBytes : Z) : list N := concat (parts sizeBytes).

(** [data.receivedBytes || sizeBytes], for the body [data] of the answer. *)
Definition bytes_of (data : Http.Json) (sizeBytes : Z) : Z :=
  match data with
  | Http.UploadJson receivedBytes =>
      if (receivedBytes =? 0)%Z then sizeBytes else receivedBytes
  | _ => sizeBytes
  end.

(** The field [bytes] of the result of [runUploadTest], when the server
    handles the request with the body [body]. *)
Definition runUploadTest (sizeBytes : Z) (body : Upload.reqbody) : Z :=
  bytes_of (Http.json (Upload.upload body)) sizeBytes.

(** The digits of [n], most significant first, in front of [acc]. *)
Fixpoint digits_before (fuel : nat) (n : Z) (acc : jsstring) : jsstring :=
  match fuel with
  | O => acc
  | S fuel' =>
      let acc := (48 + Z.to_N (n mod 10))%N :: acc in
      if (n <? 10)%Z then acc else digits_before fuel' (n / 10)%Z acc
  end.

(** [`${sizeBytes}`]: Number::toString of an integer from 0 up to 10^21,
    where the exponent notation starts. *)
Definition ToString (sizeBytes : Z) : jsstring := digits_before 21 sizeBytes [].

(** [req.query.size] for the URL [`/api/speedtest/download?size=${sizeBytes}`]. *)
Definition size_query (sizeBytes : Z) : option qvalue :=
  Some (QStr (ToString sizeBytes)).

(** The loop of [runDownloadTest]: [received += value.byteLength] for every
    chunk the reader yields. *)
Definition received (reads : list (list N)) : Z :=
  fold_left (fun received value => received + Z.of_nat (length value))%Z reads 0%Z.

End Client.

(** * Vocabulary of the properties *)

(** ** Host validator *)

(** The allow-list [A-Za-z0-9.\-:] stated on code units. *)
Definition is_host_char (c : char) : bool :=
  (((65 <=? c) && (c <=? 90)) || ((97 <=? c) && (c <=? 122))
   || ((48 <=? c) && (c <=? 57))
   || (c =? 46) || (c =? 45) || (c =? 58))%N.

(** The continuation of [$]. *)
Definition at_end : cont :=
  fun i s c => rmatch false REol i s c accept.

(** ** Command runner *)

(** The state is either pending, with the timer armed and nothing resolved,
    or settled, with the timer disarmed and one resolution. *)
Definition pending_or_settled (st : Runner.state) : Prop :=
  (Runner.finished st = false /\ Runner.timer st = true
   /\ Runner.resolved st = [])
  \/ (Runner.finished st = true /\ Runner.timer st = false
      /\ length (Runner.resolved st) = 1).

(** ** Captures and the ping parser *)

(** Every capturing group of [r] is a repetition of the set [a], at least
    [mn] times. *)
Fixpoint groups_repeat (a : cset) (mn : nat) (r : regex) : Prop :=
  match r with
  | RSeq r1 r2 | RAlt r1 r2 => groups_repeat a mn r1 /\ groups_repeat a mn r2
  | RGroup _ (RQuant a' mn' _ _) => a' = a /\ mn' = mn
  | RGroup _ _ => False
  | _ => True
  end.

(** The groups that take part in every match of [r]. *)
Fixpoint sure_groups (r : regex) : list nat :=
  match r with
  | RSeq r1 r2 => sure_groups r1 ++ sure_groups r2
  | RGroup n _ => [n]
  | _ => []
  end.

(** What a capture of such a group looks like. *)
Definition repeats (ic : bool) (a : cset) (mn : nat) (v : jsstring) : Prop :=
  forallb (cset_mem ic a) v = true /\ mn <= length v.

(** A field of the result holds [null] or a Number. *)
Definition numeric_or_null (v : value) : Prop :=
  v = VNull \/ exists x : number, v = VNum x.

(** A field holds [null] or the Number nearest to a non-negative integer. *)
Definition integer_or_null (v : value) : Prop :=
  v = VNull \/ exists n : Z, (0 <= n)%Z /\ v = VNum (of_Z n).

(** The loss is such an integer, or was derived by the Windows rule from
    two of them. *)
Definition loss_or_null (v : value) : Prop :=
  integer_or_null v
  \/ exists lost sent : Z,
       (0 <= lost)%Z /\ (0 <= sent)%Z
       /\ v = VNum (Math_round (mul (div (of_Z lost) (of_Z sent)) (of_Z 100))).

(** The record of the parser for the input [s]. *)
Definition typed (s : jsstring) (r : PingResult.t) : Prop :=
  PingResult.raw r = VStr s
  /\ integer_or_null (PingResult.transmitted r)
  /\ integer_or_null (PingResult.received r)
  /\ loss_or_null (PingResult.loss r)
  /\ numeric_or_null (PingResult.min r)
  /\ numeric_or_null (PingResult.avg r)
  /\ numeric_or_null (PingResult.max r).

(** The Windows block of the specification, its two lines joined by a line
    feed. *)
Definition windows_block : jsstring :=
  lit "Packets: Sent = 4, Received = 4, Lost = 0 (0% loss)" ++ 10%N ::
  lit "Minimum = 1ms, Maximum = 3ms, Average = 2ms".

(** ** Diagnostic responses *)

(** The field [ok] of a diagnostic response. *)
Definition response_ok (r : Http.Response) : option bool :=
  match Http.json r with
  | Http.PingJson ok _ _ _ | Http.TracerouteJson ok _ _ _ => Some ok
  | _ => None
  end.

(** The response carries [{ error: ... }]. *)
Definition is_error_body (r : Http.Response) : Prop :=
  exists msg, Http.json r = Http.ErrorJson msg.

(** ** Download loop *)

(** The loop of [writeMore] when [res.write] never asks to wait: [k] turns. *)
Definition turns (k : nat) (st : Download.state) : Download.state :=
  Nat.iter k (Download.write_chunk true) st.

(** Two states that differ at most in where the handler stands. *)
Definition same_data (a b : Download.state) : Prop :=
  Download.remaining a = Download.remaining b
  /\ Download.chunk a = Download.chunk b
  /\ Download.writes a = Download.writes b.

(** A state reached from [st0] lies [k] turns into the loop, every earlier
    turn having found bytes remaining, and the loop is left only when none
    remain. *)
Definition on_track (st0 st : Download.state) : Prop :=
  exists k,
    same_data st (turns k st0)
    /\ (forall j, j < k ->
          ltb (S754_zero false) (Download.remaining (turns j st0)) = true)
    /\ (Download.where_ st = Download.Ended ->
          ltb (S754_zero false) (Download.remaining (turns k st0)) = false).

(** First bytes of consecutive writes differ by one modulo 256. *)
Definition perturbed (ws : list (list N)) : Prop :=
  forall i b1 t1 b2 t2,
    nth_error ws i = Some (b1 :: t1) ->
    nth_error ws (S i) = Some (b2 :: t2) ->
    b2 = N.land (b1 + 1) 255 /\ b2 <> b1.

(** The buffer starts with a byte, which the last non-empty write carries. *)
Definition buffer_in_step (st : Download.state) : Prop :=
  (exists b rest, Download.chunk st = b :: rest /\ (b < 256)%N)
  /\ perturbed (Download.writes st)
  /\ (forall b t,
        nth_error (Download.writes st) (length (Download.writes st) - 1)
        = Some (b :: t) ->
        hd_error (Download.chunk st) = Some b).

(** [toWrite] as a function of [remaining]. *)
Definition toWrite_of (r : number) : number :=
  Math_min (of_Z Download.CHUNK) r.

(** [remaining] after one turn of the loop. *)
Definition remaining_next (r : number) : number := sub r (toWrite_of r).

(** The loop leaves after exactly [k] turns when started with [r] remaining. *)
Fixpoint runs_out (k : nat) (r : number) : bool :=
  match k with
  | O => negb (ltb (S754_zero false) r)
  | S k' => ltb (S754_zero false) r && runs_out k' (remaining_next r)
  end.

(** Length of [subarray(0, end)] of a buffer of [len] bytes. *)
Definition view_length (len : Z) (end_ : number) : Z :=
  match ToIntegerOrInfinity end_ with
  | Int z => if (z <? 0)%Z then Z.min (Z.max (len + z) 0) len else Z.min z len
  | PosInf => len
  | NegInf => 0
  end.

(** Bytes written by [k] turns started with [r] remaining. *)
Fixpoint total (k : nat) (r : number) : Z :=
  match k with
  | O => 0
  | S k' => view_length Download.CHUNK (toWrite_of r)
            + total k' (remaining_next r)
  end.

(** ** Integers in binary64 *)

(** [p] shifted left by [k] bits. *)
Definition shl (p : positive) (k : Z) : positive :=
  match k with
  | Zpos n => Pos.iter xO p n
  | _ => p
  end.

(** The binary64 representation of a positive integer below 2^53. *)
Definition canonical (p : positive) : number :=
  S754_finite false (shl p (53 - Zpos (digits2_pos p))%Z)
              (Zpos (digits2_pos p) - 53)%Z.

(** ** Events of a run *)

(** The events of a trace up to its first completion event. *)
Fixpoint data_prefix (trace : list Runner.event) : list Runner.event :=
  match trace with
  | e :: rest => if Runner.is_data e then e :: data_prefix rest else []
  | [] => []
  end.

(** The first event of a trace that is not data. *)
Definition completion (trace : list Runner.event) : option Runner.event :=
  find (fun e => negb (Runner.is_data e)) trace.

(** ** Lines and patterns *)

(** A line that holds neither a line feed nor a carriage return. *)
Definition no_line_break (l : jsstring) : bool :=
  forallb (fun c => negb ((c =? 10) || (c =? 13))%N) l.

(** The six statistics of a result, without its raw text. *)
Definition statistics (r : PingResult.t)
  : value * value * value * value * value * value :=
  (PingResult.transmitted r, PingResult.received r, PingResult.loss r,
   PingResult.min r, PingResult.avg r, PingResult.max r).

(** No match of [r] exists without a character of the set [a]. *)
Fixpoint needs (a : cset) (r : regex) : Prop :=
  match r with
  | RSet a' | RQuant a' (S _) _ _ => a' = a
  | RSeq r1 r2 => needs a r1 \/ needs a r2
  | RAlt r1 r2 => needs a r1 /\ needs a r2
  | RGroup _ r1 => needs a r1
  | _ => False
  end.

(** The string holds no character of the set [a]. *)
Definition lacks (ic : bool) (a : cset) (s : jsstring) : Prop :=
  forall x, In x s -> cset_mem ic a x = false.

(** The pattern character a match of [r] has to start with, if any. *)
Fixpoint first_char (r : regex) : option char :=
  match r with
  | RSet (CChar a) => Some a
  | RSeq r1 _ | RGroup _ r1 => first_char r1
  | _ => None
  end.

(** A non-empty run of decimal digits. *)
Definition is_decimal (s : jsstring) : bool :=
  match s with
  | [] => false
  | _ :: _ => forallb is_digit s
  end.

(** The string does not go on with a digit. *)
Definition ends_number (rest : jsstring) : bool :=
  match rest with
  | [] => true
  | x :: _ => negb (is_digit x)
  end.

(** Spaces and tabs. *)
Definition is_blank (c : char) : bool := ((c =? 32) || (c =? 9))%N.

(** The statistics line of the Windows ping, for the three counts written
    in decimal digits. *)
Definition windows_line (indent sent received lost rest : jsstring) : jsstring :=
  indent ++ lit "Packets: Sent = " ++ sent ++ lit ", Received = " ++ received
         ++ lit ", Lost = " ++ lost ++ rest.

(** [Number.isInteger] *)
Definition isInteger (x : number) : bool :=
  match x with
  | S754_zero _ => true
  | S754_finite _ m e => ((0 <=? e) || (Zpos m mod 2 ^ (- e) =? 0))%Z
  | _ => false
  end.

(** The value of a run of decimal digits. *)
Definition decimal (s : jsstring) : Z := digits_value 10 decimal_digit s.

(** ** Spawned commands and answers *)

(** An argument made of allow-listed characters only: not empty, and free of
    whitespace, quotes, NUL and shell metacharacters. *)
Definition safe_argument (a : jsstring) : Prop :=
  a <> [] /\ forallb is_host_char a = true.

(** The fields ok, exitCode and timedOut of the body of a diagnostic
    response. *)
Definition diagnostic_fields (r : Http.Response)
  : option (bool * option Z * bool) :=
  match Http.json r with
  | Http.PingJson ok code timedOut _
  | Http.TracerouteJson ok code timedOut _ => Some (ok, code, timedOut)
  | _ => None
  end.

(** The text a diagnostic response carries: [stats.raw] or [output]. *)
Definition diagnostic_text (r : Http.Response) : option value :=
  match Http.json r with
  | Http.PingJson _ _ _ stats => Some (PingResult.raw stats)
  | Http.TracerouteJson _ _ _ output => Some (VStr output)
  | _ => None
  end.

(** ** Bytes of a download *)

(** The byte at offset [i] of the [j]-th chunk of a response, counting both
    from 0: the fill pattern, with the first byte bumped once per write. *)
Definition pattern_byte (j i : nat) : N :=
  match i with
  | O => N.land (32 + N.of_nat j) 255
  | S _ => N.land (N.of_nat i * 97 + 31) 255
  end.

(** The buffer as the [j]-th write finds it. *)
Definition pattern (j : nat) : list N :=
  N.land (32 + N.of_nat j) 255 :: tl Download.fill.

(** The buffer and the writes of a state follow the pattern. *)
Definition follows_pattern (st : Download.state) : Prop :=
  Download.chunk st
  = N.land (31 + N.of_nat (length (Download.writes st))) 255 :: tl Download.fill
  /\ forall j w, nth_error (Download.writes st) j = Some w ->
                 exists m, w = firstn m (pattern j).

(** ** The upload of the page *)

(** The first [n] bytes the generator yields from a seed. *)
Definition generated (n : nat) (seed : N) : list N :=
  fst (Client.fill_buf n seed).

(** The request body the upload handler sees for a Blob: the Buffer of its
    bytes, or for an empty Blob what the body parser leaves. *)
Definition received_as (blob : list N) (body : Upload.reqbody) : Prop :=
  body = Upload.BodyBuffer blob
  \/ (blob = [] /\ (body = Upload.BodyUndefined
                    \/ body = Upload.BodyEmptyObject)).

(** * Properties *)

(** ** The host validator *)

Ltac bool_to_prop :=
  repeat match goal with
  | H : _ |- _ =>
      progress rewrite ?orb_true_iff, ?andb_true_iff, ?orb_false_iff,
        ?andb_false_iff, ?negb_true_iff, ?negb_false_iff,
        ?N.leb_le, ?N.eqb_eq, ?N.leb_gt, ?N.eqb_neq in H
  end;
  rewrite ?orb_true_iff, ?andb_true_iff, ?orb_false_iff, ?andb_false_iff,
    ?negb_true_iff, ?negb_false_iff, ?N.leb_le, ?N.eqb_eq, ?N.leb_gt,
    ?N.eqb_neq.

Lemma host_class_mem (c : char) : cset_mem false host_class c = is_host_char c.
Proof.
  apply eq_true_iff_eq.
  unfold host_class, is_host_char, range, chr.
  change (code "A") with 65%N. change (code "Z") with 90%N.
  change (code "a") with 97%N. change (code "z") with 122%N.
  change (code "0") with 48%N. change (code "9") with 57%N.
  change (code ".") with 46%N. change (code "-") with 45%N.
  change (code ":") with 58%N.
  cbn [cset_mem andb]. bool_to_prop. lia.
Qed.

Lemma host_char_range (c : char) :
  is_host_char c = true -> (45 <= c <= 122)%N.
Proof. unfold is_host_char. intros H. bool_to_prop. lia. Qed.

Lemma space_range (c : char) :
  is_space c = true -> (c <= 32 \/ 160 <= c)%N.
Proof. unfold is_space. intros H. bool_to_prop. lia. Qed.

Lemma host_char_not_space (c : char) :
  is_host_char c = true -> is_space c = false.
Proof.
  intros H. apply host_char_range in H.
  destruct (is_space c) eqn:E; [ | reflexivity ].
  apply space_range in E. lia.
Qed.

(** A greedy [a+] or [a*] followed by [$] succeeds exactly on the strings
    made of [a] only. *)
Lemma quant_to_end (a : cset) (c : captures) (s : jsstring) :
  forall mn i,
    quant false a at_end c true mn None i s <> None <->
    forallb (cset_mem false a) s = true /\ mn <= length s.
Proof.
  induction s as [ | x s IH ]; intros mn i.
  - destruct mn; cbn; split; try intros [_ H]; try intros H;
      solve [ intuition (discriminate || lia) ].
  - cbn [quant option_map forallb length].
    destruct (cset_mem false a x) eqn:Hx; cbn [andb].
    + specialize (IH (pred mn) (S i)).
      destruct (quant false a at_end c true (pred mn) None (S i) s) eqn:Hq.
      * split; [ intros _ | intros _; discriminate ].
        destruct IH as [IH _]. destruct IH as [Hall Hlen]; [ discriminate | ].
        split; [ assumption | lia ].
      * destruct mn; cbn; split; try (intros H; now elim H).
        -- intros [Hall _]. apply IH. split; [ assumption | cbn; lia ].
        -- intros [Hall Hlen]. apply IH. split; [ assumption | cbn; lia ].
    + destruct mn; cbn; split; try (intros H; now elim H);
        intros [H _]; discriminate.
Qed.

Lemma host_re_only_at_start (s : jsstring) :
  forall i, i <> 0 -> exec_from host_re i s = None.
Proof.
  induction s as [ | x s IH ]; intros i Hi;
    unfold exec_from; fold exec_from; unfold match_at; cbn;
    destruct i; try congruence; cbn; auto.
Qed.

Lemma test_host_re (h : jsstring) :
  test host_re h = true <->
  h <> [] /\ forallb is_host_char h = true.
Proof.
  assert (Hall : forallb (cset_mem false host_class) h = forallb is_host_char h).
  { induction h as [ | x h IH ]; cbn [forallb]; [ reflexivity | ].
    now rewrite host_class_mem, IH. }
  pose proof (quant_to_end host_class [] h 1 0) as Hq.
  rewrite Hall in Hq.
  unfold test, exec.
  assert (Hm : match_at host_re 0 h
               = quant false host_class at_end [] true 1 None 0 h) by reflexivity.
  destruct h as [ | x h ].
  - cbn. split; [ discriminate | intros [H _]; now elim H ].
  - unfold exec_from; fold exec_from. rewrite Hm.
    destruct (quant false host_class at_end [] true 1 None 0 (x :: h))
      as [ [[i' r] c] | ] eqn:E.
    + split; [ intros _ | reflexivity ].
      split; [ discriminate | ]. apply Hq. discriminate.
    + rewrite host_re_only_at_start by discriminate.
      split; [ discriminate | ].
      intros [_ H]. exfalso.
      assert (Hn : @None mstate <> None);
        [ apply Hq; split; [ exact H | cbn; lia ] | now elim Hn ].
Qed.

Lemma trimStart_id (s : jsstring) :
  (forall c, In c s -> is_space c = false) -> trimStart s = s.
Proof.
  destruct s as [ | x s ]; intros H; [ reflexivity | ].
  cbn. now rewrite (H x (or_introl eq_refl)).
Qed.

Lemma trim_id (s : jsstring) :
  (forall c, In c s -> is_space c = false) -> trim s = s.
Proof.
  intros H. unfold trim, trimEnd. rewrite (trimStart_id s H).
  rewrite trimStart_id; [ apply rev_involutive | ].
  intros c Hc. apply H. now apply in_rev.
Qed.

Lemma trimStart_keeps (s : jsstring) (c : char) :
  In c s -> is_space c = false -> In c (trimStart s).
Proof.
  induction s as [ | x s IH ]; intros Hin Hc; [ assumption | ].
  cbn. destruct (is_space x) eqn:Hx; [ | assumption ].
  destruct Hin as [ -> | Hin ]; [ congruence | now apply IH ].
Qed.

Lemma trim_keeps (s : jsstring) (c : char) :
  In c s -> is_space c = false -> In c (trim s).
Proof.
  intros Hin Hc. unfold trim, trimEnd. apply in_rev. rewrite rev_involutive.
  apply trimStart_keeps; [ | assumption ].
  apply in_rev. rewrite rev_involutive. now apply trimStart_keeps.
Qed.

(** The accepted inputs, characterised without the regular expression. *)
Lemma validateHost_iff (input : option qvalue) (h : jsstring) :
  validateHost input = Some h <->
  exists s, input = Some (QStr s) /\ h = trim s /\
            1 <= length h <= 255 /\ forallb is_host_char h = true.
Proof.
  unfold validateHost. split.
  - destruct input as [ [ s | xs | ps ] | ]; try discriminate.
    destruct (trim s) as [ | x t ] eqn:Ht; [ discriminate | ].
    destruct (255 <? length (x :: t))%nat eqn:Hlen; [ discriminate | ].
    destruct (test host_re (x :: t)) eqn:Hre; cbn [negb]; [ | discriminate ].
    intros [= <-]. exists s. apply Nat.ltb_ge in Hlen.
    apply test_host_re in Hre.
    repeat split; try tauto; try (symmetry; assumption); cbn in *; lia.
  - intros (s & -> & -> & [Hlo Hhi] & Hall).
    destruct (trim s) as [ | x t ] eqn:Ht; [ cbn in Hlo; lia | ].
    assert (Hlen : (255 <? length (x :: t))%nat = false) by (apply Nat.ltb_ge; lia).
    rewrite Hlen.
    assert (Hre : test host_re (x :: t) = true)
      by (apply test_host_re; split; [ discriminate | assumption ]).
    now rewrite Hre.
Qed.

(** C1. The host validator accepts exactly the inputs that, after trimming
    surrounding whitespace, are non-empty strings of at most 255 code units
    made only of characters in [A-Za-z0-9.\-:], and it returns the trimmed
    string.  Hence: a string whose trimmed form has a character outside the
    class is rejected (and so is any string with a non-whitespace character
    outside it, wherever it stands); a trimmed string that matches the
    allow-list and has length 1 to 255 is accepted and returned; and an
    input that is not a string is rejected. *)
Theorem validateHost_accepts_exactly :
  (forall input h,
      validateHost input = Some h <->
      exists s, input = Some (QStr s) /\ h = trim s /\
                1 <= length h <= 255 /\ forallb is_host_char h = true)
  /\ (forall s c, In c (trim s) -> is_host_char c = false ->
                  validateHost (Some (QStr s)) = None)
  /\ (forall s c, In c s -> is_host_char c = false -> is_space c = false ->
                  validateHost (Some (QStr s)) = None)
  /\ (forall s, 1 <= length (trim s) <= 255 ->
                forallb is_host_char (trim s) = true ->
                validateHost (Some (QStr s)) = Some (trim s))
  /\ (forall input, (forall s, input <> Some (QStr s)) ->
                    validateHost input = None).
Proof.
  assert (Hrej : forall s c, In c (trim s) -> is_host_char c = false ->
                             validateHost (Some (QStr s)) = None).
  { intros s c Hin Hc.
    destruct (validateHost (Some (QStr s))) as [ h | ] eqn:E; [ | reflexivity ].
    apply validateHost_iff in E. destruct E as (s' & [= <-] & -> & _ & Hall).
    rewrite forallb_forall in Hall. rewrite (Hall c Hin) in Hc. discriminate. }
  split; [ exact validateHost_iff | ].
  split; [ exact Hrej | ].
  split; [ | split ].
  - intros s c Hin Hc Hsp. apply (Hrej s c); [ | assumption ].
    now apply trim_keeps.
  - intros s Hlen Hall. apply validateHost_iff. now exists s.
  - intros input Hns.
    destruct (validateHost input) as [ h | ] eqn:E; [ | reflexivity ].
    apply validateHost_iff in E. destruct E as (s & Hs & _).
    now elim (Hns s).
Qed.

Lemma validateHost_accepts_exactly_witness :
  validateHost (Some (QStr (lit "  example.com ")))
  = Some (trim (lit "  example.com "))
  /\ validateHost (Some (QStr (lit "a;b"))) = None
  /\ validateHost (Some (QArr [QStr (lit "a")])) = None.
Proof.
  destruct validateHost_accepts_exactly as (_ & Hrej & _ & Hacc & Hnot).
  split; [ | split ].
  - apply Hacc; [ vm_compute; lia | reflexivity ].
  - apply (Hrej _ 59%N); [ vm_compute; tauto | reflexivity ].
  - apply Hnot. intros s. discriminate.
Defined.

(** C9. The validator is idempotent on what it accepts: an accepted host
    passes validation again and comes back unchanged. *)
Theorem validateHost_idempotent :
  forall input h,
    validateHost input = Some h ->
    validateHost (Some (QStr h)) = Some h.
Proof.
  intros input h H. apply validateHost_iff in H.
  destruct H as (s & _ & _ & Hlen & Hall).
  assert (Hid : trim h = h).
  { apply trim_id. intros c Hc. apply host_char_not_space.
    rewrite forallb_forall in Hall. now apply Hall. }
  apply validateHost_iff. exists h. rewrite Hid. auto.
Qed.

Lemma validateHost_idempotent_witness :
  validateHost (Some (QStr (lit "example.com"))) = Some (lit "example.com").
Proof.
  apply (validateHost_idempotent (Some (QStr (lit " example.com ")))).
  reflexivity.
Defined.

Section TrimFacts.

Lemma trimStart_spaces (l s : jsstring) :
  forallb is_space l = true -> trimStart (l ++ s) = trimStart s.
Proof.
  induction l as [ | x l IH ]; intros H; [ reflexivity | ].
  cbn in H. apply andb_true_iff in H. destruct H as [Hx H].
  cbn. rewrite Hx. now apply IH.
Qed.

Lemma forallb_rev_eq {A} (p : A -> bool) (l : list A) :
  forallb p (rev l) = forallb p l.
Proof.
  induction l as [ | x l IH ]; [ reflexivity | ].
  cbn. rewrite forallb_app, IH. cbn. rewrite andb_true_r. apply andb_comm.
Qed.

Lemma trimEnd_spaces (s r : jsstring) :
  forallb is_space r = true -> trimEnd (s ++ r) = trimEnd s.
Proof.
  intros H. unfold trimEnd. rewrite rev_app_distr, trimStart_spaces;
    [ reflexivity | now rewrite forallb_rev_eq ].
Qed.

Lemma trim_spaces (l s r : jsstring) :
  forallb is_space l = true -> forallb is_space r = true ->
  trim (l ++ s ++ r) = trim s.
Proof.
  intros Hl Hr. unfold trim. rewrite (trimStart_spaces l _ Hl). clear l Hl.
  induction s as [ | x s IH ].
  - cbn [app]. rewrite <- (app_nil_r r) at 1.
    rewrite (trimStart_spaces r [] Hr). reflexivity.
  - cbn. destruct (is_space x); [ exact IH | ].
    apply (trimEnd_spaces (x :: s) r Hr).
Qed.

End TrimFacts.

(** X1. Whitespace around the host never changes the verdict: an input
    wrapped in any white space or line terminators is accepted or rejected
    as the input itself, and accepted with the same host. *)
Theorem validateHost_ignores_surrounding_space :
  forall l s r : jsstring,
    forallb is_space l = true -> forallb is_space r = true ->
    validateHost (Some (QStr (l ++ s ++ r))) = validateHost (Some (QStr s)).
Proof.
  intros l s r Hl Hr. unfold validateHost. now rewrite (trim_spaces l s r Hl Hr).
Qed.

Lemma validateHost_ignores_surrounding_space_witness :
  validateHost (Some (QStr ([9; 32] ++ lit "fe80::1" ++ [13; 10; 160]))%N)
  = validateHost (Some (QStr (lit "fe80::1"))).
Proof.
  apply validateHost_ignores_surrounding_space; reflexivity.
Defined.

(** ** The command runner *)

Section RunnerFacts.
Import Runner.

Lemma run_app (a b : list event) : run (a ++ b) = fold_left step b (run a).
Proof. unfold run. apply fold_left_app. Qed.

(** Data events only extend the two buffers. *)
Lemma data_steps (pre : list event) :
  forall st,
    forallb is_data pre = true ->
    fold_left step pre st =
    {| stdout := stdout st ++ stdout_of pre;
       stderr := stderr st ++ stderr_of pre;
       finished := finished st; timer := timer st; kills := kills st;
       resolved := resolved st |}.
Proof.
  induction pre as [ | e pre IH ]; intros st Hd.
  - destruct st. cbn. now rewrite !app_nil_r.
  - cbn [forallb] in Hd. apply andb_true_iff in Hd. destruct Hd as [He Hd].
    cbn [fold_left]. rewrite (IH _ Hd).
    destruct e; try discriminate; cbn; now rewrite <- ?app_assoc.
Qed.

Lemma run_data (pre : list event) :
  forallb is_data pre = true ->
  run pre =
  {| stdout := stdout_of pre; stderr := stderr_of pre; finished := false;
     timer := true; kills := 0; resolved := [] |}.
Proof. intros Hd. unfold run. now rewrite (data_steps pre init Hd). Qed.

(** Once finished with the timer disarmed, nothing resolves or kills again. *)
Lemma settled_stable (post : list event) :
  forall st,
    finished st = true -> timer st = false ->
    resolved (fold_left step post st) = resolved st
    /\ finished (fold_left step post st) = true
    /\ timer (fold_left step post st) = false
    /\ kills (fold_left step post st) = kills st.
Proof.
  induction post as [ | e post IH ]; intros st Hf Ht; [ cbn; auto | ].
  cbn [fold_left].
  assert (Hs : resolved (step st e) = resolved st
               /\ finished (step st e) = true
               /\ timer (step st e) = false
               /\ kills (step st e) = kills st).
  { destruct e; cbn; unfold on_error, on_close; rewrite ?Hf, ?Ht; cbn; auto. }
  destruct Hs as (Hr & Hf' & Ht' & Hk).
  destruct (IH _ Hf' Ht') as (? & ? & ? & ?).
  repeat split; congruence.
Qed.

Lemma step_pending_or_settled (st : state) (e : event) :
  pending_or_settled st -> pending_or_settled (step st e).
Proof.
  intros [ (Hf & Ht & Hr) | (Hf & Ht & Hr) ];
    destruct e; cbn; unfold on_error, on_close, on_timeout;
    rewrite ?Hf, ?Ht, ?Hr; cbn; unfold pending_or_settled; cbn; auto.
Qed.

Lemma run_pending_or_settled (trace : list event) :
  forall st, pending_or_settled st ->
             pending_or_settled (fold_left step trace st).
Proof.
  induction trace as [ | e trace IH ]; intros st H; [ exact H | ].
  cbn [fold_left]. apply IH. now apply step_pending_or_settled.
Qed.

(** The first event that is not data settles the run. *)
Lemma first_completion (pre : list event) (e : event) :
  forallb is_data pre = true -> is_data e = false ->
  finished (run (pre ++ [e])) = true
  /\ timer (run (pre ++ [e])) = false
  /\ length (resolved (run (pre ++ [e]))) = 1.
Proof.
  intros Hd He. rewrite run_app, (run_data pre Hd).
  destruct e; try discriminate; cbn; auto.
Qed.

Lemma after_completion (pre post : list event) (e : event) :
  forallb is_data pre = true -> is_data e = false ->
  resolved (run (pre ++ e :: post)) = resolved (run (pre ++ [e]))
  /\ finished (run (pre ++ e :: post)) = true
  /\ timer (run (pre ++ e :: post)) = false
  /\ kills (run (pre ++ e :: post)) = kills (run (pre ++ [e])).
Proof.
  intros Hd He.
  destruct (first_completion pre e Hd He) as (Hf & Ht & _).
  replace (pre ++ e :: post) with ((pre ++ [e]) ++ post)
    by (now rewrite <- app_assoc).
  rewrite (run_app (pre ++ [e]) post).
  now apply settled_stable.
Qed.

End RunnerFacts.

(** C2. The command runner resolves exactly once per invocation.  No run
    calls [resolve] more than once; while only data has arrived the promise
    is pending; the first of timeout, spawn error and process exit calls
    [resolve] once, and whatever is delivered afterwards changes neither the
    resolution nor the number of kills: the other paths are disarmed (the
    timer is no longer scheduled and the [finished] flag is set). *)
Theorem runCommand_resolves_exactly_once :
  (forall trace, length (Runner.resolved (Runner.run trace)) <= 1)
  /\ (forall pre e post,
        forallb Runner.is_data pre = true -> Runner.is_data e = false ->
        Runner.runCommand pre = None
        /\ length (Runner.resolved (Runner.run (pre ++ [e]))) = 1
        /\ Runner.resolved (Runner.run (pre ++ e :: post))
           = Runner.resolved (Runner.run (pre ++ [e]))
        /\ Runner.runCommand (pre ++ e :: post) = Runner.runCommand (pre ++ [e])
        /\ Runner.finished (Runner.run (pre ++ e :: post)) = true
        /\ Runner.timer (Runner.run (pre ++ e :: post)) = false
        /\ Runner.kills (Runner.run (pre ++ e :: post))
           = Runner.kills (Runner.run (pre ++ [e]))).
Proof.
  split.
  - intros trace.
    assert (H : pending_or_settled (Runner.run trace)).
    { apply run_pending_or_settled. left. cbn. auto. }
    destruct H as [ (_ & _ & ->) | (_ & _ & ->) ]; cbn; lia.
  - intros pre e post Hd He.
    destruct (first_completion pre e Hd He) as (_ & _ & Hone).
    destruct (after_completion pre post e Hd He) as (Hr & Hf & Ht & Hk).
    unfold Runner.runCommand. rewrite Hr, (run_data pre Hd). cbn. auto 10.
Qed.

Lemma runCommand_resolves_exactly_once_witness :
  let pre := [Runner.StdoutData (lit "a"); Runner.StderrData (lit "b")] in
  let post := [Runner.ChildClose (Some 0%Z); Runner.ChildError (lit "x")] in
  Runner.resolved (Runner.run (pre ++ Runner.TimerFired :: post))
  = Runner.resolved (Runner.run (pre ++ [Runner.TimerFired])).
Proof.
  intros pre post.
  destruct runCommand_resolves_exactly_once as [_ H].
  apply (H pre Runner.TimerFired post); reflexivity.
Defined.

(** C3. The shape of the result.  When the timer fires before the process
    has finished, the result has [timedOut = true], a null exit code and the
    accumulated stderr followed by the timeout marker, and the child is
    killed once; when the process fails to spawn, it has a null exit code,
    [timedOut = false] and the error text as stderr; on exit it carries the
    exit code of the process with [timedOut = false]. *)
Theorem runCommand_result_shapes :
  forall pre post,
    forallb Runner.is_data pre = true ->
    (Runner.runCommand (pre ++ Runner.TimerFired :: post)
     = Some {| CommandResult.code := None;
               CommandResult.stdout := Runner.stdout_of pre;
               CommandResult.stderr :=
                 Runner.stderr_of pre ++ 10%N :: lit "[Timed out]";
               CommandResult.timedOut := true |}
     /\ Runner.kills (Runner.run (pre ++ Runner.TimerFired :: post)) = 1)
    /\ (forall err,
          Runner.runCommand (pre ++ Runner.ChildError err :: post)
          = Some {| CommandResult.code := None;
                    CommandResult.stdout := Runner.stdout_of pre;
                    CommandResult.stderr := err;
                    CommandResult.timedOut := false |})
    /\ (forall code,
          Runner.runCommand (pre ++ Runner.ChildClose code :: post)
          = Some {| CommandResult.code := code;
                    CommandResult.stdout := Runner.stdout_of pre;
                    CommandResult.stderr := Runner.stderr_of pre;
                    CommandResult.timedOut := false |}).
Proof.
  intros pre post Hd.
  assert (H : forall e, Runner.is_data e = false ->
            Runner.resolved (Runner.run (pre ++ e :: post))
            = Runner.resolved (Runner.step (Runner.run pre) e)
            /\ Runner.kills (Runner.run (pre ++ e :: post))
               = Runner.kills (Runner.step (Runner.run pre) e)).
  { intros e He.
    destruct (after_completion pre post e Hd He) as (Hr & _ & _ & Hk).
    rewrite Hr, Hk, run_app. cbn. auto. }
  unfold Runner.runCommand.
  repeat split; intros;
    match goal with
    | |- context [ Runner.run (pre ++ ?e :: post) ] =>
        destruct (H e eq_refl) as [Hr Hk]; rewrite ?Hr, ?Hk
    end;
    rewrite (run_data pre Hd); reflexivity.
Qed.

Lemma runCommand_result_shapes_witness :
  Runner.runCommand
    [Runner.StderrData (lit "ping: "); Runner.StdoutData (lit "PING");
     Runner.StderrData (lit "busy"); Runner.TimerFired;
     Runner.ChildClose None]
  = Some {| CommandResult.code := None;
            CommandResult.stdout := lit "PING";
            CommandResult.stderr := lit "ping: busy" ++ 10%N :: lit "[Timed out]";
            CommandResult.timedOut := true |}.
Proof.
  apply (runCommand_result_shapes
           [Runner.StderrData (lit "ping: "); Runner.StdoutData (lit "PING");
            Runner.StderrData (lit "busy")]
           [Runner.ChildClose None]).
  reflexivity.
Defined.

Section SettlingFacts.
Import Runner.

Lemma data_prefix_is_data (trace : list event) :
  forallb is_data (data_prefix trace) = true.
Proof.
  induction trace as [ | e trace IH ]; [ reflexivity | ].
  cbn. destruct (is_data e) eqn:He; [ cbn; now rewrite He | reflexivity ].
Qed.

Lemma completion_none (trace : list event) :
  completion trace = None <-> forallb is_data trace = true.
Proof.
  unfold completion. induction trace as [ | e trace IH ]; cbn.
  - split; reflexivity.
  - destruct (is_data e); cbn; [ exact IH | split; discriminate ].
Qed.

Lemma completion_some (trace : list event) (e : event) :
  completion trace = Some e <->
  is_data e = false /\ exists post, trace = data_prefix trace ++ e :: post.
Proof.
  unfold completion. induction trace as [ | x trace IH ]; cbn.
  - split; [ discriminate | ]. intros (_ & post & H). discriminate.
  - destruct (is_data x) eqn:Hx; cbn.
    + rewrite IH. split; intros (He & post & Hp); (split; [ exact He | ]);
        exists post; [ now f_equal | now injection Hp ].
    + split.
      * intros [= <-]. split; [ exact Hx | now exists trace ].
      * intros (_ & post & [= -> _]). reflexivity.
Qed.

Lemma runCommand_of_completion (trace : list event) :
  runCommand trace =
  match completion trace with
  | None => None
  | Some e => runCommand (data_prefix trace ++ [e])
  end.
Proof.
  destruct (completion trace) as [ e | ] eqn:Hc.
  - apply completion_some in Hc. destruct Hc as (He & post & Hp).
    rewrite Hp at 1. unfold runCommand.
    now destruct (after_completion (data_prefix trace) post e
                    (data_prefix_is_data trace) He) as (-> & _).
  - apply completion_none in Hc. unfold runCommand. now rewrite (run_data _ Hc).
Qed.

Lemma kills_of_completion (trace : list event) :
  kills (run trace) =
  match completion trace with
  | Some TimerFired => 1
  | _ => 0
  end.
Proof.
  destruct (completion trace) as [ e | ] eqn:Hc.
  - apply completion_some in Hc. destruct Hc as (He & post & Hp).
    rewrite Hp at 1.
    destruct (after_completion (data_prefix trace) post e
                (data_prefix_is_data trace) He) as (_ & _ & _ & ->).
    rewrite run_app, (run_data _ (data_prefix_is_data trace)).
    destruct e; try discriminate; reflexivity.
  - apply completion_none in Hc. now rewrite (run_data _ Hc).
Qed.

Lemma result_of_completion (trace : list event) (e : event) :
  completion trace = Some e ->
  runCommand trace =
  Some match e with
       | TimerFired =>
           {| CommandResult.code := None;
              CommandResult.stdout := stdout_of (data_prefix trace);
              CommandResult.stderr :=
                stderr_of (data_prefix trace) ++ timed_out_marker;
              CommandResult.timedOut := true |}
       | ChildError err =>
           {| CommandResult.code := None;
              CommandResult.stdout := stdout_of (data_prefix trace);
              CommandResult.stderr := err;
              CommandResult.timedOut := false |}
       | ChildClose code =>
           {| CommandResult.code := code;
              CommandResult.stdout := stdout_of (data_prefix trace);
              CommandResult.stderr := stderr_of (data_prefix trace);
              CommandResult.timedOut := false |}
       | _ =>
           {| CommandResult.code := None;
              CommandResult.stdout := []; CommandResult.stderr := [];
              CommandResult.timedOut := false |}
       end.
Proof.
  intros Hc. rewrite runCommand_of_completion, Hc.
  apply completion_some in Hc. destruct Hc as (He & _).
  unfold runCommand.
  rewrite run_app, (run_data _ (data_prefix_is_data trace)).
  destruct e; try discriminate; reflexivity.
Qed.

End SettlingFacts.

(** X2. The promise of runCommand is pending exactly while every delivered
    event is output data: the first timeout, spawn error or exit settles
    it, and nothing else does. *)
Theorem runCommand_pending_iff_only_data :
  forall trace,
    Runner.runCommand trace = None <-> forallb Runner.is_data trace = true.
Proof.
  intros trace. rewrite <- completion_none.
  destruct (completion trace) as [ e | ] eqn:Hc.
  - rewrite (result_of_completion trace e Hc). split; discriminate.
  - rewrite runCommand_of_completion, Hc. split; reflexivity.
Qed.

(** X3. The child is killed only by the timeout: over every trace the number
    of kills is one when the promise settled with timedOut, and zero when it
    settled otherwise or is still pending; a result with timedOut has a null
    exit code and a stderr that ends with the timeout marker. *)
Theorem runCommand_kills_iff_timed_out :
  forall trace,
    (Runner.runCommand trace = None -> Runner.kills (Runner.run trace) = 0)
    /\ (forall r,
          Runner.runCommand trace = Some r ->
          Runner.kills (Runner.run trace)
          = (if CommandResult.timedOut r then 1 else 0)
          /\ (CommandResult.timedOut r = true ->
              CommandResult.code r = None
              /\ exists err,
                   CommandResult.stderr r = err ++ Runner.timed_out_marker)).
Proof.
  intros trace. rewrite kills_of_completion.
  destruct (completion trace) as [ e | ] eqn:Hc.
  - rewrite (result_of_completion trace e Hc). split; [ discriminate | ].
    intros r [= <-].
    apply completion_some in Hc. destruct Hc as (He & _).
    destruct e; try discriminate; cbn; (split; [ reflexivity | ]);
      try discriminate.
    intros _. split; [ reflexivity | ]. now eexists.
  - split; [ reflexivity | ].
    rewrite runCommand_of_completion, Hc. discriminate.
Qed.

Lemma runCommand_kills_iff_timed_out_witness :
  Runner.kills
    (Runner.run [Runner.StdoutData (lit "PING"); Runner.TimerFired;
                 Runner.ChildClose None]) = 1
  /\ Runner.kills
       (Runner.run [Runner.ChildClose (Some 1%Z); Runner.TimerFired]) = 0.
Proof.
  split.
  - exact (proj1 (proj2 (runCommand_kills_iff_timed_out
                    [Runner.StdoutData (lit "PING"); Runner.TimerFired;
                     Runner.ChildClose None])
                  {| CommandResult.code := None;
                     CommandResult.stdout := lit "PING";
                     CommandResult.stderr := Runner.timed_out_marker;
                     CommandResult.timedOut := true |} eq_refl)).
  - exact (proj1 (proj2 (runCommand_kills_iff_timed_out
                    [Runner.ChildClose (Some 1%Z); Runner.TimerFired])
                  {| CommandResult.code := Some 1%Z;
                     CommandResult.stdout := [];
                     CommandResult.stderr := [];
                     CommandResult.timedOut := false |} eq_refl)).
Defined.

(** ** Decimal integers as Numbers *)

Section DecimalFacts.
Local Open Scope Z_scope.

Lemma digit_range (c : char) : is_digit c = true -> (48 <= c <= 57)%N.
Proof. unfold is_digit. intros H. apply andb_true_iff in H. rewrite !N.leb_le in H. exact H. Qed.

Lemma span_digits_all (s : jsstring) :
  forallb is_digit s = true -> span_digits s = (s, []).
Proof.
  induction s as [ | c s IH ]; intros H; [ reflexivity | ].
  cbn [forallb] in H. apply andb_true_iff in H. destruct H as [Hc Hs].
  cbn [span_digits]. now rewrite Hc, (IH Hs).
Qed.

Lemma digits_value_nonneg (s : jsstring) :
  forall acc, 0 <= acc ->
    0 <= fold_left (fun a d => 10 * a + decimal_digit d) s acc.
Proof.
  induction s as [ | c s IH ]; intros acc Hacc; [ exact Hacc | ].
  cbn [fold_left]. apply IH. unfold decimal_digit. lia.
Qed.

(** A string of decimal digits converts to the nearest Number to the
    integer it writes. *)
Lemma StringToNumber_digits (s : jsstring) :
  s <> [] -> forallb is_digit s = true ->
  StringToNumber s = of_Z (digits_value 10 decimal_digit s).
Proof.
  intros Hne Hd.
  assert (Hin : forall c, In c s -> (48 <= c <= 57)%N).
  { intros c Hc. apply digit_range. rewrite forallb_forall in Hd. now apply Hd. }
  assert (Htrim : trim s = s).
  { apply trim_id. intros c Hc. specialize (Hin c Hc).
    destruct (is_space c) eqn:E; [ | reflexivity ].
    apply space_range in E. lia. }
  unfold StringToNumber. rewrite Htrim.
  destruct s as [ | c s ]; [ congruence | ].
  assert (Hc : (48 <= c <= 57)%N) by (apply Hin; now left).
  assert (Hnd : parse_nondecimal (c :: s) = None).
  { unfold parse_nondecimal. destruct s as [ | p [ | x s ] ]; try reflexivity.
    assert (Hp : (48 <= p <= 57)%N) by (apply Hin; right; now left).
    destruct (c =? 48)%N; [ | reflexivity ].
    replace (p =? 120)%N with false by (symmetry; apply N.eqb_neq; lia).
    replace (p =? 88)%N with false by (symmetry; apply N.eqb_neq; lia).
    replace (p =? 111)%N with false by (symmetry; apply N.eqb_neq; lia).
    replace (p =? 79)%N with false by (symmetry; apply N.eqb_neq; lia).
    replace (p =? 98)%N with false by (symmetry; apply N.eqb_neq; lia).
    replace (p =? 66)%N with false by (symmetry; apply N.eqb_neq; lia).
    reflexivity. }
  rewrite Hnd. unfold split_sign.
  replace (c =? 45)%N with false by (symmetry; apply N.eqb_neq; lia).
  replace (c =? 43)%N with false by (symmetry; apply N.eqb_neq; lia).
  assert (Hinf : jsstring_eqb (c :: s) (lit "Infinity") = false).
  { change (lit "Infinity") with (73%N :: lit "nfinity").
    cbn [jsstring_eqb].
    replace (c =? 73)%N with false by (symmetry; apply N.eqb_neq; lia).
    reflexivity. }
  rewrite Hinf. unfold parse_unsigned_decimal.
  rewrite (span_digits_all _ Hd). cbn [app parse_exponent length Z.of_nat].
  rewrite app_nil_r. unfold decimal_value.
  pose proof (digits_value_nonneg (c :: s) 0 (Z.le_refl 0)) as Hv.
  fold (digits_value 10 decimal_digit (c :: s)) in Hv.
  destruct (digits_value 10 decimal_digit (c :: s)) as [ | p | p ];
    [ reflexivity | | lia ].
  cbn [Z.sub Z.opp Z.leb Z.compare cond_Zopp]. rewrite Z.pow_0_r, Z.mul_1_r.
  reflexivity.
Qed.

End DecimalFacts.

(** ** Captures of a match *)

Section CaptureFacts.
Variable ic : bool.

Lemma quant_consumes (a : cset) (k : cont) (c : captures) (g : bool)
      (s : jsstring) :
  forall mn mx i res,
    quant ic a k c g mn mx i s = Some res ->
    exists n, k (i + n) (skipn n s) c = Some res
              /\ repeats ic a mn (firstn n s).
Proof.
  induction s as [ | x s IH ]; intros mn mx i res H.
  - assert (Hstop : match mn with O => k i [] c | S _ => None end = Some res).
    { cbn in H. destruct mx as [ [ | mx ] | ], g;
        destruct (match mn with O => k i [] c | S _ => None end); congruence. }
    destruct mn; [ | discriminate ].
    exists 0. rewrite Nat.add_0_r. split; [ exact Hstop | split; auto ].
  - cbn [quant] in H.
    set (stop := match mn with O => k i (x :: s) c | S _ => None end) in *.
    set (more := match mx with
                 | Some O => None
                 | _ => if cset_mem ic a x
                        then quant ic a k c g (pred mn) (option_map pred mx) (S i) s
                        else None
                 end) in *.
    assert (Hcase : stop = Some res \/ more = Some res).
    { destruct g; destruct more, stop; auto; congruence. }
    destruct Hcase as [ Hs | Hm ].
    + unfold stop in Hs. destruct mn; [ | discriminate ].
      exists 0. rewrite Nat.add_0_r. split; [ exact Hs | split; auto ].
    + unfold more in Hm.
      assert (Hq : cset_mem ic a x = true
                   /\ quant ic a k c g (pred mn) (option_map pred mx) (S i) s
                      = Some res).
      { destruct mx as [ [ | mx ] | ]; try discriminate;
          destruct (cset_mem ic a x); try discriminate; auto. }
      destruct Hq as [Hx Hq]. destruct (IH _ _ _ _ Hq) as (n & Hk & Hall & Hlen).
      exists (S n). replace (i + S n) with (S i + n) by lia.
      split; [ exact Hk | split ].
      * cbn. now rewrite Hx.
      * cbn. lia.
Qed.

(** A successful match has called its continuation with captures that
    extend the given ones: every sure group is bound, and a binding is an
    old one or a repetition of [a]. *)
Lemma rmatch_captures (a : cset) (mn : nat) (r : regex) :
  groups_repeat a mn r ->
  forall i s c k res,
    rmatch ic r i s c k = Some res ->
    exists i1 s1 c1,
      k i1 s1 c1 = Some res
      /\ (forall n v, lookup n c1 = Some v ->
                      lookup n c = Some v \/ repeats ic a mn v)
      /\ (forall n, In n (sure_groups r) \/ lookup n c <> None ->
                    lookup n c1 <> None).
Proof.
  induction r as [ | a0 | r1 IH1 r2 IH2 | r1 IH1 r2 IH2 | a0 mn0 mx0 g0
                 | n0 r0 IH0 | | ]; intros Hg i s c k res H; cbn [rmatch] in H.
  - exists i, s, c. repeat split; auto. intros n [ [] | Hn ]; exact Hn.
  - destruct s as [ | x s ]; [ discriminate | ].
    destruct (cset_mem ic a0 x); [ | discriminate ].
    exists (S i), s, c. repeat split; auto. intros n [ [] | Hn ]; exact Hn.
  - destruct Hg as [Hg1 Hg2].
    destruct (IH1 Hg1 _ _ _ _ _ H) as (i1 & s1 & c1 & H1 & Hv1 & Hn1).
    destruct (IH2 Hg2 _ _ _ _ _ H1) as (i2 & s2 & c2 & H2 & Hv2 & Hn2).
    exists i2, s2, c2. split; [ exact H2 | split ].
    + intros n v Hl. destruct (Hv2 n v Hl) as [ Hl1 | Hr ]; auto.
    + intros n Hn. apply Hn2. cbn [sure_groups] in Hn.
      destruct Hn as [ Hn | Hn ]; [ apply in_app_or in Hn as [ Hn | Hn ] | ].
      * right. apply Hn1. now left.
      * now left.
      * right. apply Hn1. now right.
  - destruct Hg as [Hg1 Hg2].
    destruct (rmatch ic r1 i s c k) as [ m | ] eqn:E.
    + destruct (IH1 Hg1 _ _ _ _ _ E) as (i1 & s1 & c1 & H1 & Hv1 & Hn1).
      exists i1, s1, c1. split; [ congruence | split; [ exact Hv1 | ] ].
      intros n [ [] | Hn ]. apply Hn1. now right.
    + destruct (IH2 Hg2 _ _ _ _ _ H) as (i1 & s1 & c1 & H1 & Hv1 & Hn1).
      exists i1, s1, c1. split; [ exact H1 | split; [ exact Hv1 | ] ].
      intros n [ [] | Hn ]. apply Hn1. now right.
  - destruct (quant_consumes _ _ _ _ _ _ _ _ _ H) as (n & Hk & _).
    exists (i + n), (skipn n s), c. repeat split; auto.
    intros m [ [] | Hm ]; exact Hm.
  - destruct r0; try contradiction. destruct Hg as [-> ->].
    cbn [rmatch] in H.
    destruct (quant_consumes _ _ _ _ _ _ _ _ _ H) as (n & Hk & Hrep).
    exists (i + n), (skipn n s), ((n0, firstn (i + n - i) s) :: c).
    replace (i + n - i) with n in * by lia.
    split; [ exact Hk | split ].
    + intros m v Hl. cbn [lookup] in Hl.
      destruct (m =? n0)%nat; [ injection Hl as <-; now right | now left ].
    + intros m Hm. cbn [lookup]. destruct (m =? n0)%nat eqn:E; [ discriminate | ].
      destruct Hm as [ [ <- | [] ] | Hm ]; [ | exact Hm ].
      now rewrite Nat.eqb_refl in E.
  - destruct (i =? 0)%nat; [ | discriminate ].
    exists i, s, c. repeat split; auto. intros n [ [] | Hn ]; exact Hn.
  - destruct s; [ | discriminate ].
    exists i, [], c. repeat split; auto. intros n [ [] | Hn ]; exact Hn.
Qed.

End CaptureFacts.

(** The groups of a match found by [exec]. *)
Lemma exec_captures (re : RegExp) (a : cset) (mn : nat) (s : jsstring)
      (m : MatchResult) (n : nat) :
  groups_repeat a mn (source re) -> In n (sure_groups (source re)) ->
  exec re s = Some m ->
  exists v, group n m = Some v /\ repeats (ignoreCase re) a mn v.
Proof.
  intros Hg Hn. unfold exec. generalize 0 as i.
  induction s as [ | x s IH ]; intros i H; unfold exec_from in H; fold exec_from in H;
    destruct (match_at re i _) as [ [[i' s'] c] | ] eqn:E;
    try discriminate; try (now apply (IH (S i)));
    injection H as <-; unfold match_at in E;
    destruct (rmatch_captures _ a mn _ Hg _ _ _ _ _ E)
      as (i1 & s1 & c1 & Hacc & Hv & Hs);
    injection Hacc as -> -> ->; unfold group; cbn [groups];
    (destruct (lookup n c) as [ v | ] eqn:El;
      [ | exfalso; apply (Hs n); auto ]);
    exists v; (split; [ reflexivity | ]);
    destruct (Hv n v El) as [ Hold | Hr ]; [ discriminate | exact Hr | discriminate | exact Hr ].
Qed.

(** ** The ping output parser *)

Section ParserFacts.
Import Parser.

Lemma number_of_numeric (n : nat) (m : MatchResult) :
  numeric_or_null (number_of n m).
Proof. right. eexists. reflexivity. Qed.

(** [find_line] finds a line whenever some line satisfies [p]. *)
Lemma find_line_some (p : jsstring -> bool) (lines : list jsstring) (l : jsstring) :
  p [] = false -> In l lines -> p l = true ->
  exists l', find_line p lines = Some l' /\ In l' lines /\ p l' = true.
Proof.
  intros Hnil Hin Hp. unfold find_line.
  destruct (find p lines) as [ l' | ] eqn:E.
  - apply find_some in E. destruct E as [Hin' Hp'].
    destruct l' as [ | x l' ]; [ congruence | eauto ].
  - rewrite (find_none _ _ E l Hin) in Hp. discriminate.
Qed.

(** The times stage keeps [raw] and stores Numbers only. *)
Lemma win_time_times s lines r :
  PingResult.raw r = VStr s ->
  numeric_or_null (PingResult.min r) ->
  numeric_or_null (PingResult.avg r) ->
  numeric_or_null (PingResult.max r) ->
  PingResult.raw (win_time lines r) = VStr s
  /\ numeric_or_null (PingResult.min (win_time lines r))
  /\ numeric_or_null (PingResult.avg (win_time lines r))
  /\ numeric_or_null (PingResult.max (win_time lines r)).
Proof.
  intros Hraw Hmin Havg Hmax. unfold win_time, assign_if.
  destruct (find_line (test re_win_time) lines) as [ l | ];
    [ | repeat split; assumption ].
  destruct (exec (re_ms "Minimum") l), (exec (re_ms "Average") l),
    (exec (re_ms "Maximum") l); cbn;
    repeat split; auto using number_of_numeric.
Qed.

(** The times stage leaves the packet counts alone. *)
Lemma win_time_counts lines r :
  PingResult.transmitted (win_time lines r) = PingResult.transmitted r
  /\ PingResult.received (win_time lines r) = PingResult.received r
  /\ PingResult.loss (win_time lines r) = PingResult.loss r.
Proof.
  unfold win_time, assign_if.
  destruct (find_line (test re_win_time) lines) as [ l | ]; [ | auto ].
  destruct (exec (re_ms "Minimum") l), (exec (re_ms "Average") l),
    (exec (re_ms "Maximum") l); cbn; auto.
Qed.

End ParserFacts.

Section TypedFacts.
Import Parser.

(** [Number(m[n])] for a group [(\d+)] of a successful match. *)
Lemma number_of_digits (re : RegExp) (l : jsstring) (m : MatchResult) (n : nat) :
  groups_repeat CDigit 1 (source re) -> In n (sure_groups (source re)) ->
  exec re l = Some m ->
  exists z, (0 <= z)%Z /\ number_of n m = VNum (of_Z z).
Proof.
  intros Hg Hn He.
  destruct (exec_captures re CDigit 1 l m n Hg Hn He) as (v & Hv & Hall & Hlen).
  exists (digits_value 10 decimal_digit v). split.
  - apply (digits_value_nonneg v 0). lia.
  - unfold number_of. rewrite Hv. cbn [Number]. f_equal.
    apply StringToNumber_digits; [ | exact Hall ].
    destruct v; [ cbn in Hlen; lia | discriminate ].
Qed.

Lemma integer_numeric v : integer_or_null v -> numeric_or_null v.
Proof. intros [ -> | (n & _ & ->) ]; [ now left | right; eauto ]. Qed.

Lemma loss_numeric v : loss_or_null v -> numeric_or_null v.
Proof.
  intros [ H | (a & b & _ & _ & ->) ]; [ now apply integer_numeric | right; eauto ].
Qed.

Lemma unix_stats_groups :
  groups_repeat CDigit 1 (source re_unix_stats)
  /\ sure_groups (source re_unix_stats) = [1; 2; 3].
Proof. cbn. tauto. Qed.

Lemma chars_groups (a : cset) (mn : nat) (s : jsstring) :
  groups_repeat a mn (chars s) /\ sure_groups (chars s) = [].
Proof.
  induction s as [ | x [ | y s ] IH ]; cbn [chars groups_repeat sure_groups app];
    tauto.
Qed.

Lemma field_groups (name : string) :
  groups_repeat CDigit 1 (source (re_field name))
  /\ In 1 (sure_groups (source (re_field name))).
Proof.
  unfold re_field, re, str. cbn [source rseq groups_repeat sure_groups].
  destruct (chars_groups CDigit 1 (lit name)) as [Hg Hs]. rewrite Hs.
  cbn. tauto.
Qed.

(** The number a field regular expression extracts is an integer. *)
Lemma field_integer (name : string) (l : jsstring) (m : MatchResult) :
  exec (re_field name) l = Some m ->
  exists z, (0 <= z)%Z /\ Number (group 1 m) = of_Z z.
Proof.
  intros He. destruct (field_groups name) as [Hg Hn].
  destruct (number_of_digits _ _ _ _ Hg Hn He) as (z & Hz & Hv).
  exists z. unfold number_of in Hv. injection Hv as ->. auto.
Qed.

Lemma field_number (name : string) (l : jsstring) (m : MatchResult) :
  exec (re_field name) l = Some m ->
  integer_or_null (number_of 1 m).
Proof.
  intros He. right. destruct (field_groups name) as [Hg Hn].
  exact (number_of_digits _ _ _ _ Hg Hn He).
Qed.

Lemma unix_stats_typed s lines r : typed s r -> typed s (unix_stats lines r).
Proof.
  intros (Hraw & Ht & Hr & Hl & Hmin & Havg & Hmax). unfold unix_stats.
  destruct (find_line _ lines) as [ l | ]; [ | repeat split; assumption ].
  destruct (exec re_unix_stats l) as [ m | ] eqn:E; [ | repeat split; assumption ].
  destruct unix_stats_groups as [Hg Hs].
  assert (Hn : forall n, In n [1; 2; 3] -> integer_or_null (number_of n m)).
  { intros n Hn. right. apply (number_of_digits re_unix_stats l); auto. }
  unfold typed. cbn.
  repeat split; auto; try (apply Hn; cbn; tauto).
  left. apply Hn. cbn. tauto.
Qed.

Lemma unix_rtt_typed s lines r : typed s r -> typed s (unix_rtt lines r).
Proof.
  intros (Hraw & Ht & Hr & Hl & Hmin & Havg & Hmax). unfold unix_rtt.
  destruct (find_line _ lines) as [ l | ]; [ | repeat split; assumption ].
  destruct (exec re_rtt l) as [ m | ]; [ | repeat split; assumption ].
  unfold typed. cbn. repeat split; auto; right; eexists; reflexivity.
Qed.

Lemma assign_transmitted_typed s l name r :
  typed s r ->
  typed s (assign_if set_transmitted (exec (re_field name) l) r).
Proof.
  intros (Hraw & Ht & Hr & Hl & Hmin & Havg & Hmax). unfold assign_if.
  destruct (exec (re_field name) l) as [ m | ] eqn:E; [ | repeat split; assumption ].
  unfold typed. cbn. repeat split; auto. now apply (field_number name l).
Qed.

Lemma assign_received_typed s l name r :
  typed s r ->
  typed s (assign_if set_received (exec (re_field name) l) r).
Proof.
  intros (Hraw & Ht & Hr & Hl & Hmin & Havg & Hmax). unfold assign_if.
  destruct (exec (re_field name) l) as [ m | ] eqn:E; [ | repeat split; assumption ].
  unfold typed. cbn. repeat split; auto. now apply (field_number name l).
Qed.

Lemma win_stats_typed s lines r : typed s r -> typed s (win_stats lines r).
Proof.
  intros H. unfold win_stats.
  destruct (find_line _ lines) as [ l | ]; [ | exact H ].
  cbv zeta.
  pose proof (assign_received_typed s l "Received" _
                (assign_transmitted_typed s l "Sent" _ H)) as H2.
  set (r2 := assign_if set_received _ _) in *.
  destruct (exec (re_field "Lost") l) as [ m | ] eqn:E; [ | exact H2 ].
  destruct H2 as (Hraw & Ht & Hr & Hl & Hmin & Havg & Hmax).
  destruct Ht as [ Ht | (sent & Hsent & Ht) ]; rewrite Ht.
  - unfold typed. rewrite Ht. repeat split; auto. now left.
  - unfold typed. cbn. rewrite Ht. repeat split; auto.
    + right. eauto.
    + right. destruct (field_groups "Lost") as [Hg Hn].
      destruct (number_of_digits _ _ _ _ Hg Hn E) as (lost & Hlost & Hv).
      exists lost, sent. unfold number_of in Hv. injection Hv as ->. auto.
Qed.

Lemma win_time_typed s lines r : typed s r -> typed s (win_time lines r).
Proof.
  intros (Hraw & Ht & Hr & Hl & Hmin & Havg & Hmax).
  destruct (win_time_counts lines r) as (Et & Er & El).
  destruct (win_time_times s lines r Hraw Hmin Havg Hmax) as (? & ? & ? & ?).
  unfold typed. rewrite Et, Er, El. auto 10.
Qed.

End TypedFacts.

(** The parser is total: raw is the input and every statistic is null or
    a Number; transmitted and received are null or the Number of a
    non-negative integer read from decimal digits, and loss is such a Number
    or the Number the Windows rule derives from two of them. *)
Lemma parsePingResult_total :
  forall output : jsstring,
    exists r : PingResult.t,
      Parser.parsePingResult output = r
      /\ PingResult.raw r = VStr output
      /\ numeric_or_null (PingResult.transmitted r)
      /\ numeric_or_null (PingResult.received r)
      /\ numeric_or_null (PingResult.loss r)
      /\ numeric_or_null (PingResult.min r)
      /\ numeric_or_null (PingResult.avg r)
      /\ numeric_or_null (PingResult.max r)
      /\ integer_or_null (PingResult.transmitted r)
      /\ integer_or_null (PingResult.received r)
      /\ loss_or_null (PingResult.loss r).
Proof.
  intros output. eexists. split; [ reflexivity | ].
  assert (H : typed output (Parser.parsePingResult output)).
  { unfold Parser.parsePingResult.
    apply win_time_typed, win_stats_typed, unix_rtt_typed, unix_stats_typed.
    unfold typed; cbn. repeat split; try (now left). left. now left. }
  destruct H as (? & ? & ? & ? & ? & ? & ?).
  repeat split; auto using integer_numeric, loss_numeric.
Qed.

Section LineFacts.
Import Parser.

Lemma newline_at (i : nat) (s : jsstring) :
  match_at re_newline i s =
  match s with
  | x :: t =>
      if (x =? 10)%N then Some (S i, t, [])
      else if (x =? 13)%N then
        match t with
        | y :: t' => if (y =? 10)%N then Some (S (S i), t', []) else None
        | [] => None
        end
      else None
  | [] => None
  end.
Proof.
  unfold match_at, re_newline, re. cbn [source ignoreCase rseq rmatch opt].
  destruct s as [ | x t ]; [ reflexivity | ].
  cbn [quant cset_mem option_map pred].
  destruct (N.eqb_spec 13 x) as [ <- | H13 ].
  - change (13 =? 10)%N with false. change (13 =? 13)%N with true.
    change (10 =? 13)%N with false.
    destruct t as [ | y t' ]; [ reflexivity | ].
    cbn [quant]. rewrite (N.eqb_sym 10 y).
    destruct (y =? 10)%N; reflexivity.
  - rewrite (N.eqb_sym 10 x).
    replace (x =? 13)%N with false
      by (symmetry; apply N.eqb_neq; congruence).
    destruct (x =? 10)%N; reflexivity.
Qed.

Lemma newline_not_at (i : nat) (x : char) (s : jsstring) :
  ((x =? 10) || (x =? 13))%N = false -> match_at re_newline i (x :: s) = None.
Proof.
  intros H. apply orb_false_iff in H. destruct H as [H10 H13].
  now rewrite newline_at, H10, H13.
Qed.

Lemma split_loop_last (l : jsstring) :
  no_line_break l = true ->
  forall cur i, split_loop re_newline 0 cur i l = [rev cur ++ l].
Proof.
  induction l as [ | x l IH ]; intros H cur i.
  - cbn. now rewrite app_nil_r.
  - cbn in H. apply andb_true_iff in H. destruct H as [Hx H].
    apply negb_true_iff in Hx.
    cbn [split_loop]. rewrite (newline_not_at i x l Hx), (IH H).
    cbn. now rewrite <- app_assoc.
Qed.

Lemma split_loop_lf (l : jsstring) :
  no_line_break l = true ->
  forall cur i rest,
    split_loop re_newline 0 cur i (l ++ 10%N :: rest)
    = (rev cur ++ l) :: split_loop re_newline 0 [] (S (i + length l)) rest.
Proof.
  induction l as [ | x l IH ]; intros H cur i rest.
  - cbn [app split_loop length]. rewrite newline_at.
    change (10 =? 10)%N with true. cbv iota.
    replace (S i - i) with 1 by lia. rewrite app_nil_r, Nat.add_0_r.
    destruct cur; reflexivity.
  - cbn in H. apply andb_true_iff in H. destruct H as [Hx H].
    apply negb_true_iff in Hx.
    cbn [app split_loop]. rewrite (newline_not_at i x _ Hx), (IH H).
    cbn [rev length]. rewrite <- app_assoc, Nat.add_succ_r. reflexivity.
Qed.

Lemma split_loop_crlf (l : jsstring) :
  no_line_break l = true ->
  forall cur i rest,
    split_loop re_newline 0 cur i (l ++ 13%N :: 10%N :: rest)
    = (rev cur ++ l) :: split_loop re_newline 0 [] (S (S (i + length l))) rest.
Proof.
  induction l as [ | x l IH ]; intros H cur i rest.
  - cbn [app split_loop length]. rewrite newline_at.
    change (13 =? 10)%N with false. change (13 =? 13)%N with true.
    change (10 =? 10)%N with true. cbv iota.
    replace (S (S i) - i) with 2 by lia. rewrite app_nil_r, Nat.add_0_r.
    destruct cur; reflexivity.
  - cbn in H. apply andb_true_iff in H. destruct H as [Hx H].
    apply negb_true_iff in Hx.
    cbn [app split_loop]. rewrite (newline_not_at i x _ Hx), (IH H).
    cbn [rev length]. rewrite <- app_assoc, Nat.add_succ_r. reflexivity.
Qed.

Lemma split_as_loop (s : jsstring) :
  split re_newline s = split_loop re_newline 0 [] 0 s.
Proof. destruct s; reflexivity. Qed.

Lemma split_loop_join (sep : jsstring) (ls : list jsstring) :
  sep = [10%N] \/ sep = [13%N; 10%N] ->
  ls <> [] -> Forall (fun l => no_line_break l = true) ls ->
  forall i, split_loop re_newline 0 [] i (join sep ls) = ls.
Proof.
  intros Hsep Hne Hls. induction Hls as [ | l ls Hl Hls IH ];
    [ contradiction | ].
  intros i. destruct ls as [ | l2 ls ].
  - cbn [join]. now rewrite split_loop_last.
  - cbn [join]. destruct Hsep as [ -> | -> ]; cbn [app].
    + rewrite (split_loop_lf l Hl). cbn [rev app]. f_equal.
      apply IH. discriminate.
    + rewrite (split_loop_crlf l Hl). cbn [rev app]. f_equal.
      apply IH. discriminate.
Qed.

(** The stages of the parser read the statistics and never the raw text. *)
Lemma stages_statistics (lines : list jsstring) (r r' : PingResult.t) :
  statistics r = statistics r' ->
  statistics (win_time lines (win_stats lines
                (unix_rtt lines (unix_stats lines r))))
  = statistics (win_time lines (win_stats lines
                  (unix_rtt lines (unix_stats lines r')))).
Proof.
  intros H. destruct r, r'. unfold statistics in H. cbn in H.
  injection H as -> -> -> -> -> ->.
  unfold win_time, win_stats, unix_rtt, unix_stats, assign_if.
  repeat match goal with
         | |- context [ match ?x with _ => _ end ] =>
             match x with
             | find_line _ _ => destruct x
             | exec _ _ => destruct x
             end; cbn
         end;
  repeat match goal with
         | |- context [ match ?x with _ => _ end ] => destruct x; cbn
         end; reflexivity.
Qed.

End LineFacts.

Section SearchFacts.

Lemma rmatch_first (ic : bool) (a : char) (r : regex) :
  first_char r = Some a ->
  forall i x s c k,
    cset_mem ic (CChar a) x = false -> rmatch ic r i (x :: s) c k = None.
Proof.
  induction r as [ | a' | r1 IH1 r2 IH2 | r1 IH1 r2 IH2 | a' mn mx g
                   | n r1 IH1 | | ]; cbn [first_char]; intros Hf;
    try discriminate; intros i x s c k Hx; cbn [rmatch].
  - destruct a'; try discriminate. injection Hf as ->. now rewrite Hx.
  - now apply IH1.
  - now apply IH1.
Qed.

Lemma exec_from_skip (re : RegExp) (a : char) (p : jsstring) :
  first_char (source re) = Some a ->
  forallb (fun x => negb (cset_mem (ignoreCase re) (CChar a) x)) p = true ->
  forall s i, exec_from re i (p ++ s) = exec_from re (i + length p) s.
Proof.
  intros Hf. induction p as [ | x p IH ]; intros Hp s i.
  - cbn. now rewrite Nat.add_0_r.
  - cbn [forallb] in Hp. apply andb_true_iff in Hp. destruct Hp as [Hx Hp].
    apply negb_true_iff in Hx.
    cbn [app exec_from]. unfold match_at at 1.
    rewrite (rmatch_first _ a _ Hf _ _ _ _ _ Hx), (IH Hp).
    cbn [length]. now rewrite Nat.add_succ_r.
Qed.

Lemma exec_from_next (re : RegExp) (i : nat) (x : char) (s : jsstring) :
  match_at re i (x :: s) = None ->
  exec_from re i (x :: s) = exec_from re (S i) s.
Proof. intros H. cbn [exec_from]. now rewrite H. Qed.

Lemma exec_from_here (re : RegExp) (i e : nat) (s s' : jsstring) (c : captures) :
  match_at re i s = Some (e, s', c) ->
  exec_from re i s = Some {| index := i; whole := firstn (e - i) s; groups := c |}.
Proof. intros H. destruct s; cbn [exec_from]; now rewrite H. Qed.

(** A literal matches itself, whatever the case flag. *)
Lemma chars_match (ic : bool) (w : jsstring) :
  forall i s c k, rmatch ic (chars w) i (w ++ s) c k = k (i + length w) s c.
Proof.
  assert (Hself : forall x, cset_mem ic (CChar x) x = true).
  { intros x. cbn. destruct ic; apply N.eqb_refl. }
  induction w as [ | x w IH ]; intros i s c k.
  - cbn. now rewrite Nat.add_0_r.
  - destruct w as [ | y w ].
    + cbn [chars rmatch app]. rewrite Hself. cbn [length]. now rewrite Nat.add_1_r.
    + change (chars (x :: y :: w)) with (RSeq (RSet (CChar x)) (chars (y :: w))).
      cbn [rmatch app]. rewrite Hself.
      change (y :: w ++ s) with ((y :: w) ++ s). rewrite IH.
      f_equal. cbn [length]. lia.
Qed.

(** A greedy repetition takes a whole run when the match can go on after
    it. *)
Lemma quant_greedy_run (ic : bool) (a : cset) (k : cont) (c : captures)
      (run rest : jsstring) :
  forallb (cset_mem ic a) run = true ->
  match rest with [] => True | x :: _ => cset_mem ic a x = false end ->
  forall mn i res,
    mn <= length run ->
    k (i + length run) rest c = Some res ->
    quant ic a k c true mn None i (run ++ rest) = Some res.
Proof.
  intros Hrun Hrest. induction run as [ | x run IH ]; intros mn i res Hmn Hk.
  - cbn in Hmn. replace mn with 0 by lia. rewrite Nat.add_0_r in Hk.
    destruct rest as [ | y rest ]; cbn; [ exact Hk | ].
    now rewrite Hrest.
  - cbn [forallb] in Hrun. apply andb_true_iff in Hrun.
    destruct Hrun as [Hx Hrun].
    cbn [app quant option_map]. rewrite Hx.
    rewrite (IH Hrun (pred mn) (S i) res); [ reflexivity | cbn in Hmn; lia | ].
    cbn [length] in Hk. now rewrite Nat.add_succ_r in Hk.
Qed.

Lemma digit_not_space (x : char) : is_digit x = true -> is_space x = false.
Proof.
  intros H. apply digit_range in H. destruct (is_space x) eqn:E; [ | reflexivity ].
  apply space_range in E. lia.
Qed.

Lemma firstn_run {A} (run rest : list A) (i : nat) :
  firstn (i + length run - i) (run ++ rest) = run.
Proof.
  replace (i + length run - i) with (length run + 0) by lia.
  rewrite firstn_app_2. cbn. apply app_nil_r.
Qed.

(** [name\s*=\s*(\d+)] at the place where the text holds it. *)
Lemma field_at (name : string) (i : nat) (sp1 sp2 digits rest : jsstring) :
  forallb is_space sp1 = true -> forallb is_space sp2 = true ->
  is_decimal digits = true -> ends_number rest = true ->
  exists e,
    match_at (Parser.re_field name) i
             (lit name ++ sp1 ++ 61%N :: sp2 ++ digits ++ rest)
    = Some (e, rest, [(1, digits)]).
Proof.
  intros Hsp1 Hsp2 Hd Hrest.
  destruct digits as [ | d digits ]; [ discriminate | ].
  cbn [is_decimal] in Hd.
  assert (Hd0 : is_digit d = true)
    by (cbn [forallb] in Hd; now apply andb_true_iff in Hd).
  eexists. unfold match_at, Parser.re_field, Parser.re, str.
  cbn [source ignoreCase rseq rmatch]. rewrite chars_match.
  unfold star. apply quant_greedy_run;
    [ exact Hsp1 | reflexivity | apply Nat.le_0_l | ].
  unfold chr. change (code "=") with 61%N. cbn [rmatch cset_mem].
  change (canonicalize 61 =? canonicalize 61)%N with true. cbv iota.
  apply quant_greedy_run;
    [ exact Hsp2 | cbn [app cset_mem]; now apply digit_not_space
    | apply Nat.le_0_l | ].
  unfold plus.
  apply quant_greedy_run;
    [ exact Hd
    | destruct rest as [ | y rest ]; [ exact I | now apply negb_true_iff ]
    | cbn; lia | ].
  unfold accept. now rewrite firstn_run.
Qed.

Lemma below_letters (a x : char) :
  (x < 65)%N -> (65 <= canonicalize a)%N -> cset_mem true (CChar a) x = false.
Proof.
  intros Hx Ha. cbn [cset_mem]. apply N.eqb_neq.
  unfold canonicalize at 2.
  replace ((97 <=? x) && (x <=? 122))%N with false; [ lia | ].
  symmetry. apply andb_false_iff. left. apply N.leb_gt. lia.
Qed.

Lemma blanks_skipped (a : char) (p : jsstring) :
  (65 <= canonicalize a)%N -> forallb is_blank p = true ->
  forallb (fun x => negb (cset_mem true (CChar a) x)) p = true.
Proof.
  intros Ha Hp. apply forallb_forall. intros x Hx.
  rewrite forallb_forall in Hp. specialize (Hp x Hx).
  apply negb_true_iff, below_letters; [ | exact Ha ].
  unfold is_blank in Hp. apply orb_true_iff in Hp.
  destruct Hp as [ Hp | Hp ]; apply N.eqb_eq in Hp; lia.
Qed.

Lemma digits_skipped (a : char) (p : jsstring) :
  (65 <= canonicalize a)%N -> is_decimal p = true ->
  forallb (fun x => negb (cset_mem true (CChar a) x)) p = true.
Proof.
  intros Ha Hp. apply forallb_forall. intros x Hx.
  destruct p as [ | y p ]; [ discriminate | ]. cbn [is_decimal] in Hp.
  rewrite forallb_forall in Hp. specialize (Hp x Hx).
  apply negb_true_iff, below_letters; [ | exact Ha ].
  apply digit_range in Hp. lia.
Qed.

Lemma find_line_first (p : jsstring -> bool) (before after : list jsstring)
      (l : jsstring) :
  Forall (fun l' => p l' = false) before -> p l = true -> l <> [] ->
  Parser.find_line p (before ++ l :: after) = Some l.
Proof.
  intros Hb Hl Hne. unfold Parser.find_line.
  assert (Hf : find p (before ++ l :: after) = Some l).
  { induction Hb as [ | l' before Hl' Hb IH ]; cbn [app find].
    - now rewrite Hl.
    - now rewrite Hl'. }
  rewrite Hf. destruct l; [ congruence | reflexivity ].
Qed.

Lemma no_line_break_app (a b : jsstring) :
  no_line_break (a ++ b) = no_line_break a && no_line_break b.
Proof. apply forallb_app. Qed.

Lemma blank_no_line_break (p : jsstring) :
  forallb is_blank p = true -> no_line_break p = true.
Proof.
  intros Hp. apply forallb_forall. intros x Hx.
  rewrite forallb_forall in Hp. specialize (Hp x Hx).
  unfold is_blank in Hp. apply orb_true_iff in Hp.
  apply negb_true_iff, orb_false_iff.
  destruct Hp as [ Hp | Hp ]; apply N.eqb_eq in Hp; subst x; split; reflexivity.
Qed.

Lemma decimal_no_line_break (p : jsstring) :
  is_decimal p = true -> no_line_break p = true.
Proof.
  intros Hp. destruct p as [ | y p ]; [ discriminate | ]. cbn [is_decimal] in Hp.
  apply forallb_forall. intros x Hx.
  rewrite forallb_forall in Hp. specialize (Hp x Hx). apply digit_range in Hp.
  apply negb_true_iff, orb_false_iff. split; apply N.eqb_neq; lia.
Qed.

End SearchFacts.

Section WindowsLineFacts.
Variables indent sent received lost rest : jsstring.
Hypothesis indent_blank : forallb is_blank indent = true.
Hypothesis sent_decimal : is_decimal sent = true.
Hypothesis received_decimal : is_decimal received = true.
Hypothesis lost_decimal : is_decimal lost = true.
Hypothesis rest_ends : ends_number rest = true.

Lemma windows_line_found : test Parser.re_win_stats
       (windows_line indent sent received lost rest) = true.
Proof.
  unfold test, exec, windows_line.
  rewrite (exec_from_skip Parser.re_win_stats (code "P") indent eq_refl)
    by (apply blanks_skipped; [ vm_compute; discriminate | exact indent_blank ]).
  change (lit "Packets: Sent = ") with (lit "Packets: Sent =" ++ [32%N]).
  rewrite <- app_assoc.
  erewrite exec_from_here; [ reflexivity | ].
  unfold match_at, Parser.re_win_stats, Parser.re, str.
  cbn [source ignoreCase rseq]. rewrite chars_match. reflexivity.
Qed.

Lemma windows_line_sent :
  exists m, exec (Parser.re_field "Sent")
                 (windows_line indent sent received lost rest) = Some m
            /\ group 1 m = Some sent.
Proof.
  unfold exec, windows_line.
  replace (indent ++ lit "Packets: Sent = " ++ sent ++ lit ", Received = "
             ++ received ++ lit ", Lost = " ++ lost ++ rest)
    with ((indent ++ lit "Packet") ++ 115%N ::
          lit ": " ++ lit "Sent" ++ [32%N] ++ 61%N :: [32%N] ++ sent ++
          (lit ", Received = " ++ received ++ lit ", Lost = " ++ lost ++ rest))
    by (now rewrite <- app_assoc).
  rewrite (exec_from_skip (Parser.re_field "Sent") (code "S") _ eq_refl).
  2:{ rewrite forallb_app. apply andb_true_iff. split; [ | reflexivity ].
      apply blanks_skipped; [ vm_compute; discriminate | exact indent_blank ]. }
  rewrite exec_from_next by reflexivity.
  rewrite (exec_from_skip (Parser.re_field "Sent") (code "S") (lit ": ") eq_refl)
    by reflexivity.
  destruct (field_at "Sent" (S (0 + length (indent ++ lit "Packet"))
                             + length (lit ": "))
              [32%N] [32%N] sent
              (lit ", Received = " ++ received ++ lit ", Lost = " ++ lost ++ rest)
              eq_refl eq_refl sent_decimal eq_refl) as [e He].
  erewrite exec_from_here by exact He.
  eexists. split; reflexivity.
Qed.

Lemma windows_line_received :
  exists m, exec (Parser.re_field "Received")
                 (windows_line indent sent received lost rest) = Some m
            /\ group 1 m = Some received.
Proof.
  unfold exec, windows_line.
  replace (indent ++ lit "Packets: Sent = " ++ sent ++ lit ", Received = "
             ++ received ++ lit ", Lost = " ++ lost ++ rest)
    with ((indent ++ lit "Packets: Sent = " ++ sent ++ lit ", ") ++
          lit "Received" ++ [32%N] ++ 61%N :: [32%N] ++ received ++
          (lit ", Lost = " ++ lost ++ rest))
    by (now rewrite <- !app_assoc).
  rewrite (exec_from_skip (Parser.re_field "Received") (code "R") _ eq_refl).
  2:{ rewrite !forallb_app, !andb_true_iff. repeat split; try reflexivity.
      - apply blanks_skipped; [ vm_compute; discriminate | exact indent_blank ].
      - apply digits_skipped; [ vm_compute; discriminate | exact sent_decimal ]. }
  destruct (field_at "Received"
              (0 + length (indent ++ lit "Packets: Sent = " ++ sent ++ lit ", "))
              [32%N] [32%N] received (lit ", Lost = " ++ lost ++ rest)
              eq_refl eq_refl received_decimal eq_refl) as [e He].
  erewrite exec_from_here by exact He.
  eexists. split; reflexivity.
Qed.

Lemma windows_line_lost :
  exists m, exec (Parser.re_field "Lost")
                 (windows_line indent sent received lost rest) = Some m
            /\ group 1 m = Some lost.
Proof.
  unfold exec, windows_line.
  replace (indent ++ lit "Packets: Sent = " ++ sent ++ lit ", Received = "
             ++ received ++ lit ", Lost = " ++ lost ++ rest)
    with ((indent ++ lit "Packets: Sent = " ++ sent ++ lit ", Received = "
             ++ received ++ lit ", ") ++
          lit "Lost" ++ [32%N] ++ 61%N :: [32%N] ++ lost ++ rest)
    by (now rewrite <- !app_assoc).
  rewrite (exec_from_skip (Parser.re_field "Lost") (code "L") _ eq_refl).
  2:{ rewrite !forallb_app, !andb_true_iff. repeat split; try reflexivity.
      - apply blanks_skipped; [ vm_compute; discriminate | exact indent_blank ].
      - apply digits_skipped; [ vm_compute; discriminate | exact sent_decimal ].
      - apply digits_skipped; [ vm_compute; discriminate | exact received_decimal ]. }
  destruct (field_at "Lost"
              (0 + length (indent ++ lit "Packets: Sent = " ++ sent
                             ++ lit ", Received = " ++ received ++ lit ", "))
              [32%N] [32%N] lost rest
              eq_refl eq_refl lost_decimal rest_ends) as [e He].
  erewrite exec_from_here by exact He.
  eexists. split; reflexivity.
Qed.

Lemma windows_line_no_break :
  no_line_break rest = true ->
  no_line_break (windows_line indent sent received lost rest) = true.
Proof.
  intros Hr. unfold windows_line.
  rewrite !no_line_break_app, (blank_no_line_break _ indent_blank),
    (decimal_no_line_break _ sent_decimal),
    (decimal_no_line_break _ received_decimal),
    (decimal_no_line_break _ lost_decimal), Hr.
  reflexivity.
Qed.

End WindowsLineFacts.

Lemma Number_decimal (s : jsstring) :
  is_decimal s = true -> Number (Some s) = of_Z (decimal s).
Proof.
  intros H. destruct s as [ | c s ]; [ discriminate | ].
  apply StringToNumber_digits; [ discriminate | exact H ].
Qed.

Lemma windows_counts (lines before after : list jsstring)
      (indent sent received lost rest : jsstring) (r : PingResult.t) :
  lines = before ++ windows_line indent sent received lost rest :: after ->
  Forall (fun l => test Parser.re_win_stats l = false) before ->
  forallb is_blank indent = true ->
  is_decimal sent = true -> is_decimal received = true ->
  is_decimal lost = true -> ends_number rest = true ->
  let r' := Parser.win_stats lines r in
  PingResult.transmitted r' = VNum (of_Z (decimal sent))
  /\ PingResult.received r' = VNum (of_Z (decimal received))
  /\ PingResult.loss r'
     = VNum (Math_round (mul (div (of_Z (decimal lost)) (of_Z (decimal sent)))
                             (of_Z 100))).
Proof.
  intros -> Hb Hi Hs Hr Hl Hrest r'. subst r'.
  pose proof (windows_line_found indent sent received lost rest Hi) as Hfound.
  destruct (windows_line_sent indent sent received lost rest Hi Hs)
    as (ms & Hms & Hgs).
  destruct (windows_line_received indent sent received lost rest Hi Hs Hr)
    as (mr & Hmr & Hgr).
  destruct (windows_line_lost indent sent received lost rest Hi Hs Hr Hl Hrest)
    as (ml & Hml & Hgl).
  unfold Parser.win_stats.
  rewrite (find_line_first _ before after _ Hb Hfound).
  2:{ unfold windows_line. destruct indent; discriminate. }
  rewrite Hms, Hmr, Hml. unfold Parser.assign_if, Parser.number_of.
  rewrite Hgs, Hgr, Hgl, !Number_decimal by assumption.
  cbn. auto.
Qed.

(** C4. A statistic that is neither null nor of its type.  With Sent = 0
    the Windows rule divides by zero: on "Packets: Sent = 0, Received = 0,
    Lost = 0" the parser stores transmitted = 0 and loss = NaN, and with
    Lost = 1 it stores loss = +Infinity.  Neither is an integer in the
    sense of Number.isInteger, and neither is null. *)
Theorem parsePingResult_loss_not_an_integer :
  let nothing :=
    Parser.parsePingResult (lit "Packets: Sent = 0, Received = 0, Lost = 0") in
  let lost :=
    Parser.parsePingResult (lit "Packets: Sent = 0, Received = 0, Lost = 1") in
  PingResult.transmitted nothing = VNum (of_Z 0)
  /\ PingResult.loss nothing = VNum NaN
  /\ PingResult.loss lost = VNum (S754_infinity false)
  /\ isInteger NaN = false
  /\ isInteger (S754_infinity false) = false
  /\ isInteger (of_Z 0) = true.
Proof. vm_compute. repeat split; reflexivity. Qed.

(** C5. The Windows dialect.  Take any output, with LF or CRLF line ends,
    whose first line matching [Packets: Sent =] is the statistics line of the
    Windows ping, its three counts written in decimal digits; earlier lines
    do not match and later lines are arbitrary.  The parser stores Sent and
    Received as read and derives loss = Math.round(lost / transmitted * 100)
    in the arithmetic of Numbers.  On the Windows block of the specification
    it yields 4, 4, 0, 1, 2, 3.  On an output with "Sent = 9" in a line before
    the statistics line and a second statistics line after it, it reads 3
    and 2 and derives 33 from the first statistics line.  2 lost of 3 give
    67, 1 of 8 gives 13 (12.5 rounds up) and 4 of 4 give 100. *)
Theorem parsePingResult_windows_loss :
  (forall sep before after indent sent received lost rest,
      sep = [10%N] \/ sep = [13%N; 10%N] ->
      Forall (fun l => no_line_break l = true
                       /\ test Parser.re_win_stats l = false) before ->
      Forall (fun l => no_line_break l = true) after ->
      forallb is_blank indent = true ->
      is_decimal sent = true -> is_decimal received = true ->
      is_decimal lost = true ->
      ends_number rest = true -> no_line_break rest = true ->
      let output :=
        join sep (before ++ windows_line indent sent received lost rest
                         :: after) in
      let r := Parser.parsePingResult output in
      PingResult.transmitted r = VNum (of_Z (decimal sent))
      /\ PingResult.received r = VNum (of_Z (decimal received))
      /\ PingResult.loss r
         = VNum (Math_round (mul (div (of_Z (decimal lost))
                                      (of_Z (decimal sent)))
                                 (of_Z 100))))
  /\ (let r := Parser.parsePingResult windows_block in
      PingResult.transmitted r = VNum (of_Z 4)
      /\ PingResult.received r = VNum (of_Z 4)
      /\ PingResult.loss r = VNum (of_Z 0)
      /\ PingResult.min r = VNum (of_Z 1)
      /\ PingResult.avg r = VNum (of_Z 2)
      /\ PingResult.max r = VNum (of_Z 3))
  /\ (let r := Parser.parsePingResult
                 (lit "Ping statistics for 10.0.0.1 (Sent = 9, Lost = 9):"
                  ++ 13%N :: 10%N ::
                  lit "    Packets: Sent = 3, Received = 2, Lost = 1 (33% loss),"
                  ++ 13%N :: 10%N ::
                  lit "    Packets: Sent = 7, Received = 7, Lost = 0 (0% loss),") in
      PingResult.transmitted r = VNum (of_Z 3)
      /\ PingResult.received r = VNum (of_Z 2)
      /\ PingResult.loss r = VNum (of_Z 33))
  /\ PingResult.loss
       (Parser.parsePingResult (lit "Packets: Sent = 3, Received = 1, Lost = 2"))
     = VNum (of_Z 67)
  /\ PingResult.loss
       (Parser.parsePingResult (lit "Packets: Sent = 8, Received = 7, Lost = 1"))
     = VNum (of_Z 13)
  /\ PingResult.loss
       (Parser.parsePingResult (lit "Packets: Sent = 4, Received = 0, Lost = 4"))
     = VNum (of_Z 100).
Proof.
  split; [ | split; [ | split; [ | split; [ | split ] ] ] ].
  - intros sep before after indent sent received lost rest Hsep Hb Ha Hi Hs Hr
           Hl Hrest Hnb output r. subst r.
    set (line := windows_line indent sent received lost rest) in *.
    assert (Hlines : split Parser.re_newline output = before ++ line :: after).
    { unfold output. rewrite split_as_loop. apply split_loop_join.
      - exact Hsep.
      - destruct before; discriminate.
      - apply Forall_app. split.
        + eapply Forall_impl; [ | exact Hb ]. now intros l [H _].
        + apply Forall_cons; [ | exact Ha ].
          now apply windows_line_no_break. }
    unfold Parser.parsePingResult. rewrite Hlines.
    match goal with
    | |- context [ Parser.win_time ?ls (Parser.win_stats ?ls' ?r0) ] =>
        destruct (win_time_counts ls (Parser.win_stats ls' r0)) as (-> & -> & ->);
        generalize r0
    end.
    intros r0.
    apply (windows_counts _ before after indent sent received lost rest);
      try assumption; [ reflexivity | ].
    eapply Forall_impl; [ | exact Hb ]. now intros l [_ H].
  - vm_compute. repeat split; reflexivity.
  - vm_compute. repeat split; reflexivity.
  - vm_compute. reflexivity.
  - vm_compute. reflexivity.
  - vm_compute. reflexivity.
Qed.

Lemma parsePingResult_windows_loss_witness :
  let output :=
    join [13%N; 10%N]
         ([lit "Pinging 10.0.0.1 (Sent = 9):"]
          ++ windows_line (lit "    ") (lit "200") (lit "171") (lit "29")
                          (lit " (14% loss),")
          :: [lit "Approximate round trip times in milli-seconds:"]) in
  let r := Parser.parsePingResult output in
  PingResult.transmitted r = VNum (of_Z (decimal (lit "200")))
  /\ PingResult.received r = VNum (of_Z (decimal (lit "171")))
  /\ PingResult.loss r
     = VNum (Math_round (mul (div (of_Z (decimal (lit "29")))
                                  (of_Z (decimal (lit "200"))))
                             (of_Z 100))).
Proof.
  apply (proj1 parsePingResult_windows_loss); try reflexivity.
  - right. reflexivity.
  - apply Forall_cons; [ split; reflexivity | apply Forall_nil ].
  - apply Forall_cons; [ reflexivity | apply Forall_nil ].
Defined.

(** With no packet sent the derived loss is the Number NaN (0 / 0), which
    [res.json] later serializes as [null]. *)
Example parsePingResult_nothing_sent :
  PingResult.loss
    (Parser.parsePingResult (lit "Packets: Sent = 0, Received = 0, Lost = 0"))
  = VNum NaN.
Proof. reflexivity. Qed.

(** The division and the multiplication are those of binary64:
    29 / 200 * 100 is 14.499999999999998 and rounds to 14. *)
Example parsePingResult_binary64 :
  PingResult.loss
    (Parser.parsePingResult (lit "Packets: Sent = 200, Received = 171, Lost = 29"))
  = VNum (of_Z 14).
Proof. reflexivity. Qed.

(** The Unix dialect on the lines of the specification. *)
Example parsePingResult_unix :
  let r := Parser.parsePingResult
             (lit "4 packets transmitted, 4 received, 0% packet loss" ++ 10%N ::
              lit "rtt min/avg/max/mdev = 1.000/2.000/3.000/0.500 ms") in
  PingResult.transmitted r = VNum (of_Z 4)
  /\ PingResult.received r = VNum (of_Z 4)
  /\ PingResult.loss r = VNum (of_Z 0)
  /\ PingResult.min r = VNum (of_Z 1)
  /\ PingResult.avg r = VNum (of_Z 2)
  /\ PingResult.max r = VNum (of_Z 3).
Proof. vm_compute. repeat split; reflexivity. Qed.

(** X4. The parser reads its input line by line under both line-ending
    conventions.  Joining lines that hold no line break with LF or with
    CRLF and splitting the text as parsePingResult does gives the lines
    back, so apart from the raw text the result is the same for the two
    texts. *)
Theorem parsePingResult_line_endings :
  forall ls : list jsstring,
    ls <> [] -> Forall (fun l => no_line_break l = true) ls ->
    split Parser.re_newline (join [10%N] ls) = ls
    /\ split Parser.re_newline (join [13%N; 10%N] ls) = ls
    /\ statistics (Parser.parsePingResult (join [13%N; 10%N] ls))
       = statistics (Parser.parsePingResult (join [10%N] ls)).
Proof.
  intros ls Hne Hls.
  assert (Hlf : split Parser.re_newline (join [10%N] ls) = ls).
  { rewrite split_as_loop. apply split_loop_join; auto. }
  assert (Hcrlf : split Parser.re_newline (join [13%N; 10%N] ls) = ls).
  { rewrite split_as_loop. apply split_loop_join; auto. }
  repeat split; [ exact Hlf | exact Hcrlf | ].
  unfold Parser.parsePingResult. rewrite Hlf, Hcrlf.
  apply stages_statistics. reflexivity.
Qed.

Lemma parsePingResult_line_endings_witness :
  let ls := [lit "Ping statistics for 10.0.0.1:";
             lit "    Packets: Sent = 4, Received = 3, Lost = 1 (25% loss),";
             []] in
  split Parser.re_newline (join [10%N] ls) = ls
  /\ split Parser.re_newline (join [13%N; 10%N] ls) = ls
  /\ statistics (Parser.parsePingResult (join [13%N; 10%N] ls))
     = statistics (Parser.parsePingResult (join [10%N] ls)).
Proof.
  intros ls. apply parsePingResult_line_endings.
  - discriminate.
  - repeat (apply Forall_cons; [ reflexivity | ]). apply Forall_nil.
Defined.

Section NeedsFacts.
Variable ic : bool.
Variable a : cset.

Lemma lacks_tail (x : char) (s : jsstring) : lacks ic a (x :: s) -> lacks ic a s.
Proof. intros H y Hy. apply H. now right. Qed.

Lemma quant_fails (k : cont) (c : captures) (g : bool) (a' : cset)
      (s : jsstring) :
  (forall i' s' c', lacks ic a s' -> k i' s' c' = None) ->
  lacks ic a s ->
  forall mn mx i, quant ic a' k c g mn mx i s = None.
Proof.
  intros Hk. induction s as [ | x s IH ]; intros Hs mn mx i.
  - cbn. rewrite (Hk i [] c Hs). destruct g, mn, mx as [ [ | ? ] | ]; reflexivity.
  - cbn. rewrite (Hk i (x :: s) c Hs), !(IH (lacks_tail x s Hs)).
    destruct g, mn, mx as [ [ | ? ] | ], (cset_mem ic a' x); reflexivity.
Qed.

(** A continuation that fails on every string without [a] makes the match
    fail on such a string. *)
Lemma rmatch_fails (r : regex) :
  forall i s c k,
    (forall i' s' c', lacks ic a s' -> k i' s' c' = None) ->
    lacks ic a s ->
    rmatch ic r i s c k = None.
Proof.
  induction r as [ | a' | r1 IH1 r2 IH2 | r1 IH1 r2 IH2 | a' mn mx g
                   | n r1 IH1 | | ]; intros i s c k Hk Hs; cbn [rmatch].
  - now apply Hk.
  - destruct s as [ | x s ]; [ reflexivity | ].
    destruct (cset_mem ic a' x); [ | reflexivity ].
    apply Hk. now apply lacks_tail in Hs.
  - apply IH1; [ | exact Hs ]. intros i' s' c' Hs'. now apply IH2.
  - rewrite IH1 by assumption. now apply IH2.
  - now apply quant_fails.
  - apply IH1; [ | exact Hs ]. intros i' s' c' Hs'. now apply Hk.
  - destruct (i =? 0)%nat; [ now apply Hk | reflexivity ].
  - destruct s; [ now apply Hk | reflexivity ].
Qed.

Lemma rmatch_needs (r : regex) :
  needs a r ->
  forall i s c k, lacks ic a s -> rmatch ic r i s c k = None.
Proof.
  induction r as [ | a' | r1 IH1 r2 IH2 | r1 IH1 r2 IH2 | a' mn mx g
                   | n r1 IH1 | | ]; cbn [needs]; intros Hn i s c k Hs;
    try contradiction; cbn [rmatch].
  - subst a'. destruct s as [ | x s ]; [ reflexivity | ].
    now rewrite (Hs x (or_introl eq_refl)).
  - destruct Hn as [ Hn | Hn ].
    + now apply IH1.
    + apply rmatch_fails; [ | exact Hs ]. intros i' s' c' Hs'. now apply IH2.
  - destruct Hn as [ Hn1 Hn2 ]. rewrite IH1 by assumption. now apply IH2.
  - destruct mn as [ | mn ]; [ contradiction | ]. subst a'.
    destruct s as [ | x s ]; cbn.
    + destruct g, mx as [ [ | ? ] | ]; reflexivity.
    + rewrite (Hs x (or_introl eq_refl)).
      destruct g, mx as [ [ | ? ] | ]; reflexivity.
  - now apply IH1.
Qed.

End NeedsFacts.

Lemma exec_needs (re : RegExp) (a : cset) (s : jsstring) :
  needs a (source re) -> lacks (ignoreCase re) a s -> exec re s = None.
Proof.
  intros Hn. unfold exec. generalize 0.
  induction s as [ | x s IH ]; intros i Hs; cbn [exec_from]; unfold match_at;
    rewrite (rmatch_needs _ a _ Hn) by exact Hs; [ reflexivity | ].
  apply IH. intros y Hy. apply Hs. now right.
Qed.

Section PieceFacts.

Lemma split_loop_chars (re : RegExp) (s : jsstring) :
  forall skip cur i l x,
    In l (split_loop re skip cur i s) -> In x l -> In x cur \/ In x s.
Proof.
  induction s as [ | y s IH ]; intros skip cur i l x Hl Hx.
  - cbn in Hl. destruct Hl as [ <- | [] ]. left. now apply in_rev.
  - cbn [split_loop] in Hl.
    assert (Hrev : l = rev cur -> In x cur \/ In x (y :: s)).
    { intros ->. left. now apply in_rev. }
    assert (Hrec : forall skip' cur' i',
               (forall z, In z cur' -> In z cur \/ z = y) ->
               In l (split_loop re skip' cur' i' s) ->
               In x cur \/ In x (y :: s)).
    { intros skip' cur' i' Hcur Hl'.
      destruct (IH _ _ _ _ _ Hl' Hx) as [ H | H ].
      - destruct (Hcur x H) as [ H' | -> ]; [ now left | right; now left ].
      - right. now right. }
    destruct skip as [ | n ].
    + destruct (match_at re i (y :: s)) as [ [ [e ?] ?] | ].
      * destruct (e - i) as [ | n ], cur as [ | z cur ];
          try (destruct Hl as [ Hl | Hl ]; [ now apply Hrev | ]);
          (eapply Hrec; [ | exact Hl ]); cbn; intuition.
      * eapply Hrec; [ | exact Hl ]. cbn. intuition.
    + eapply Hrec; [ | exact Hl ]. intuition.
Qed.

Lemma split_chars (re : RegExp) (s l : jsstring) (x : char) :
  In l (split re s) -> In x l -> In x s.
Proof.
  intros Hl Hx. destruct s as [ | y s ].
  - cbn in Hl. destruct (match_at re 0 []); [ contradiction | ].
    destruct Hl as [ <- | [] ]. exact Hx.
  - destruct (split_loop_chars re (y :: s) 0 [] 0 l x Hl Hx) as [ [] | H ].
    exact H.
Qed.

Lemma find_line_in (p : jsstring -> bool) (lines : list jsstring) (l : jsstring) :
  Parser.find_line p lines = Some l -> In l lines.
Proof.
  unfold Parser.find_line. destruct (find p lines) as [ l' | ] eqn:Hf;
    [ | discriminate ].
  apply find_some in Hf. destruct l'; [ discriminate | ].
  intros [= <-]. apply Hf.
Qed.

End PieceFacts.

Section DigitFacts.
Import Parser.
Variable lines : list jsstring.
Hypothesis no_digit : forall l, In l lines -> lacks true CDigit l.

Lemma field_needs_digit (name : string) : needs CDigit (source (re_field name)).
Proof. cbn. tauto. Qed.

Lemma ms_needs_digit (name : string) : needs CDigit (source (re_ms name)).
Proof. cbn. tauto. Qed.

Lemma unix_stats_no_digit (r : PingResult.t) : unix_stats lines r = r.
Proof.
  unfold unix_stats. destruct (find_line _ lines) as [ l | ] eqn:Hf;
    [ | reflexivity ].
  apply find_line_in in Hf.
  rewrite (exec_needs re_unix_stats CDigit l); [ reflexivity | | now apply no_digit ].
  cbn. tauto.
Qed.

Lemma win_stats_no_digit (r : PingResult.t) : win_stats lines r = r.
Proof.
  unfold win_stats. destruct (find_line _ lines) as [ l | ] eqn:Hf;
    [ | reflexivity ].
  apply find_line_in in Hf.
  rewrite !(exec_needs (re_field _) CDigit l (field_needs_digit _) (no_digit l Hf)).
  reflexivity.
Qed.

Lemma win_time_no_digit (r : PingResult.t) : win_time lines r = r.
Proof.
  unfold win_time. destruct (find_line _ lines) as [ l | ] eqn:Hf;
    [ | reflexivity ].
  apply find_line_in in Hf.
  rewrite !(exec_needs (re_ms _) CDigit l (ms_needs_digit _) (no_digit l Hf)).
  reflexivity.
Qed.

Lemma unix_rtt_no_digit (r : PingResult.t) :
  (forall l, In l lines -> lacks false digits_dot l) -> unix_rtt lines r = r.
Proof.
  intros Hdot.
  unfold unix_rtt. destruct (find_line _ lines) as [ l | ] eqn:Hf;
    [ | reflexivity ].
  apply find_line_in in Hf.
  rewrite (exec_needs re_rtt digits_dot l); [ reflexivity | | now apply Hdot ].
  cbn. tauto.
Qed.

Lemma unix_rtt_counts (r : PingResult.t) :
  PingResult.transmitted (unix_rtt lines r) = PingResult.transmitted r
  /\ PingResult.received (unix_rtt lines r) = PingResult.received r
  /\ PingResult.loss (unix_rtt lines r) = PingResult.loss r.
Proof.
  unfold unix_rtt. destruct (find_line _ lines); [ | auto ].
  destruct (exec re_rtt _); auto.
Qed.

End DigitFacts.

(** X5. An output without a decimal digit yields no packet counts:
    transmitted, received and loss stay null (every pattern that assigns
    them needs a digit).  If it holds no dot either, min, avg and max stay
    null too and the result is the initial object with the raw text. *)
Theorem parsePingResult_without_digits :
  forall output : jsstring,
    forallb (fun c => negb (is_digit c)) output = true ->
    let r := Parser.parsePingResult output in
    PingResult.transmitted r = VNull
    /\ PingResult.received r = VNull
    /\ PingResult.loss r = VNull
    /\ (forallb (fun c => negb (c =? 46)%N) output = true ->
        r = {| PingResult.transmitted := VNull; PingResult.received := VNull;
               PingResult.loss := VNull; PingResult.min := VNull;
               PingResult.avg := VNull; PingResult.max := VNull;
               PingResult.raw := VStr output |}).
Proof.
  intros output Hd r. subst r. unfold Parser.parsePingResult.
  set (lines := split Parser.re_newline output).
  assert (Hdigit : forall l, In l lines -> lacks true CDigit l).
  { intros l Hl x Hx. cbn.
    apply (split_chars _ _ _ _ Hl) in Hx.
    rewrite forallb_forall in Hd. apply negb_true_iff. now apply Hd. }
  rewrite (unix_stats_no_digit lines Hdigit).
  rewrite (win_stats_no_digit lines Hdigit), (win_time_no_digit lines Hdigit).
  destruct (unix_rtt_counts lines
              {| PingResult.transmitted := VNull; PingResult.received := VNull;
                 PingResult.loss := VNull; PingResult.min := VNull;
                 PingResult.avg := VNull; PingResult.max := VNull;
                 PingResult.raw := VStr output |}) as (-> & -> & ->).
  repeat split.
  intros Hdot. apply (unix_rtt_no_digit lines).
  intros l Hl x Hx. unfold Parser.digits_dot, chr. cbn [cset_mem].
  apply (split_chars _ _ _ _ Hl) in Hx.
  rewrite forallb_forall in Hd, Hdot.
  apply orb_false_iff. split.
  - apply negb_true_iff. now apply Hd.
  - change (code ".") with 46%N. rewrite N.eqb_sym. apply negb_true_iff.
    now apply Hdot.
Qed.

Lemma parsePingResult_without_digits_witness :
  PingResult.loss
    (Parser.parsePingResult
       (lit "ping: unknown host example.invalid" ++ 10%N :: lit "rtt ./././"))
  = VNull.
Proof.
  apply (parsePingResult_without_digits
           (lit "ping: unknown host example.invalid" ++ 10%N :: lit "rtt ./././")).
  reflexivity.
Defined.

Section DialectFacts.
Import Parser.




End DialectFacts.



(** ** The ping and traceroute handlers *)

Lemma ok_of_iff (r : CommandResult.t) :
  Diagnostics.ok_of r = true <->
  CommandResult.code r = Some 0%Z /\ CommandResult.timedOut r = false.
Proof.
  unfold Diagnostics.ok_of.
  destruct (CommandResult.timedOut r), (CommandResult.code r) as [ [ | p | p ] | ];
    cbn; split; try intros [? ?]; try discriminate; auto.
Qed.

(** C8. A ping or traceroute request whose host fails validation is
    answered with status 400 and an error body, and no process is spawned,
    whatever the environment would deliver.  With a valid host exactly one
    process is spawned, and once the command has resolved the answer has
    status 200 and its field ok is true exactly when the exit code is 0 and
    timedOut is false. *)
Theorem diagnostics_validation_and_ok :
  forall (isWindows : bool) (host : option qvalue) (trace : list Runner.event),
    (validateHost host = None ->
       forall handled,
         handled = Diagnostics.ping isWindows host trace
         \/ handled = Diagnostics.traceroute isWindows host trace ->
         Http.spawned handled = []
         /\ exists resp, Http.response handled = Some resp
                         /\ Http.status resp = 400%Z /\ is_error_body resp)
    /\ (forall h result,
          validateHost host = Some h ->
          Runner.runCommand trace = Some result ->
          forall handled,
            handled = Diagnostics.ping isWindows host trace
            \/ handled = Diagnostics.traceroute isWindows host trace ->
            length (Http.spawned handled) = 1
            /\ exists resp ok,
                 Http.response handled = Some resp
                 /\ Http.status resp = 200%Z
                 /\ response_ok resp = Some ok
                 /\ (ok = true <->
                     CommandResult.code result = Some 0%Z
                     /\ CommandResult.timedOut result = false)).
Proof.
  intros isWindows host trace. split.
  - intros Hv handled [ -> | -> ];
      unfold Diagnostics.ping, Diagnostics.traceroute; rewrite Hv; cbn;
      (split; [ reflexivity | ]);
      eexists; repeat split; eexists; reflexivity.
  - intros h result Hv Hr handled [ -> | -> ];
      unfold Diagnostics.ping, Diagnostics.traceroute; rewrite Hv, Hr;
      destruct isWindows; cbn;
      (split; [ reflexivity | ]);
      do 2 eexists; (do 3 (split; [ reflexivity | ])); apply ok_of_iff.
Qed.

Lemma diagnostics_validation_and_ok_witness :
  Http.spawned (Diagnostics.ping false (Some (QStr (lit "a;reboot"))) []) = []
  /\ length (Http.spawned
               (Diagnostics.traceroute true (Some (QStr (lit "::1")))
                  [Runner.ChildClose (Some 0%Z)])) = 1.
Proof.
  split.
  - refine (proj1 (proj1 (diagnostics_validation_and_ok false
                            (Some (QStr (lit "a;reboot"))) []) _ _ _));
      [ reflexivity | left; reflexivity ].
  - refine (proj1 (proj2 (diagnostics_validation_and_ok true
                            (Some (QStr (lit "::1")))
                            [Runner.ChildClose (Some 0%Z)]) _ _ _ _ _ _));
      [ reflexivity | reflexivity | right; reflexivity ].
Defined.

Section CompletionFacts.
Import Runner.

Lemma data_prefix_app (pre post : list event) (e : event) :
  forallb is_data pre = true -> is_data e = false ->
  data_prefix (pre ++ e :: post) = pre.
Proof.
  intros Hd He. induction pre as [ | x pre IH ]; cbn.
  - now rewrite He.
  - cbn in Hd. apply andb_true_iff in Hd. destruct Hd as [Hx Hd].
    rewrite Hx. f_equal. now apply IH.
Qed.

Lemma completion_app (pre post : list event) (e : event) :
  forallb is_data pre = true -> is_data e = false ->
  completion (pre ++ e :: post) = Some e.
Proof.
  intros Hd He. apply completion_some. split; [ exact He | ].
  exists post. now rewrite data_prefix_app.
Qed.

End CompletionFacts.

Lemma parsePingResult_raw (output : jsstring) :
  PingResult.raw (Parser.parsePingResult output) = VStr output.
Proof.
  assert (H : typed output (Parser.parsePingResult output)).
  { unfold Parser.parsePingResult.
    apply win_time_typed, win_stats_typed, unix_rtt_typed, unix_stats_typed.
    unfold typed; cbn. repeat split; try (now left). left. now left. }
  apply H.
Qed.

(** X7. What reaches spawn.  For a validated host both handlers spawn ping,
    tracert or traceroute with a fixed time limit; the host is the last
    argument, and every argument is a non-empty string over the allow-list
    of validateHost, so none holds whitespace or a shell metacharacter. *)
Theorem diagnostics_spawn_arguments :
  forall (isWindows : bool) (host : option qvalue) (h : jsstring)
         (trace : list Runner.event) (call : Http.SpawnCall),
    validateHost host = Some h ->
    In call (Http.spawned (Diagnostics.ping isWindows host trace))
    \/ In call (Http.spawned (Diagnostics.traceroute isWindows host trace)) ->
    last (Http.args call) [] = h
    /\ Forall safe_argument (Http.args call)
    /\ In (Http.cmd call) [lit "ping"; lit "tracert"; lit "traceroute"]
    /\ (Http.timeoutMs call = 30000 \/ Http.timeoutMs call = 60000)%Z.
Proof.
  intros isWindows host h trace call Hv Hin.
  assert (Hh : safe_argument h).
  { apply validateHost_iff in Hv. destruct Hv as (s & _ & _ & Hl & Hc).
    split; [ | exact Hc ]. intros ->. cbn in Hl. lia. }
  assert (Hlit : forall a, In a [lit "-n"; lit "4"; lit "-w"; lit "2000";
                                 lit "-c"; lit "-d"; lit "-h"; lit "30";
                                 lit "-m"] -> safe_argument a).
  { intros a Ha. cbn [In] in Ha.
    repeat (destruct Ha as [ <- | Ha ];
            [ split; [ discriminate | reflexivity ] | ]).
    contradiction. }
  unfold Diagnostics.ping, Diagnostics.traceroute in Hin. rewrite Hv in Hin.
  destruct isWindows; cbn [Http.spawned In] in Hin;
    destruct Hin as [ [ <- | [] ] | [ <- | [] ] ]; cbn [Http.args Http.cmd Http.timeoutMs];
    (split; [ reflexivity | ]);
    (split; [ repeat (apply Forall_cons; [ first [ exact Hh | apply Hlit; cbn; tauto ] | ]);
              apply Forall_nil | ]);
    (split; [ cbn; tauto | lia ]).
Qed.

Lemma diagnostics_spawn_arguments_witness :
  last [lit "-n"; lit "-m"; lit "30"; lit "example.com"] []
  = lit "example.com".
Proof.
  exact (proj1 (diagnostics_spawn_arguments false
                  (Some (QStr (lit " example.com"))) (lit "example.com") []
                  {| Http.cmd := lit "traceroute";
                     Http.args := [lit "-n"; lit "-m"; lit "30";
                                   lit "example.com"];
                     Http.timeoutMs := 60000 |}
                  eq_refl (or_intror (or_introl eq_refl)))).
Defined.

(** X8. A command that does not finish by itself still gets an answer with
    status 200.  When the timer fires first, both handlers answer with ok
    false, a null exit code and timedOut true, and the text they return is
    the stdout gathered so far, a line feed, the stderr gathered so far and
    the timeout marker.  When the spawn fails first, they answer with ok
    false, a null exit code and timedOut false, and the text is the stdout
    followed, when the error text is not empty, by a line feed and it. *)
Theorem diagnostics_failure_responses :
  forall (isWindows : bool) (host : option qvalue) (h : jsstring)
         (pre post : list Runner.event) (handler : _ -> _ -> _ -> Http.Handled),
    validateHost host = Some h ->
    forallb Runner.is_data pre = true ->
    handler = Diagnostics.ping \/ handler = Diagnostics.traceroute ->
    (exists resp,
        Http.response (handler isWindows host (pre ++ Runner.TimerFired :: post))
        = Some resp
        /\ Http.status resp = 200%Z
        /\ diagnostic_fields resp = Some (false, None, true)
        /\ diagnostic_text resp
           = Some (VStr (Runner.stdout_of pre ++ 10%N :: Runner.stderr_of pre
                         ++ 10%N :: lit "[Timed out]")))
    /\ (forall err,
          exists resp,
            Http.response
              (handler isWindows host (pre ++ Runner.ChildError err :: post))
            = Some resp
            /\ Http.status resp = 200%Z
            /\ diagnostic_fields resp = Some (false, None, false)
            /\ diagnostic_text resp
               = Some (VStr (Runner.stdout_of pre ++
                             match err with
                             | [] => []
                             | _ :: _ => 10%N :: err
                             end))).
Proof.
  intros isWindows host h pre post handler Hv Hd Hh. split; [ | intros err ].
  - assert (Hc := completion_app pre post Runner.TimerFired Hd eq_refl).
    apply result_of_completion in Hc.
    rewrite (data_prefix_app pre post Runner.TimerFired Hd eq_refl) in Hc.
    destruct Hh as [ -> | -> ];
      unfold Diagnostics.ping, Diagnostics.traceroute; rewrite Hv, Hc;
      destruct isWindows; cbn [Http.response];
      eexists; (split; [ reflexivity | ]); (split; [ reflexivity | ]);
      (split; [ reflexivity | ]);
      unfold diagnostic_text; cbn [Http.json CommandResult.stdout CommandResult.stderr];
      rewrite ?parsePingResult_raw; unfold Diagnostics.with_stderr;
      destruct (Runner.stderr_of pre); reflexivity.
  - assert (Hc := completion_app pre post (Runner.ChildError err) Hd eq_refl).
    apply result_of_completion in Hc.
    rewrite (data_prefix_app pre post (Runner.ChildError err) Hd eq_refl) in Hc.
    destruct Hh as [ -> | -> ];
      unfold Diagnostics.ping, Diagnostics.traceroute; rewrite Hv, Hc;
      destruct isWindows; cbn [Http.response];
      eexists; (split; [ reflexivity | ]); (split; [ reflexivity | ]);
      (split; [ reflexivity | ]);
      unfold diagnostic_text; cbn [Http.json CommandResult.stdout CommandResult.stderr];
      rewrite ?parsePingResult_raw; reflexivity.
Qed.

Lemma diagnostics_failure_responses_witness :
  exists resp,
    Http.response
      (Diagnostics.traceroute false (Some (QStr (lit "::1")))
         ([Runner.StdoutData (lit "1 *")] ++ Runner.TimerFired :: []))
    = Some resp
    /\ Http.status resp = 200%Z
    /\ diagnostic_fields resp = Some (false, None, true)
    /\ diagnostic_text resp
       = Some (VStr (Runner.stdout_of [Runner.StdoutData (lit "1 *")]
                     ++ 10%N :: Runner.stderr_of [Runner.StdoutData (lit "1 *")]
                     ++ 10%N :: lit "[Timed out]")).
Proof.
  exact (proj1 (diagnostics_failure_responses false (Some (QStr (lit "::1")))
                  (lit "::1") [Runner.StdoutData (lit "1 *")] []
                  Diagnostics.traceroute eq_refl eq_refl
                  (or_intror eq_refl))).
Defined.

(** X9. Both handlers answer exactly when a completion event has been
    delivered, and they report ok exactly when the first such event is the
    exit of the process with code 0: a timeout or a spawn error that comes
    first, or any other exit code, gives ok false. *)
Theorem diagnostics_ok_iff_clean_exit :
  forall (isWindows : bool) (host : option qvalue) (h : jsstring)
         (trace : list Runner.event) (handled : Http.Handled),
    validateHost host = Some h ->
    handled = Diagnostics.ping isWindows host trace
    \/ handled = Diagnostics.traceroute isWindows host trace ->
    (Http.response handled = None <-> forallb Runner.is_data trace = true)
    /\ ((exists resp, Http.response handled = Some resp
                      /\ response_ok resp = Some true)
        <-> exists pre post,
              trace = pre ++ Runner.ChildClose (Some 0%Z) :: post
              /\ forallb Runner.is_data pre = true).
Proof.
  intros isWindows host h trace handled Hv Hh.
  assert (Hresp :
    Http.response handled = None /\ Runner.runCommand trace = None
    \/ exists r resp, Runner.runCommand trace = Some r
                      /\ Http.response handled = Some resp
                      /\ response_ok resp = Some (Diagnostics.ok_of r)).
  { destruct Hh as [ -> | -> ];
      unfold Diagnostics.ping, Diagnostics.traceroute; rewrite Hv;
      destruct (Runner.runCommand trace) as [ r | ];
      destruct isWindows; cbn [Http.response]; auto;
      right; do 2 eexists; repeat split. }
  split.
  - rewrite <- completion_none.
    destruct (completion trace) as [ e | ] eqn:Hc.
    + apply result_of_completion in Hc.
      destruct Hresp as [ [_ Hn] | (r & resp & _ & -> & _) ];
        [ congruence | split; discriminate ].
    + destruct Hresp as [ [-> _] | (r & resp & Hrun & _) ];
        [ split; reflexivity | ].
      rewrite runCommand_of_completion, Hc in Hrun. discriminate.
  - split.
    + intros (resp & Hr & Hok).
      destruct Hresp as [ [Hn _] | (r & resp' & Hrun & Hr' & Hok') ];
        [ congruence | ].
      rewrite Hr in Hr'. injection Hr' as <-. rewrite Hok in Hok'.
      injection Hok' as Hok'. symmetry in Hok'. apply ok_of_iff in Hok'.
      destruct Hok' as [Hcode Ht].
      destruct (completion trace) as [ e | ] eqn:Hc.
      * rewrite (result_of_completion trace e Hc) in Hrun.
        injection Hrun as <-.
        apply completion_some in Hc. destruct Hc as (He & post & Hp).
        destruct e; try discriminate; cbn in Hcode, Ht; try discriminate.
        rewrite Hcode in Hp.
        exists (data_prefix trace), post. split; [ exact Hp | ].
        apply data_prefix_is_data.
      * rewrite runCommand_of_completion, Hc in Hrun. discriminate.
    + intros (pre & post & -> & Hd).
      assert (Hc := completion_app pre post (Runner.ChildClose (Some 0%Z))
                      Hd eq_refl).
      apply result_of_completion in Hc.
      destruct Hresp as [ [_ Hn] | (r & resp & Hrun & Hr & Hok) ];
        [ congruence | ].
      exists resp. split; [ exact Hr | ]. rewrite Hok. f_equal.
      rewrite Hc in Hrun. injection Hrun as <-. reflexivity.
Qed.

Lemma diagnostics_ok_iff_clean_exit_witness :
  Http.response (Diagnostics.ping true (Some (QStr (lit "10.0.0.1")))
                   [Runner.StdoutData (lit "Reply")]) = None.
Proof.
  apply (proj1 (diagnostics_ok_iff_clean_exit true
                  (Some (QStr (lit "10.0.0.1"))) (lit "10.0.0.1")
                  [Runner.StdoutData (lit "Reply")] _
                  eq_refl (or_introl eq_refl))).
  reflexivity.
Defined.

(** ** The download handler *)

Section DownloadFacts.
Import Download.

Lemma same_data_refl st : same_data st st.
Proof. unfold same_data. auto. Qed.

Lemma same_data_write_chunk a b x y :
  same_data a b -> same_data (write_chunk x a) (write_chunk y b).
Proof.
  intros (Hr & Hc & Hw). unfold same_data, write_chunk. cbn.
  now rewrite Hr, Hc, Hw.
Qed.

Lemma same_data_set_where p st : same_data (set_where p st) st.
Proof. unfold same_data. auto. Qed.

Lemma same_data_trans a b c : same_data a b -> same_data b c -> same_data a c.
Proof. unfold same_data. intuition congruence. Qed.

Lemma turns_succ k st : turns (S k) st = write_chunk true (turns k st).
Proof. reflexivity. Qed.

Lemma turns_succ_r k st : turns (S k) st = turns k (write_chunk true st).
Proof. unfold turns. apply Nat.iter_succ_r. Qed.

Lemma turns_same_data k : forall a b, same_data a b -> same_data (turns k a) (turns k b).
Proof.
  induction k as [ | k IH ]; intros a b H; [ exact H | ].
  rewrite !turns_succ. apply same_data_write_chunk. now apply IH.
Qed.

Lemma step_on_track bp st0 st : on_track st0 st -> on_track st0 (step bp st).
Proof.
  intros (k & Hd & Hlt & Hend). unfold step.
  destruct (where_ st) eqn:Hw.
  - destruct (ltb (S754_zero false) (remaining st)) eqn:Hrem.
    + exists (S k). split; [ | split ].
      * rewrite turns_succ. now apply same_data_write_chunk.
      * intros j Hj. destruct (Nat.eq_dec j k) as [ -> | Hne ].
        -- destruct Hd as (<- & _). exact Hrem.
        -- apply Hlt. lia.
      * cbn. destruct (bp (length (writes st))); discriminate.
    + exists k. split; [ | split ].
      * eapply same_data_trans; [ apply same_data_set_where | exact Hd ].
      * exact Hlt.
      * intros _. destruct Hd as (<- & _). exact Hrem.
  - exists k. split; [ | split ].
    + eapply same_data_trans; [ apply same_data_set_where | exact Hd ].
    + exact Hlt.
    + cbn. discriminate.
  - exists k. auto.
Qed.

Lemma steps_on_track n bp st0 : forall st, on_track st0 st -> on_track st0 (steps n bp st).
Proof.
  induction n as [ | n IH ]; intros st H; [ exact H | ].
  cbn. apply IH. now apply step_on_track.
Qed.

Lemma on_track_start st0 : where_ st0 = Writing -> on_track st0 st0.
Proof.
  intros Hw. exists 0. split; [ apply same_data_refl | split ].
  - intros j Hj. lia.
  - rewrite Hw. discriminate.
Qed.

(** Two finished runs from the same start have written the same chunks. *)
Lemma ended_same_data st0 a b :
  on_track st0 a -> on_track st0 b ->
  where_ a = Ended -> where_ b = Ended -> same_data a b.
Proof.
  intros (k1 & Ha & Hlt1 & He1) (k2 & Hb & Hlt2 & He2) Hea Heb.
  specialize (He1 Hea). specialize (He2 Heb).
  assert (k1 = k2) as ->.
  { destruct (Nat.lt_trichotomy k1 k2) as [ H | [ H | H ] ]; [ | exact H | ].
    - rewrite (Hlt2 k1 H) in He1. discriminate.
    - rewrite (Hlt1 k2 H) in He2. discriminate. }
  eapply same_data_trans; [ exact Ha | ].
  destruct Hb as (? & ? & ?). unfold same_data. auto.
Qed.

Lemma steps_add n m bp : forall st, steps (n + m) bp st = steps m bp (steps n bp st).
Proof. induction n as [ | n IH ]; intros st; cbn; auto. Qed.

Lemma steps_ended n bp : forall st, where_ st = Ended -> steps n bp st = st.
Proof.
  induction n as [ | n IH ]; intros st H; [ reflexivity | ].
  cbn. unfold step. rewrite H. now apply IH.
Qed.

Lemma remaining_write_chunk b st :
  remaining (write_chunk b st) = remaining_next (remaining st).
Proof. reflexivity. Qed.

(** When the loop runs out after [k] turns, every schedule of the transport
    brings the handler to [res.end()], with the chunks of those [k] turns. *)
Lemma run_to_end k bp :
  forall st,
    where_ st = Writing -> runs_out k (remaining st) = true ->
    exists n, where_ (steps n bp st) = Ended
              /\ same_data (steps n bp st) (turns k st).
Proof.
  induction k as [ | k IH ]; intros st Hw Hr; cbn [runs_out] in Hr.
  - exists 1. cbn. unfold step. rewrite Hw.
    apply negb_true_iff in Hr. rewrite Hr. split; [ reflexivity | ].
    apply same_data_set_where.
  - apply andb_true_iff in Hr. destruct Hr as [Hpos Hr].
    rewrite turns_succ_r.
    destruct (bp (length (writes st))) eqn:Hbp.
    + destruct (IH (write_chunk true st) eq_refl Hr) as (n & He & Hd).
      assert (Hs : step bp st = write_chunk true st)
        by (unfold step; now rewrite Hw, Hpos, Hbp).
      exists (S n). cbn [steps]. rewrite Hs. auto.
    + destruct (IH (set_where Writing (write_chunk false st)) eq_refl Hr)
        as (n & He & Hd).
      assert (Hs : step bp st = write_chunk false st)
        by (unfold step; now rewrite Hw, Hpos, Hbp).
      exists (S (S n)). cbn [steps]. rewrite Hs.
      change (step bp (write_chunk false st))
        with (set_where Writing (write_chunk false st)).
      split; [ exact He | ].
      eapply same_data_trans; [ exact Hd | ].
      apply turns_same_data.
      eapply same_data_trans; [ apply same_data_set_where | ].
      apply same_data_write_chunk, same_data_refl.
Qed.

Lemma fill_from_length n : forall i, length (fill_from i n) = n.
Proof. induction n as [ | n IH ]; intros i; cbn; auto. Qed.

Lemma bump_length c : length (bump c) = length c.
Proof. destruct c; reflexivity. Qed.

Lemma subarray0_length c e :
  Z.of_nat (length (subarray0 c e)) = view_length (Z.of_nat (length c)) e.
Proof.
  unfold subarray0, view_length.
  destruct (ToIntegerOrInfinity e) as [ z | | ]; [ | reflexivity | reflexivity ].
  destruct (z <? 0)%Z eqn:Hz; rewrite length_firstn; lia.
Qed.

Lemma chunk_length_turns k : forall st, length (chunk (turns k st)) = length (chunk st).
Proof.
  induction k as [ | k IH ]; intros st; [ reflexivity | ].
  rewrite turns_succ. cbn. now rewrite bump_length.
Qed.

Lemma body_length_turns k :
  forall st,
    Z.of_nat (length (chunk st)) = CHUNK ->
    Z.of_nat (length (body (turns k st)))
    = (Z.of_nat (length (body st)) + total k (remaining st))%Z.
Proof.
  induction k as [ | k IH ]; intros st Hc; [ cbn; lia | ].
  rewrite turns_succ_r, IH
    by (unfold write_chunk; cbn [chunk]; now rewrite bump_length).
  cbn [total]. unfold body, write_chunk. cbn [writes remaining].
  rewrite concat_app, length_app. cbn [concat]. rewrite app_nil_r.
  rewrite Nat2Z.inj_add, subarray0_length, bump_length, Hc.
  unfold remaining_next, toWrite_of. lia.
Qed.

(** A request whose loop runs out after [k] turns is answered in full,
    whatever the transport does. *)
Lemma download_completes (q : option qvalue) (k : nat) (bp : nat -> bool) :
  runs_out k (size q) = true ->
  exists n,
    where_ (writeMore n bp q) = Ended
    /\ Z.of_nat (length (body (writeMore n bp q))) = total k (size q)
    /\ forall m, n <= m -> writeMore m bp q = writeMore n bp q.
Proof.
  intros Hr. unfold writeMore.
  destruct (run_to_end k bp (init q) eq_refl Hr) as (n & He & Hd).
  exists n. split; [ exact He | split ].
  - destruct Hd as (_ & _ & Hw). unfold body. rewrite Hw.
    change (concat (writes (turns k (init q)))) with (body (turns k (init q))).
    rewrite body_length_turns; [ reflexivity | ].
    unfold init, fill. cbn [chunk]. rewrite fill_from_length.
    apply Z2Nat.id. discriminate.
  - intros m Hm. replace m with (n + (m - n)) by lia.
    rewrite steps_add. now apply steps_ended.
Qed.

End DownloadFacts.

Section PerturbationFacts.
Import Download.

Lemma land_255_lt (x : N) : (N.land x 255 < 256)%N.
Proof.
  change 255%N with (N.ones 8). rewrite N.land_ones.
  apply N.mod_lt. discriminate.
Qed.

Lemma bump_changes (b : N) : (b < 256)%N -> N.land (b + 1) 255 <> b.
Proof.
  intros Hb. change 255%N with (N.ones 8). rewrite N.land_ones.
  change (2 ^ 8)%N with 256%N.
  destruct (N.eq_dec b 255) as [ -> | Hne ]; [ discriminate | ].
  rewrite N.mod_small; lia.
Qed.

(** A view of the buffer is empty or starts with the first byte of it. *)
Lemma subarray0_head c e :
  subarray0 c e = [] \/ exists t, subarray0 c e = match c with
                                                 | b :: _ => b :: t
                                                 | [] => []
                                                 end.
Proof.
  assert (H : forall n, firstn n c = [] \/
                        exists t, firstn n c = match c with
                                               | b :: _ => b :: t
                                               | [] => []
                                               end).
  { intros [ | n ]; destruct c; cbn; eauto. }
  unfold subarray0.
  destruct (ToIntegerOrInfinity e) as [ z | | ]; [ | | now left ].
  - destruct (z <? 0)%Z; apply H.
  - destruct c; eauto.
Qed.

Lemma nth_error_last_app {A} (ws : list A) (w : A) :
  nth_error (ws ++ [w]) (length (ws ++ [w]) - 1) = Some w.
Proof.
  rewrite length_app. cbn [length].
  replace (length ws + 1 - 1) with (length ws) by lia.
  rewrite nth_error_app2 by lia. now rewrite Nat.sub_diag.
Qed.

Lemma write_chunk_in_step x st :
  buffer_in_step st -> buffer_in_step (write_chunk x st).
Proof.
  intros ((b & rest & Hc & Hb) & Hp & Hlast).
  unfold buffer_in_step, write_chunk. cbn [chunk writes].
  rewrite Hc. cbn [bump].
  set (b' := N.land (b + 1) 255).
  set (w := subarray0 (b' :: rest) (Math_min (of_Z CHUNK) (remaining st))).
  assert (Hw : w = [] \/ exists t, w = b' :: t) by apply subarray0_head.
  split; [ | split ].
  - exists b', rest. split; [ reflexivity | apply land_255_lt ].
  - intros i b1 t1 b2 t2 H1 H2.
    destruct (Nat.lt_ge_cases (S i) (length (writes st))) as [ Hi | Hi ].
    + rewrite nth_error_app1 in H1, H2 by lia. eapply Hp; eassumption.
    + destruct (Nat.eq_dec (S i) (length (writes st))) as [ Heq | Hne ].
      * rewrite nth_error_app1 in H1 by lia.
        rewrite nth_error_app2 in H2 by lia.
        replace (S i - length (writes st)) with 0 in H2 by lia.
        cbn in H2. injection H2 as H2.
        replace i with (length (writes st) - 1) in H1 by lia.
        apply Hlast in H1. rewrite Hc in H1. cbn in H1. injection H1 as <-.
        destruct Hw as [ Hw | (t & Hw) ]; [ congruence | ].
        rewrite Hw in H2. injection H2 as <- _.
        split; [ reflexivity | now apply bump_changes ].
      * assert (Hnone : nth_error (writes st ++ [w]) (S i) = None).
        { apply nth_error_None. rewrite length_app. cbn. lia. }
        congruence.
  - intros b0 t Hn. rewrite nth_error_last_app in Hn. injection Hn as Hn.
    destruct Hw as [ Hw | (t' & Hw) ]; [ congruence | ].
    rewrite Hw in Hn. injection Hn as -> _. reflexivity.
Qed.

Lemma step_in_step bp st : buffer_in_step st -> buffer_in_step (step bp st).
Proof.
  intros H. unfold step.
  destruct (where_ st); [ | exact H | exact H ].
  destruct (ltb (S754_zero false) (remaining st));
    [ now apply write_chunk_in_step | exact H ].
Qed.

Lemma steps_in_step n bp : forall st, buffer_in_step st -> buffer_in_step (steps n bp st).
Proof.
  induction n as [ | n IH ]; intros st H; [ exact H | ].
  cbn. apply IH. now apply step_in_step.
Qed.

Lemma init_in_step q : buffer_in_step (init q).
Proof.
  unfold buffer_in_step, init. cbn [chunk writes].
  assert (Hfill : exists rest, fill = 31%N :: rest).
  { unfold fill. destruct (Z.to_nat CHUNK) as [ | n ] eqn:E.
    - unfold CHUNK in E. lia.
    - eexists. reflexivity. }
  destruct Hfill as (rest & ->).
  split; [ | split ].
  - exists 31%N, rest. split; reflexivity.
  - intros [ | i ] ? ? ? ?; discriminate.
  - discriminate.
Qed.

End PerturbationFacts.

Section ClampFacts.
Import Download.

Lemma SFcompare_none (x y : number) :
  SFcompare x y = None -> x = NaN \/ y = NaN.
Proof. destruct x, y; cbn; auto; discriminate. Qed.

Lemma MIN_SIZE_value : MIN_SIZE = S754_finite false 4503599627370496 (-42).
Proof. reflexivity. Qed.

Lemma MAX_SIZE_value : MAX_SIZE = S754_finite false 7036874417766400 (-27).
Proof. reflexivity. Qed.

Lemma clamp_nan : clamp NaN = NaN.
Proof. reflexivity. Qed.

Lemma Math_min_cap (x : number) :
  is_nan x = false ->
  (Math_min x MAX_SIZE = x /\ leb x MAX_SIZE = true)
  \/ Math_min x MAX_SIZE = MAX_SIZE.
Proof.
  intros Hx. unfold Math_min, leb, SFleb. rewrite MAX_SIZE_value.
  destruct (SFcompare x (S754_finite false 7036874417766400 (-27)))
    as [ [ | | ] | ] eqn:E; auto.
  apply SFcompare_none in E. destruct E as [ -> | E ]; discriminate.
Qed.

Lemma Math_max_floor (y : number) :
  is_nan y = false ->
  (Math_max MIN_SIZE y = y /\ leb MIN_SIZE y = true)
  \/ Math_max MIN_SIZE y = MIN_SIZE.
Proof.
  intros Hy. unfold Math_max, leb, SFleb. rewrite MIN_SIZE_value.
  destruct (SFcompare (S754_finite false 4503599627370496 (-42)) y)
    as [ [ | | ] | ] eqn:E; auto.
  - destruct y as [ [ | ] | | | ]; auto; discriminate.
  - apply SFcompare_none in E. destruct E as [ E | -> ]; discriminate.
Qed.

(** Every Number other than NaN is clamped into [1024, 50 MiB]. *)
Lemma clamp_bounds (x : number) :
  is_nan x = false ->
  leb MIN_SIZE (clamp x) = true /\ leb (clamp x) MAX_SIZE = true.
Proof.
  intros Hx. unfold clamp.
  destruct (Math_min_cap x Hx) as [ [-> Hle] | -> ].
  - destruct (Math_max_floor x Hx) as [ [-> Hge] | -> ]; auto.
  - destruct (Math_max_floor MAX_SIZE eq_refl) as [ [-> Hge] | -> ]; auto.
Qed.

(** The handler has ended at its first step when the size is NaN. *)
Lemma nan_ends_at_once (q : option qvalue) (bp : nat -> bool) (n : nat) :
  size q = NaN ->
  where_ (writeMore (S n) bp q) = Ended /\ writes (writeMore (S n) bp q) = [].
Proof.
  intros Hs. unfold writeMore. cbn [steps].
  assert (H1 : step bp (init q) = set_where Ended (init q)).
  { unfold step, init. cbn [where_ remaining]. now rewrite Hs. }
  rewrite H1, steps_ended by reflexivity. auto.
Qed.

End ClampFacts.

(** X10. Every size other than NaN is clamped: when the size parameter
    converts to a Number that is not NaN (a fraction, a negative number,
    an infinity), the size lies between 1024 and 50 MiB, bounds included,
    and the Content-Length header carries it. *)
Lemma download_clamped (q : option qvalue) :
  is_nan (Download.sizeParam q) = false ->
  leb Download.MIN_SIZE (Download.size q) = true
  /\ leb (Download.size q) Download.MAX_SIZE = true
  /\ Download.ContentLength (Download.headers q) = Download.size q.
Proof.
  intros H. destruct (clamp_bounds _ H). unfold Download.size. auto.
Qed.

Lemma download_clamped_witness :
  let q := Some (QStr (lit "-Infinity")) in
  leb Download.MIN_SIZE (Download.size q) = true
  /\ leb (Download.size q) Download.MAX_SIZE = true
  /\ Download.ContentLength (Download.headers q) = Download.size q.
Proof. intros q. apply download_clamped. reflexivity. Defined.

(** *** Byte counts in binary64 *)

Section Binary64Integers.
Local Open Scope Z_scope.

Lemma Zpos_iter_xO (p n : positive) :
  Zpos (Pos.iter xO p n) = Zpos p * 2 ^ Zpos n.
Proof.
  induction n as [ | n IH ] using Pos.peano_ind.
  - cbn [Pos.iter]. rewrite (Pos2Z.inj_xO p). lia.
  - rewrite Pos.iter_succ, (Pos2Z.inj_xO (Pos.iter xO p n)), IH,
      Pos2Z.inj_succ, Z.pow_succ_r by lia.
    lia.
Qed.

Lemma Zpos_shl (p : positive) (k : Z) :
  0 <= k -> Zpos (shl p k) = Zpos p * 2 ^ k.
Proof.
  intros Hk. destruct k as [ | n | n ]; cbn [shl]; [ | apply Zpos_iter_xO | lia ].
  rewrite Z.pow_0_r. lia.
Qed.

Lemma digits_iter_xO (p n : positive) :
  digits2_pos (Pos.iter xO p n) = (digits2_pos p + n)%positive.
Proof.
  induction n as [ | n IH ] using Pos.peano_ind.
  - cbn. lia.
  - rewrite Pos.iter_succ. cbn [digits2_pos]. rewrite IH. lia.
Qed.

Lemma digits_shl (p : positive) (k : Z) :
  0 <= k -> Zpos (digits2_pos (shl p k)) = Zpos (digits2_pos p) + k.
Proof.
  intros Hk. destruct k as [ | n | n ]; cbn [shl]; [ lia | | lia ].
  rewrite digits_iter_xO. lia.
Qed.

Lemma digits_bounds (p : positive) :
  2 ^ (Zpos (digits2_pos p) - 1) <= Zpos p < 2 ^ Zpos (digits2_pos p).
Proof.
  induction p as [ p IH | p IH | ]; cbn [digits2_pos].
  - rewrite Pos2Z.inj_succ, (Pos2Z.inj_xI p).
    replace (Z.succ (Zpos (digits2_pos p)) - 1) with (Z.succ (Zpos (digits2_pos p) - 1)) by lia.
    rewrite !Z.pow_succ_r by lia.
    set (X := 2 ^ (Zpos (digits2_pos p) - 1)) in *.
    set (Y := 2 ^ Zpos (digits2_pos p)) in *. clearbody X Y. lia.
  - rewrite Pos2Z.inj_succ, (Pos2Z.inj_xO p).
    replace (Z.succ (Zpos (digits2_pos p)) - 1) with (Z.succ (Zpos (digits2_pos p) - 1)) by lia.
    rewrite !Z.pow_succ_r by lia.
    set (X := 2 ^ (Zpos (digits2_pos p) - 1)) in *.
    set (Y := 2 ^ Zpos (digits2_pos p)) in *. clearbody X Y. lia.
  - cbn. lia.
Qed.

Lemma digits_mono (a b : positive) :
  Zpos a <= Zpos b -> Zpos (digits2_pos a) <= Zpos (digits2_pos b).
Proof.
  intros Hab.
  destruct (Z.le_gt_cases (Zpos (digits2_pos a)) (Zpos (digits2_pos b)))
    as [ H | H ]; [ exact H | exfalso ].
  pose proof (digits_bounds a) as [Ha _].
  pose proof (digits_bounds b) as [_ Hb].
  assert (2 ^ Zpos (digits2_pos b) <= 2 ^ (Zpos (digits2_pos a) - 1))
    by (apply Z.pow_le_mono_r; lia).
  lia.
Qed.

Lemma digits_53 (p : positive) :
  Zpos p < 2 ^ 53 -> Zpos (digits2_pos p) <= 53.
Proof.
  intros Hp.
  destruct (Z.le_gt_cases (Zpos (digits2_pos p)) 53) as [ H | H ];
    [ exact H | exfalso ].
  pose proof (digits_bounds p) as [Ha _].
  assert (2 ^ 53 <= 2 ^ (Zpos (digits2_pos p) - 1))
    by (apply Z.pow_le_mono_r; lia).
  lia.
Qed.

(** Shifting right a mantissa that ends in [n] zero bits is exact. *)
Lemma shr_exact (n : positive) :
  forall c,
    iter_pos shr_1 n
      {| shr_m := Zpos (Pos.iter xO c n); shr_r := false; shr_s := false |}
    = {| shr_m := Zpos c; shr_r := false; shr_s := false |}.
Proof.
  induction n as [ n IH | n IH | ]; intros c; cbn [iter_pos Pos.iter].
  - cbn [shr_1 orb]. now rewrite !IH.
  - now rewrite !IH.
  - reflexivity.
Qed.

(** Rounding leaves a mantissa of 53 bits in the normal range alone. *)
Lemma round_canonical (s : bool) (m : positive) (e : Z) :
  Zpos (digits2_pos m) = 53 -> -1074 <= e <= 971 ->
  binary_round_aux 53 1024 s (Zpos m) e loc_Exact = S754_finite s m e.
Proof.
  intros Hd He.
  unfold binary_round_aux, shr_fexp, fexp, emin, Zdigits2.
  cbn [shr_record_of_loc]. rewrite Hd.
  replace (Z.max (53 + e - 53) (3 - 1024 - 53) - e) with 0 by lia.
  cbn [shr shr_m loc_of_shr_record round_nearest_even shr_record_of_loc].
  rewrite Hd.
  replace (Z.max (53 + e - 53) (3 - 1024 - 53) - e) with 0 by lia.
  cbn [shr shr_m].
  replace (e <=? 1024 - 53) with true by (symmetry; apply Z.leb_le; lia).
  reflexivity.
Qed.

Lemma shl_shl (c : positive) (j k : Z) :
  0 <= j -> 0 <= k -> shl (shl c j) k = shl c (j + k).
Proof.
  intros Hj Hk. apply Pos2Z.inj.
  rewrite !Zpos_shl, Z.pow_add_r by lia. lia.
Qed.

(** Rounding [c * 2^k * 2^e], for [c] of at most 53 bits, gives the
    mantissa [c] aligned on 53 bits. *)
Lemma round_shifted (s : bool) (c : positive) (k e : Z) :
  0 <= k -> Zpos (digits2_pos c) <= 53 ->
  -1074 <= e + k + Zpos (digits2_pos c) - 53 <= 971 ->
  binary_round 53 1024 s (shl c k) e
  = S754_finite s (shl c (53 - Zpos (digits2_pos c)))
                (e + k + Zpos (digits2_pos c) - 53).
Proof.
  intros Hk Hc He.
  set (dc := Zpos (digits2_pos c)) in *.
  assert (Hdm : Zpos (digits2_pos (shl c k)) = dc + k) by now apply digits_shl.
  unfold binary_round, shl_align, fexp, emin. rewrite Hdm.
  replace (Z.max (dc + k + e - 53) (3 - 1024 - 53)) with (dc + k + e - 53) by lia.
  destruct (dc + k + e - 53 - e) as [ | d | d ] eqn:Hd.
  - rewrite round_canonical by lia.
    f_equal; [ f_equal; lia | lia ].
  - assert (Hm : shl c k = Pos.iter xO (shl c (53 - dc)) d).
    { change (Pos.iter xO (shl c (53 - dc)) d)
        with (shl (shl c (53 - dc)) (Zpos d)).
      rewrite shl_shl by lia. f_equal. lia. }
    assert (Hd53 : Zpos (digits2_pos (shl c (53 - dc))) = 53)
      by (rewrite digits_shl by lia; fold dc; lia).
    unfold binary_round_aux, shr_fexp, fexp, emin, Zdigits2.
    cbn [shr_record_of_loc]. rewrite Hdm.
    replace (Z.max (dc + k + e - 53) (3 - 1024 - 53) - e) with (Zpos d) by lia.
    cbn [shr]. rewrite Hm, shr_exact.
    cbn [shr_m loc_of_shr_record round_nearest_even shr_record_of_loc].
    rewrite Hd53.
    replace (Z.max (53 + (e + Zpos d) - 53) (3 - 1024 - 53) - (e + Zpos d))
      with 0 by lia.
    cbn [shr shr_m].
    replace (e + Zpos d <=? 1024 - 53) with true
      by (symmetry; apply Z.leb_le; lia).
    f_equal. lia.
  - assert (Hd53 : Zpos (digits2_pos (Pos.iter xO (shl c k) d)) = 53)
      by (rewrite digits_iter_xO, Pos2Z.inj_add, Hdm; lia).
    rewrite round_canonical by lia.
    f_equal; [ | lia ].
    change (Pos.iter xO (shl c k) d) with (shl (shl c k) (Zpos d)).
    rewrite shl_shl by lia. f_equal. lia.
Qed.

Lemma of_Z_negative (p : positive) :
  Zpos p < 2 ^ 53 -> exists m e, of_Z (Zneg p) = S754_finite true m e.
Proof.
  intros Hp. apply digits_53 in Hp.
  unfold of_Z, binary_normalize, prec, emax.
  change p with (shl p 0) at 1.
  rewrite round_shifted by lia. eauto.
Qed.

(** An integer between 1 and 2^53 - 1 is a Number. *)
Lemma of_Z_canonical (p : positive) :
  Zpos p < 2 ^ 53 -> of_Z (Zpos p) = canonical p.
Proof.
  intros Hp. apply digits_53 in Hp.
  unfold of_Z, binary_normalize, canonical, prec, emax.
  change p with (shl p 0) at 1.
  rewrite round_shifted by lia. f_equal; lia.
Qed.

Lemma compare_canonical (a b : positive) :
  Zpos a < 2 ^ 53 -> Zpos b < 2 ^ 53 ->
  SFcompare (canonical a) (canonical b) = Some (Pos.compare a b).
Proof.
  intros Ha Hb. apply digits_53 in Ha, Hb.
  unfold canonical, SFcompare. f_equal.
  set (da := Zpos (digits2_pos a)) in *. set (db := Zpos (digits2_pos b)) in *.
  pose proof (digits_bounds a) as [Ha1 Ha2]. fold da in Ha1, Ha2.
  pose proof (digits_bounds b) as [Hb1 Hb2]. fold db in Hb1, Hb2.
  destruct (Z.compare_spec (da - 53) (db - 53)) as [ He | He | He ].
  - replace db with da by lia.
    change (Pos.compare_cont Eq (shl a (53 - da)) (shl b (53 - da)))
      with (Pos.compare (shl a (53 - da)) (shl b (53 - da))).
    rewrite !Pos2Z.inj_compare, !Zpos_shl by lia.
    assert (HP : 0 < 2 ^ (53 - da)) by (apply Z.pow_pos_nonneg; lia).
    set (P := 2 ^ (53 - da)) in *. clearbody P.
    destruct (Z.compare_spec (Zpos a) (Zpos b)) as [ Hc | Hc | Hc ];
      [ apply Z.compare_eq_iff | apply Z.compare_lt_iff | apply Z.compare_gt_iff ];
      nia.
  - symmetry. apply Pos.compare_lt_iff.
    assert (2 ^ da <= 2 ^ (db - 1)) by (apply Z.pow_le_mono_r; lia). lia.
  - symmetry. apply Pos.compare_gt_iff.
    assert (2 ^ db <= 2 ^ (da - 1)) by (apply Z.pow_le_mono_r; lia). lia.
Qed.

Lemma sub_canonical (a b : positive) :
  Zpos b < Zpos a -> Zpos a < 2 ^ 53 ->
  sub (canonical a) (canonical b) = canonical (a - b).
Proof.
  intros Hab Ha.
  assert (Hb : Zpos b < 2 ^ 53) by lia.
  assert (Hc : Zpos (a - b) < 2 ^ 53) by lia.
  assert (Hdab : Zpos (digits2_pos b) <= Zpos (digits2_pos a))
    by (apply digits_mono; lia).
  apply digits_53 in Ha, Hb, Hc.
  unfold sub, SFsub, canonical, prec, emax.
  set (da := Zpos (digits2_pos a)) in *. set (db := Zpos (digits2_pos b)) in *.
  set (dc := Zpos (digits2_pos (a - b))) in *.
  rewrite Z.min_r by lia. cbn [cond_Zopp].
  assert (Ea : fst (shl_align (shl a (53 - da)) (da - 53) (db - 53))
               = shl a (53 - db)).
  { unfold shl_align. destruct (db - 53 - (da - 53)) as [ | d | d ] eqn:Hd; cbn [fst].
    - f_equal. lia.
    - lia.
    - change (Pos.iter xO (shl a (53 - da)) d) with (shl (shl a (53 - da)) (Zpos d)).
      rewrite shl_shl by lia. f_equal. lia. }
  assert (Eb : fst (shl_align (shl b (53 - db)) (db - 53) (db - 53))
               = shl b (53 - db)).
  { unfold shl_align. now rewrite Z.sub_diag. }
  rewrite Ea, Eb.
  assert (Ed : Zpos (shl a (53 - db)) - Zpos (shl b (53 - db))
               = Zpos (shl (a - b) (53 - db))).
  { rewrite !Zpos_shl by lia. rewrite Pos2Z.inj_sub by lia. lia. }
  rewrite Ed. unfold binary_normalize.
  rewrite round_shifted by (fold dc; lia).
  fold dc. f_equal. lia.
Qed.

Lemma sub_self (s : bool) (m : positive) (e : Z) :
  sub (S754_finite s m e) (S754_finite s m e) = S754_zero false.
Proof.
  unfold sub, SFsub. cbv zeta. rewrite Z.min_id.
  unfold shl_align. rewrite !Z.sub_diag. reflexivity.
Qed.

Lemma ToInteger_canonical (p : positive) :
  Zpos p < 2 ^ 53 -> ToIntegerOrInfinity (canonical p) = Int (Zpos p).
Proof.
  intros Hp. apply digits_53 in Hp.
  unfold canonical, ToIntegerOrInfinity. cbn [cond_Zopp]. f_equal.
  set (d := Zpos (digits2_pos p)) in *.
  rewrite Zpos_shl by lia.
  destruct (0 <=? d - 53) eqn:E.
  - apply Z.leb_le in E. replace (53 - d) with 0 by lia.
    replace (d - 53) with 0 by lia. rewrite Z.pow_0_r. lia.
  - replace (- (d - 53)) with (53 - d) by lia.
    apply Z.div_mul, Z.pow_nonzero; lia.
Qed.

(** *** Integers as Numbers *)

Lemma of_Z_positive (n : Z) :
  0 < n < 2 ^ 53 -> of_Z n = canonical (Z.to_pos n).
Proof.
  intros Hn. destruct n as [ | p | p ]; try lia.
  apply of_Z_canonical. lia.
Qed.

Lemma ltb_zero_of_Z (n : Z) :
  0 < n < 2 ^ 53 -> ltb (S754_zero false) (of_Z n) = true.
Proof. intros Hn. now rewrite of_Z_positive. Qed.

Lemma compare_of_Z (a b : Z) :
  0 < a < 2 ^ 53 -> 0 < b < 2 ^ 53 ->
  SFcompare (of_Z a) (of_Z b) = Some (a ?= b).
Proof.
  intros Ha Hb. rewrite !of_Z_positive, compare_canonical by lia.
  rewrite Pos2Z.inj_compare, !Z2Pos.id by lia. reflexivity.
Qed.

Lemma Math_min_of_Z (a b : Z) :
  0 < a < 2 ^ 53 -> 0 < b < 2 ^ 53 ->
  Math_min (of_Z a) (of_Z b) = of_Z (Z.min a b).
Proof.
  intros Ha Hb. unfold Math_min. rewrite compare_of_Z by lia.
  destruct (Z.compare_spec a b) as [ -> | H | H ].
  - rewrite Z.min_id, of_Z_positive by lia. reflexivity.
  - now rewrite Z.min_l by lia.
  - now rewrite Z.min_r by lia.
Qed.

Lemma Math_max_of_Z (a b : Z) :
  0 < a < 2 ^ 53 -> 0 < b < 2 ^ 53 ->
  Math_max (of_Z a) (of_Z b) = of_Z (Z.max a b).
Proof.
  intros Ha Hb. unfold Math_max. rewrite compare_of_Z by lia.
  destruct (Z.compare_spec a b) as [ -> | H | H ].
  - rewrite Z.max_id, of_Z_positive by lia. reflexivity.
  - now rewrite Z.max_r by lia.
  - now rewrite Z.max_l by lia.
Qed.

Lemma sub_of_Z (a b : Z) :
  0 < b <= a -> a < 2 ^ 53 -> sub (of_Z a) (of_Z b) = of_Z (a - b).
Proof.
  intros Hb Ha. destruct (Z.eq_dec a b) as [ -> | Hne ].
  - rewrite Z.sub_diag, of_Z_positive by lia. apply sub_self.
  - rewrite !of_Z_positive, sub_canonical by (rewrite ?Z2Pos.id; lia).
    f_equal. rewrite <- Z2Pos.inj_sub by lia. reflexivity.
Qed.

Lemma ToInteger_of_Z (n : Z) :
  0 <= n < 2 ^ 53 -> ToIntegerOrInfinity (of_Z n) = Int n.
Proof.
  intros Hn. destruct (Z.eq_dec n 0) as [ -> | Hne ]; [ reflexivity | ].
  rewrite of_Z_positive, ToInteger_canonical by (rewrite ?Z2Pos.id; lia).
  now rewrite Z2Pos.id by lia.
Qed.

(** Clamping an integer. *)
Lemma clamp_of_Z (n : Z) :
  - 2 ^ 53 < n < 2 ^ 53 ->
  Download.clamp (of_Z n) = of_Z (Z.max 1024 (Z.min n (50 * 1024 * 1024))).
Proof.
  intros Hn. unfold Download.clamp, Download.MIN_SIZE, Download.MAX_SIZE.
  destruct n as [ | p | p ].
  - reflexivity.
  - rewrite Math_min_of_Z, Math_max_of_Z by lia. reflexivity.
  - destruct (of_Z_negative p) as (m & e & ->); [ lia | ].
    replace (Z.max 1024 (Z.min (Zneg p) (50 * 1024 * 1024))) with 1024 by lia.
    reflexivity.
Qed.

(** The loop, started with an integer number of bytes, writes them all. *)
Lemma loop_of_Z (k : nat) :
  forall n,
    0 <= n -> n <= Download.CHUNK * Z.of_nat k -> n < 2 ^ 53 ->
    exists j, runs_out j (of_Z n) = true /\ total j (of_Z n) = n.
Proof.
  induction k as [ | k IH ]; intros n Hn Hk H53.
  - exists 0%nat. replace n with 0 by lia. split; reflexivity.
  - destruct (Z.eq_dec n 0) as [ -> | Hne ];
      [ exists 0%nat; split; reflexivity | ].
    assert (Hc : 0 < Download.CHUNK < 2 ^ 53) by (unfold Download.CHUNK; lia).
    assert (Hw : toWrite_of (of_Z n) = of_Z (Z.min Download.CHUNK n))
      by (unfold toWrite_of; apply Math_min_of_Z; lia).
    assert (Hr : remaining_next (of_Z n) = of_Z (n - Z.min Download.CHUNK n))
      by (unfold remaining_next; rewrite Hw; apply sub_of_Z; lia).
    destruct (IH (n - Z.min Download.CHUNK n)) as (j & Hj & Ht); try lia.
    exists (S j). cbn [runs_out total]. rewrite Hr, Hw, Hj, Ht.
    rewrite ltb_zero_of_Z by lia. split; [ reflexivity | ].
    unfold view_length. rewrite ToInteger_of_Z by lia.
    replace (Z.min Download.CHUNK n <? 0) with false
      by (symmetry; apply Z.ltb_ge; lia).
    lia.
Qed.

End Binary64Integers.

(** For every request whose size converts to an integer, the size is
    clamped into [1024, 50 MiB], the header carries the clamped size and
    the body has exactly that many bytes, whatever the transport answers. *)
Lemma download_integer_sizes (q : option qvalue) (n : Z) :
  (- 2 ^ 53 < n < 2 ^ 53)%Z ->
  Download.sizeParam q = of_Z n ->
  let clamped := Z.max 1024 (Z.min n (50 * 1024 * 1024)) in
  Download.size q = of_Z clamped
  /\ Download.ContentLength (Download.headers q) = of_Z clamped
  /\ forall bp, exists steps,
       Download.where_ (Download.writeMore steps bp q) = Download.Ended
       /\ Z.of_nat (length (Download.body (Download.writeMore steps bp q)))
          = clamped
       /\ forall m, steps <= m ->
            Download.writeMore m bp q = Download.writeMore steps bp q.
Proof.
  intros Hn Hq clamped.
  assert (Hs : Download.size q = of_Z clamped)
    by (unfold Download.size; rewrite Hq; now apply clamp_of_Z).
  split; [ exact Hs | split; [ exact Hs | ] ].
  intros bp.
  destruct (loop_of_Z 800 clamped) as (j & Hj & Ht);
    try (unfold Download.CHUNK, clamped; lia).
  destruct (download_completes q j bp) as (steps & He & Hl & Hstable);
    [ now rewrite Hs | ].
  exists steps. rewrite Hl, Hs, Ht. auto.
Qed.

(** X11. A size written in decimal digits is served exactly.  For every
    such size below 2^53 the handler clamps the integer into
    [1024, 50 MiB] and, whatever res.write answers, reaches res.end()
    after a body of exactly that many bytes. *)
Lemma download_decimal_sizes (s : jsstring) :
  s <> [] -> forallb is_digit s = true ->
  (digits_value 10 decimal_digit s < 2 ^ 53)%Z ->
  let q := Some (QStr s) in
  let clamped :=
    Z.max 1024 (Z.min (digits_value 10 decimal_digit s) (50 * 1024 * 1024)) in
  Download.size q = of_Z clamped
  /\ forall bp, exists steps,
       Download.where_ (Download.writeMore steps bp q) = Download.Ended
       /\ Z.of_nat (length (Download.body (Download.writeMore steps bp q)))
          = clamped.
Proof.
  intros Hne Hd Hlt q clamped.
  pose proof (digits_value_nonneg s 0 (Z.le_refl 0)) as Hv.
  fold (digits_value 10 decimal_digit s) in Hv.
  destruct (download_integer_sizes q (digits_value 10 decimal_digit s))
    as (Hs & _ & Hrun).
  - lia.
  - unfold q, Download.sizeParam, Download.truthy.
    destruct s as [ | c s ]; [ congruence | ].
    cbn [Download.ToString]. now apply StringToNumber_digits.
  - split; [ exact Hs | ]. intros bp.
    destruct (Hrun bp) as (steps & He & Hl & _). eauto.
Qed.

Lemma download_decimal_sizes_witness :
  Download.size (Some (QStr (lit "70000"))) = of_Z 70000.
Proof.
  refine (proj1 (download_decimal_sizes (lit "70000") _ _ _));
    [ discriminate | reflexivity | reflexivity ].
Defined.

(** [size=999999999] is clamped to 50 MiB and answered with 50 MiB. *)
Example download_over_cap :
  let q := Some (QStr (lit "999999999")) in
  Download.size q = of_Z 52428800
  /\ forall bp, exists n,
       Download.where_ (Download.writeMore n bp q) = Download.Ended
       /\ Z.of_nat (length (Download.body (Download.writeMore n bp q)))
          = 52428800%Z.
Proof.
  intros q. split; [ reflexivity | ]. intros bp.
  destruct (download_completes q 800 bp) as (n & He & Hl & _);
    [ vm_compute; reflexivity | ].
  exists n. split; [ exact He | ]. rewrite Hl. vm_compute. reflexivity.
Qed.

(** [size=10000000] is answered with exactly 10,000,000 bytes. *)
Example download_ten_million :
  let q := Some (QStr (lit "10000000")) in
  Download.ContentLength (Download.headers q) = of_Z 10000000
  /\ forall bp, exists n,
       Download.where_ (Download.writeMore n bp q) = Download.Ended
       /\ Z.of_nat (length (Download.body (Download.writeMore n bp q)))
          = 10000000%Z.
Proof.
  intros q. split; [ reflexivity | ]. intros bp.
  destruct (download_completes q 153 bp) as (n & He & Hl & _);
    [ vm_compute; reflexivity | ].
  exists n. split; [ exact He | ]. rewrite Hl. vm_compute. reflexivity.
Qed.

(** Without a size the answer has 25 MiB. *)
Example download_default :
  Download.size None = of_Z 26214400
  /\ Download.size (Some (QStr [])) = of_Z 26214400
  /\ forall bp, exists n,
       Download.where_ (Download.writeMore n bp None) = Download.Ended
       /\ Z.of_nat (length (Download.body (Download.writeMore n bp None)))
          = 26214400%Z.
Proof.
  split; [ reflexivity | split; [ reflexivity | ] ]. intros bp.
  destruct (download_completes None 400 bp) as (n & He & Hl & _);
    [ vm_compute; reflexivity | ].
  exists n. split; [ exact He | ]. rewrite Hl. vm_compute. reflexivity.
Qed.

(** A fractional size keeps its fraction in the header, while the body has
    the whole bytes only. *)
Example download_fraction :
  let q := Some (QStr (lit "2000.5")) in
  Download.ContentLength (Download.headers q) = StringToNumber (lit "2000.5")
  /\ forall bp, exists n,
       Download.where_ (Download.writeMore n bp q) = Download.Ended
       /\ Z.of_nat (length (Download.body (Download.writeMore n bp q)))
          = 2000%Z.
Proof.
  intros q. split; [ reflexivity | ]. intros bp.
  destruct (download_completes q 1 bp) as (n & He & Hl & _);
    [ vm_compute; reflexivity | ].
  exists n. split; [ exact He | ]. rewrite Hl. vm_compute. reflexivity.
Qed.

(** C6, at the request [size=abc].  The parameter converts to NaN, which
    the two comparisons of the clamp let through: the size is NaN and lies
    in no interval, the Content-Length header carries NaN, and the body is
    empty, the handler ending at its first step. *)
Theorem download_size_not_a_number :
  let q := Some (QStr (lit "abc")) in
  Download.sizeParam q = NaN
  /\ Download.size q = NaN
  /\ leb Download.MIN_SIZE (Download.size q) = false
  /\ leb (Download.size q) Download.MAX_SIZE = false
  /\ Download.ContentLength (Download.headers q) = NaN
  /\ forall bp n,
       Download.where_ (Download.writeMore (S n) bp q) = Download.Ended
       /\ Download.body (Download.writeMore (S n) bp q) = [].
Proof.
  intros q. do 5 (split; [ reflexivity | ]).
  intros bp n. destruct (nan_ends_at_once q bp n eq_refl) as [He Hw].
  split; [ exact He | ]. unfold Download.body. now rewrite Hw.
Qed.

(** C7 as stated fails: two runs for the same size, one never asked to
    wait and one asked to wait after every write, send the same bytes. *)
Lemma download_streams_differ_counterexample :
  ~ (forall q1 q2 bp1 bp2 n1 n2,
       Download.size q1 = Download.size q2 ->
       Download.where_ (Download.writeMore n1 bp1 q1) = Download.Ended ->
       Download.where_ (Download.writeMore n2 bp2 q2) = Download.Ended ->
       Download.body (Download.writeMore n1 bp1 q1)
       <> Download.body (Download.writeMore n2 bp2 q2)).
Proof.
  intros H.
  apply (H (Some (QStr (lit "1024"))) (Some (QStr (lit "1024.0")))
           (fun _ => true) (fun _ => false) 2 3);
    vm_compute; reflexivity.
Qed.

(** C7, amended.  The perturbation acts between the chunks of one response:
    the first bytes of two consecutive non-empty writes differ, the second
    being the first plus one modulo 256.  Between requests nothing differs:
    two finished runs with the same clamped size have written the same
    chunks, whatever the transport answered, and so the same bytes. *)
Theorem download_perturbed_and_deterministic :
  (forall q bp n i w1 w2 b1 b2,
      nth_error (Download.writes (Download.writeMore n bp q)) i = Some w1 ->
      nth_error (Download.writes (Download.writeMore n bp q)) (S i) = Some w2 ->
      hd_error w1 = Some b1 -> hd_error w2 = Some b2 ->
      b2 = N.land (b1 + 1) 255 /\ b2 <> b1)
  /\ (forall q1 q2 bp1 bp2 n1 n2,
        Download.size q1 = Download.size q2 ->
        Download.where_ (Download.writeMore n1 bp1 q1) = Download.Ended ->
        Download.where_ (Download.writeMore n2 bp2 q2) = Download.Ended ->
        Download.writes (Download.writeMore n1 bp1 q1)
        = Download.writes (Download.writeMore n2 bp2 q2)
        /\ Download.body (Download.writeMore n1 bp1 q1)
           = Download.body (Download.writeMore n2 bp2 q2)).
Proof.
  split.
  - intros q bp n.
    destruct (steps_in_step n bp (Download.init q) (init_in_step q))
      as (_ & Hp & _).
    intros i [ | x1 t1 ] [ | x2 t2 ] b1 b2 H1 H2 Hb1 Hb2; try discriminate.
    injection Hb1 as ->. injection Hb2 as ->.
    exact (Hp i b1 t1 b2 t2 H1 H2).
  - intros q1 q2 bp1 bp2 n1 n2 Hs H1 H2.
    assert (Hi : Download.init q1 = Download.init q2)
      by (unfold Download.init; now rewrite Hs).
    unfold Download.writeMore in *. rewrite Hi in *.
    assert (Ht : forall n bp, on_track (Download.init q2)
                                (Download.steps n bp (Download.init q2))).
    { intros n bp. apply steps_on_track, on_track_start. reflexivity. }
    destruct (ended_same_data _ _ _ (Ht n1 bp1) (Ht n2 bp2) H1 H2)
      as (_ & _ & Hw).
    unfold Download.body. rewrite Hw. split; reflexivity.
Qed.

Lemma download_perturbed_and_deterministic_witness :
  let q := Some (QStr (lit "65537")) in
  let ws := Download.writes (Download.writeMore 5 (fun _ => false) q) in
  (33 = N.land (32 + 1) 255 /\ 33 <> 32)%N
  /\ Download.body (Download.writeMore 3 (fun _ => true) q)
     = Download.body (Download.writeMore 5 (fun _ => false) q).
Proof.
  intros q ws.
  destruct download_perturbed_and_deterministic as [Hp Hd].
  split.
  - apply (Hp q (fun _ => false) 5 0 (nth 0 ws []) (nth 1 ws []) 32%N 33%N).
    + apply nth_error_nth'. vm_compute. lia.
    + apply nth_error_nth'. vm_compute. lia.
    + vm_compute. reflexivity.
    + vm_compute. reflexivity.
  - apply (Hd q q (fun _ => true) (fun _ => false) 3 5);
      vm_compute; reflexivity.
Defined.

Section PatternFacts.
Import Download.

Lemma fill_head : fill = 31%N :: tl fill.
Proof.
  unfold fill. destruct (Z.to_nat CHUNK) eqn:E;
    [ unfold CHUNK in E; lia | reflexivity ].
Qed.

Lemma nth_error_fill_from (n : nat) :
  forall i0 j b,
    nth_error (fill_from i0 n) j = Some b ->
    b = N.land ((i0 + N.of_nat j) * 97 + 31) 255.
Proof.
  induction n as [ | n IH ]; intros i0 j b H.
  - destruct j; discriminate.
  - destruct j as [ | j ].
    + cbn in H. injection H as <-. now rewrite N.add_0_r.
    + cbn [fill_from nth_error] in H. apply IH in H. subst b.
      f_equal. f_equal. f_equal. lia.
Qed.

Lemma nth_error_pattern (j i : nat) (b : N) :
  nth_error (pattern j) i = Some b -> b = pattern_byte j i.
Proof.
  unfold pattern, fill. destruct i as [ | i ]; cbn [nth_error pattern_byte].
  - now intros [= <-].
  - destruct (Z.to_nat CHUNK) as [ | n ]; cbn [fill_from tl].
    + destruct i; discriminate.
    + intros H. apply nth_error_fill_from in H. subst b.
      f_equal. f_equal. f_equal. lia.
Qed.

Lemma pattern_length (j : nat) : Z.of_nat (length (pattern j)) = CHUNK.
Proof.
  unfold pattern. cbn [length].
  change (S (length (tl fill))) with (length (31%N :: tl fill)).
  rewrite <- fill_head. unfold fill. rewrite fill_from_length.
  apply Z2Nat.id. unfold CHUNK. lia.
Qed.

Lemma land_255_mod (x : N) : N.land x 255 = (x mod 256)%N.
Proof. apply (N.land_ones x 8). Qed.

Lemma bump_pattern (k : nat) :
  bump (N.land (31 + N.of_nat k) 255 :: tl fill) = pattern k.
Proof.
  unfold pattern, bump. f_equal. rewrite !land_255_mod.
  rewrite N.Div0.add_mod_idemp_l. f_equal. lia.
Qed.

Lemma pattern_period (j : nat) : pattern (j + 256) = pattern j.
Proof.
  unfold pattern. f_equal. rewrite !land_255_mod, Nat2N.inj_add.
  change (N.of_nat 256) with (1 * 256)%N.
  now rewrite N.add_assoc, N.Div0.mod_add.
Qed.

Lemma subarray0_prefix (c : list N) (e : number) :
  exists m, subarray0 c e = firstn m c.
Proof.
  unfold subarray0. destruct (ToIntegerOrInfinity e) as [ z | | ].
  - destruct (z <? 0)%Z; eexists; reflexivity.
  - exists (length c). now rewrite firstn_all.
  - now exists 0.
Qed.

Lemma write_chunk_follows (x : bool) (st : state) :
  follows_pattern st -> follows_pattern (write_chunk x st).
Proof.
  intros [Hc Hw]. unfold write_chunk. split; cbn [chunk writes].
  - rewrite Hc, bump_pattern. unfold pattern. f_equal.
    rewrite length_app. cbn [length]. f_equal. lia.
  - intros j w Hj. rewrite Hc, bump_pattern in Hj.
    destruct (Nat.lt_ge_cases j (length (writes st))) as [ Hlt | Hge ].
    + rewrite nth_error_app1 in Hj by exact Hlt. now apply Hw.
    + rewrite nth_error_app2 in Hj by exact Hge.
      destruct (j - length (writes st)) as [ | d ] eqn:Hd;
        [ | destruct d; discriminate ].
      cbn in Hj. injection Hj as <-.
      replace j with (length (writes st)) by lia.
      apply subarray0_prefix.
Qed.

Lemma step_follows (bp : nat -> bool) (st : state) :
  follows_pattern st -> follows_pattern (step bp st).
Proof.
  intros H. unfold step. destruct (where_ st); [ | exact H | exact H ].
  destruct (ltb _ _); [ now apply write_chunk_follows | exact H ].
Qed.

Lemma steps_follow (n : nat) (bp : nat -> bool) :
  forall st, follows_pattern st -> follows_pattern (steps n bp st).
Proof.
  induction n as [ | n IH ]; intros st H; [ exact H | ].
  cbn [steps]. now apply IH, step_follows.
Qed.

Lemma init_follows (q : option qvalue) : follows_pattern (init q).
Proof.
  split; cbn [init chunk writes].
  - exact fill_head.
  - intros [ | j ] w H; discriminate.
Qed.

Lemma firstn_of_length {A} (m : nat) (l : list A) :
  firstn (length (firstn m l)) l = firstn m l.
Proof.
  revert l. induction m as [ | m IH ]; intros [ | x l ]; cbn; try reflexivity.
  now rewrite IH.
Qed.

End PatternFacts.

(** X12. The bytes of a download are known in advance.  The chunk written by
    the j-th call of res.write is a prefix, at most 64 KiB long, of a fixed
    pattern: its first byte is (32 + j) mod 256 and its byte at an offset
    i > 0 is (97 i + 31) mod 256, whatever the size and the backpressure.
    Two chunks of one length that lie 256 writes apart are therefore
    equal. *)
Theorem download_chunk_contents :
  forall (q : option qvalue) (bp : nat -> bool) (n j : nat) (w : list N),
    nth_error (Download.writes (Download.writeMore n bp q)) j = Some w ->
    (Z.of_nat (length w) <= Download.CHUNK)%Z
    /\ (forall i b, nth_error w i = Some b -> b = pattern_byte j i)
    /\ (forall w',
          nth_error (Download.writes (Download.writeMore n bp q)) (j + 256)
          = Some w' ->
          length w' = length w -> w' = w).
Proof.
  intros q bp n j w Hj.
  destruct (steps_follow n bp _ (init_follows q)) as [_ Hw].
  fold (Download.writeMore n bp q) in Hw.
  destruct (Hw j w Hj) as [ m -> ].
  split; [ | split ].
  - rewrite <- (pattern_length j). apply Nat2Z.inj_le. rewrite length_firstn. apply Nat.le_min_r.
  - intros i b Hi. apply (nth_error_pattern j i).
    destruct (Nat.lt_ge_cases i m) as [ Hlt | Hge ].
    + now rewrite nth_error_firstn, (proj2 (Nat.ltb_lt i m) Hlt) in Hi.
    + rewrite nth_error_firstn in Hi.
      now rewrite (proj2 (Nat.ltb_ge i m) Hge) in Hi.
  - intros w' Hj' Hlen. destruct (Hw _ w' Hj') as [ m' -> ].
    rewrite pattern_period in *.
    rewrite <- (firstn_of_length m'), Hlen. apply firstn_of_length.
Qed.

Lemma download_chunk_contents_witness :
  (Z.of_nat (length [33%N]) <= Download.CHUNK)%Z.
Proof.
  refine (proj1 (download_chunk_contents (Some (QStr (lit "65537")))
                   (fun _ => false) 5 1 [33%N] _)).
  vm_compute. reflexivity.
Defined.

(** ** The upload handler *)

(** C10. When the request has no body, or a body that was not parsed into
    a Buffer, the handler takes its length as 0 and answers 200 with
    receivedBytes 0.  The answer is 413 only for a Buffer whose length is
    strictly above 200 MiB; any other Buffer is answered 200 with its
    length. *)
Theorem upload_body_length :
  (forall b,
      b = Upload.BodyUndefined \/ b = Upload.BodyEmptyObject ->
      Upload.bytes b = 0%Z
      /\ Upload.upload b = {| Http.status := 200; Http.json := Http.UploadJson 0 |})
  /\ (forall b,
        Http.status (Upload.upload b) = 413%Z <->
        exists data, b = Upload.BodyBuffer data
                     /\ (200 * 1024 * 1024 < Z.of_nat (length data))%Z)
  /\ (forall data,
        (Z.of_nat (length data) <= 200 * 1024 * 1024)%Z ->
        Upload.upload (Upload.BodyBuffer data)
        = {| Http.status := 200;
             Http.json := Http.UploadJson (Z.of_nat (length data)) |}).
Proof.
  assert (Hb : forall data,
             Upload.bytes (Upload.BodyBuffer data) = Z.of_nat (length data)).
  { intros data. unfold Upload.bytes.
    destruct (Z.of_nat (length data) =? 0)%Z eqn:E; [ | reflexivity ].
    apply Z.eqb_eq in E. now rewrite E. }
  split; [ | split ].
  - intros b [ -> | -> ]; split; reflexivity.
  - intros b. unfold Upload.upload. split.
    + destruct (Upload.MAX_BYTES <? Upload.bytes b)%Z eqn:E;
        [ intros _ | discriminate ].
      apply Z.ltb_lt in E. destruct b as [ | | data ];
        try (cbn in E; unfold Upload.MAX_BYTES in E; lia).
      exists data. rewrite Hb in E. unfold Upload.MAX_BYTES in E. auto.
    + intros (data & -> & Hlen). rewrite Hb.
      assert (E : (Upload.MAX_BYTES <? Z.of_nat (length data))%Z = true)
        by (apply Z.ltb_lt; unfold Upload.MAX_BYTES; lia).
      now rewrite E.
  - intros data Hlen. unfold Upload.upload. rewrite Hb.
    assert (E : (Upload.MAX_BYTES <? Z.of_nat (length data))%Z = false)
      by (apply Z.ltb_ge; unfold Upload.MAX_BYTES; lia).
    now rewrite E.
Qed.

Lemma upload_body_length_witness :
  Upload.upload Upload.BodyEmptyObject
  = {| Http.status := 200; Http.json := Http.UploadJson 0 |}
  /\ Upload.upload (Upload.BodyBuffer [1%N; 2%N; 3%N])
     = {| Http.status := 200; Http.json := Http.UploadJson 3 |}.
Proof.
  destruct upload_body_length as (H0 & _ & H200).
  split.
  - apply (H0 Upload.BodyEmptyObject). right. reflexivity.
  - apply (H200 [1%N; 2%N; 3%N]). cbn. lia.
Defined.

(** ** The speed test of the page *)

Section BlobFacts.
Import Client.
Local Open Scope Z_scope.

Lemma fill_buf_app (a : nat) :
  forall b seed,
    fill_buf (a + b) seed
    = (fst (fill_buf a seed) ++ fst (fill_buf b (snd (fill_buf a seed))),
       snd (fill_buf b (snd (fill_buf a seed)))).
Proof.
  induction a as [ | a IH ]; intros b seed.
  - cbn. now destruct (fill_buf b seed).
  - cbn [Nat.add fill_buf]. rewrite IH.
    destruct (fill_buf a (next_seed seed)) as [x s1]. cbn [fst snd].
    reflexivity.
Qed.

Lemma fill_buf_length (n : nat) :
  forall seed, length (fst (fill_buf n seed)) = n.
Proof.
  induction n as [ | n IH ]; intros seed; [ reflexivity | ].
  cbn [fill_buf]. specialize (IH (next_seed seed)).
  destruct (fill_buf n (next_seed seed)). cbn in *. now rewrite IH.
Qed.


Lemma fill_parts_concat (chunks : nat) :
  forall remaining seed,
    remaining <= chunkSize * Z.of_nat chunks ->
    concat (fill_parts chunks remaining seed)
    = fst (fill_buf (Z.to_nat remaining) seed).
Proof.
  induction chunks as [ | chunks IH ]; intros remaining seed Hr.
  - replace (Z.to_nat remaining) with O by lia. reflexivity.
  - cbn [fill_parts].
    set (len := Z.min chunkSize remaining).
    replace (Z.to_nat remaining)
      with (Z.to_nat len + Z.to_nat (remaining - len))%nat
      by (unfold len, chunkSize; lia).
    rewrite fill_buf_app. cbn [fst].
    destruct (fill_buf (Z.to_nat len) seed) as [buf seed']. cbn [fst snd concat].
    f_equal. apply IH. unfold len, chunkSize in *. lia.
Qed.



Lemma ceil_div_bounds (n : Z) :
  chunkSize * (ceil_div n chunkSize - 1) < n <= chunkSize * ceil_div n chunkSize.
Proof.
  unfold ceil_div, chunkSize.
  pose proof (Z.div_mod (- n) (64 * 1024) ltac:(lia)) as Hd.
  pose proof (Z.mod_pos_bound (- n) (64 * 1024) ltac:(lia)) as Hm.
  lia.
Qed.

Lemma next_seed_exact (seed : N) :
  (seed < 2 ^ 32 -> seed * 1664525 + 1013904223 < 2 ^ 53)%N.
Proof. intros H. change (2 ^ 32)%N with 4294967296%N in H.
  change (2 ^ 53)%N with 9007199254740992%N. lia. Qed.

Lemma makeRandomBlob_generated (sizeBytes : Z) :
  makeRandomBlob sizeBytes = generated (Z.to_nat sizeBytes) 0.
Proof.
  pose proof (ceil_div_bounds sizeBytes) as Hc.
  unfold makeRandomBlob, parts.
  apply fill_parts_concat. unfold chunkSize in *. lia.
Qed.

Lemma makeRandomBlob_length (sizeBytes : Z) :
  Z.of_nat (length (makeRandomBlob sizeBytes)) = Z.max 0 sizeBytes.
Proof.
  rewrite makeRandomBlob_generated. unfold generated.
  rewrite fill_buf_length. lia.
Qed.

End BlobFacts.


(** X14. The upload test reports the size it was asked for.  For every size
    from 0 to 200 MiB the handler receives a body of that many bytes,
    answers 200 with receivedBytes equal to the size, and runUploadTest
    returns that count (for size 0 through its fallback). *)
Theorem runUploadTest_reports_size :
  forall (sizeBytes : Z) (body : Upload.reqbody),
    (0 <= sizeBytes <= 200 * 1024 * 1024)%Z ->
    received_as (Client.makeRandomBlob sizeBytes) body ->
    Upload.upload body
    = {| Http.status := 200; Http.json := Http.UploadJson sizeBytes |}
    /\ Client.runUploadTest sizeBytes body = sizeBytes.
Proof.
  intros sizeBytes body Hs Hb.
  pose proof (makeRandomBlob_length sizeBytes) as Hlen.
  assert (Hbytes : Upload.bytes body = sizeBytes).
  { destruct Hb as [ -> | (Hnil & [ -> | -> ]) ]; cbn [Upload.bytes].
    - rewrite Hlen. destruct (Z.eqb_spec (Z.max 0 sizeBytes) 0); lia.
    - rewrite Hnil in Hlen. cbn in Hlen. lia.
    - rewrite Hnil in Hlen. cbn in Hlen. lia. }
  assert (Hup : Upload.upload body
                = {| Http.status := 200; Http.json := Http.UploadJson sizeBytes |}).
  { unfold Upload.upload. rewrite Hbytes.
    replace (Upload.MAX_BYTES <? sizeBytes)%Z with false; [ reflexivity | ].
    symmetry. apply Z.ltb_ge. unfold Upload.MAX_BYTES. lia. }
  split; [ exact Hup | ].
  unfold Client.runUploadTest. rewrite Hup. cbn [Http.json Client.bytes_of].
  destruct (Z.eqb_spec sizeBytes 0); congruence.
Qed.

Lemma runUploadTest_reports_size_witness :
  Client.runUploadTest 3 (Upload.BodyBuffer (Client.makeRandomBlob 3)) = 3%Z.
Proof.
  refine (proj2 (runUploadTest_reports_size 3 _ _ _));
    [ lia | left; reflexivity ].
Defined.

Section ReaderFacts.
Import Client.
Local Open Scope Z_scope.

Lemma digits_before_value (fuel : nat) :
  forall n acc,
    0 <= n < 10 ^ Z.of_nat fuel ->
    fold_left (fun a d => 10 * a + decimal_digit d) (digits_before fuel n acc) 0
    = fold_left (fun a d => 10 * a + decimal_digit d) acc n.
Proof.
  induction fuel as [ | fuel IH ]; intros n acc Hn.
  - cbn in Hn. replace n with 0 by lia. reflexivity.
  - cbn [digits_before].
    assert (Hd : decimal_digit (48 + Z.to_N (n mod 10))%N = n mod 10).
    { unfold decimal_digit.
      pose proof (Z.mod_pos_bound n 10 ltac:(lia)). lia. }
    pose proof (Z.div_mod n 10 ltac:(lia)) as Hdm.
    destruct (Z.ltb_spec n 10) as [ Hlt | Hge ].
    + cbn [fold_left]. rewrite Hd. f_equal. rewrite Z.mod_small; lia.
    + rewrite IH.
      * cbn [fold_left]. rewrite Hd. f_equal. lia.
      * rewrite Nat2Z.inj_succ, Z.pow_succ_r in Hn by lia.
        split; [ apply Z.div_pos; lia | ].
        apply Z.div_lt_upper_bound; lia.
Qed.

Lemma digits_before_digits (fuel : nat) :
  forall n acc,
    0 <= n -> forallb is_digit acc = true ->
    forallb is_digit (digits_before fuel n acc) = true.
Proof.
  induction fuel as [ | fuel IH ]; intros n acc Hn Hacc; [ exact Hacc | ].
  cbn [digits_before].
  assert (Hd : forallb is_digit ((48 + Z.to_N (n mod 10))%N :: acc) = true).
  { cbn [forallb]. rewrite Hacc, andb_true_r. unfold is_digit.
    pose proof (Z.mod_pos_bound n 10 ltac:(lia)).
    apply andb_true_iff. split; apply N.leb_le; lia. }
  destruct (n <? 10); [ exact Hd | ].
  apply IH; [ apply Z.div_pos; lia | exact Hd ].
Qed.

Lemma digits_before_nonempty (fuel : nat) :
  forall n acc, acc <> [] \/ fuel <> O -> digits_before fuel n acc <> [].
Proof.
  induction fuel as [ | fuel IH ]; intros n acc H.
  - destruct H as [ H | H ]; [ exact H | congruence ].
  - cbn [digits_before]. destruct (n <? 10); [ discriminate | ].
    apply IH. left. discriminate.
Qed.

Lemma received_length (reads : list (list N)) :
  received reads = Z.of_nat (length (concat reads)).
Proof.
  unfold received.
  assert (H : forall acc,
             fold_left (fun r v => r + Z.of_nat (length v)) reads acc
             = acc + Z.of_nat (length (concat reads))).
  { induction reads as [ | v reads IH ]; intros acc; cbn [fold_left concat].
    - cbn. lia.
    - rewrite IH, length_app. lia. }
  now rewrite H.
Qed.

Lemma size_query_number (n : Z) :
  0 <= n < 2 ^ 53 -> Download.sizeParam (size_query n) = of_Z n.
Proof.
  intros Hn. unfold size_query, Download.sizeParam, Download.truthy, ToString.
  assert (Hne : digits_before 21 n [] <> [])
    by (apply digits_before_nonempty; right; discriminate).
  assert (Hd : forallb is_digit (digits_before 21 n []) = true)
    by (apply digits_before_digits; [ lia | reflexivity ]).
  pose proof (digits_before_value 21 n []) as Hv.
  destruct (digits_before 21 n []) as [ | c s ] eqn:E; [ congruence | ].
  cbn [Download.ToString].
  rewrite (StringToNumber_digits (c :: s) Hne Hd). f_equal.
  unfold digits_value. rewrite Hv; [ reflexivity | ].
  change (10 ^ Z.of_nat 21) with 1000000000000000000000.
  change (2 ^ 53) with 9007199254740992 in Hn. lia.
Qed.

End ReaderFacts.

(** X15. runDownloadTest counts the clamped size, not the requested one.
    For a requested size from 0 up to 2^53 the page sends its decimal
    digits, the server reads the same integer back, clamps it into
    [1 KiB, 50 MiB] and ends the response after exactly that many bytes;
    however the transport cuts the body into reads, the count of received
    bytes is the clamped size. *)
Theorem runDownloadTest_receives_clamped_size :
  forall (sizeBytes : Z) (bp : nat -> bool),
    (0 <= sizeBytes < 2 ^ 53)%Z ->
    let q := Client.size_query sizeBytes in
    let clamped := Z.max 1024 (Z.min sizeBytes (50 * 1024 * 1024)) in
    Download.sizeParam q = of_Z sizeBytes
    /\ exists steps,
         Download.where_ (Download.writeMore steps bp q) = Download.Ended
         /\ forall reads,
              concat reads = Download.body (Download.writeMore steps bp q) ->
              Client.received reads = clamped.
Proof.
  intros sizeBytes bp Hn q clamped.
  pose proof (size_query_number sizeBytes Hn) as Hq. fold q in Hq.
  split; [ exact Hq | ].
  assert (Hrange : (- 2 ^ 53 < sizeBytes < 2 ^ 53)%Z).
  { change (2 ^ 53)%Z with 9007199254740992%Z in *. lia. }
  destruct (download_integer_sizes q sizeBytes Hrange Hq) as (_ & _ & Hrun).
  destruct (Hrun bp) as (steps & He & Hl & _).
  exists steps. split; [ exact He | ].
  intros reads Hr. now rewrite received_length, Hr.
Qed.

Lemma runDownloadTest_receives_clamped_size_witness :
  Download.sizeParam (Client.size_query 10485760) = of_Z 10485760.
Proof.
  refine (proj1 (runDownloadTest_receives_clamped_size 10485760 (fun _ => true) _)).
  change (2 ^ 53)%Z with 9007199254740992%Z. lia.
Defined.
